(** * recipekeeper2recipemd: a shallow embedding of [main.go]

    The program reads a RecipeKeeper HTML export, extracts one [Recipe]
    per [div.recipe-details] fragment and renders it as RecipeMD text.

    Go values are modelled as follows.
    - a Go [string] is a sequence of bytes: Rocq's [string] (one [ascii]
      per byte; a non-ASCII literal in this file is its UTF-8 bytes);
    - a [rune], an [int] and a [time.Duration] (nanoseconds) are [Z];
    - a [float64] is a [spec_float] computed at precision 53, a [float32]
      at precision 24 (the IEEE 754 operations of [SpecFloat]);
    - a slice is [option (list A)], [None] being Go's [nil] slice;
    - [(T, error)] is [result T];
    - the parsed HTML fragment is a tree of [Node]s.

    Library functions ([unicode/utf8], [strings], [strconv], [time],
    [regexp], [goquery]) are modelled by the algorithm of the Go
    library they stand for; the functions of [main.go] keep their
    names. *)

From Stdlib Require Import ZArith List Bool Ascii String Lia.
From Stdlib Require Import Floats.SpecFloat.
Import ListNotations.

Open Scope string_scope.
Open Scope Z_scope.

(* ===================================================================== *)
(** * Go strings and UTF-8 *)
(* ===================================================================== *)

Definition rune := Z.

(** Go's [error] values the program can meet. The text of a message is
    never inspected by the program; the operand a library quotes in its
    message is kept as it is. *)
Inductive error :=
| errorString (msg : string)              (* errors.New(msg) *)
| NumError (Func Num : string) (range : bool)
    (* *strconv.NumError; [range] tells ErrRange from ErrSyntax *)
| durationError (msg orig : string).      (* package time: msg + quote(orig) *)

Inductive result (A : Type) : Type :=
| Ok (a : A)
| Err (e : error).
Arguments Ok {A} a.
Arguments Err {A} e.

Module GoString.

Definition byte_val (c : ascii) : Z := Z.of_N (N_of_ascii c).
Definition byte_of (z : Z) : ascii := ascii_of_N (Z.to_N z).

(** [s[i]]; every use below is guarded by a length test, as in Go. *)
Definition at_ (s : string) (i : nat) : Z :=
  match String.get i s with
  | Some c => byte_val c
  | None => 0
  end.

(** [s[n:]] *)
Fixpoint drop (n : nat) (s : string) : string :=
  match n, s with
  | O, _ => s
  | S n', String _ t => drop n' t
  | S _, EmptyString => EmptyString
  end.

(** [s[:n]] *)
Fixpoint take (n : nat) (s : string) : string :=
  match n, s with
  | O, _ => EmptyString
  | S n', String c t => String c (take n' t)
  | S _, EmptyString => EmptyString
  end.

Fixpoint rev_append (s acc : string) : string :=
  match s with
  | EmptyString => acc
  | String c t => rev_append t (String c acc)
  end.

Definition rev (s : string) : string := rev_append s EmptyString.

End GoString.
Import GoString.

Module Utf8.

Definition RuneError : rune := 0xFFFD.
Definition RuneSelf : Z := 0x80.
Definition MaxRune : rune := 0x10FFFF.
Definition UTFMax : nat := 4.

(** The [first] table of [unicode/utf8]: what a leading byte
    announces. [LeadAscii] is the entry [as], [LeadInvalid] is [xx],
    [Lead sz lo hi] gives the sequence length and the accepted range of
    the second byte. *)
Inductive lead :=
| LeadAscii
| LeadInvalid
| Lead (sz : nat) (lo hi : Z).

Definition locb : Z := 0x80.
Definition hicb : Z := 0xBF.

Definition first (s0 : Z) : lead :=
  if s0 <? 0x80 then LeadAscii
  else if s0 <? 0xC2 then LeadInvalid
  else if s0 <? 0xE0 then Lead 2 locb hicb
  else if s0 =? 0xE0 then Lead 3 0xA0 hicb
  else if s0 <? 0xED then Lead 3 locb hicb
  else if s0 =? 0xED then Lead 3 locb 0x9F
  else if s0 <? 0xF0 then Lead 3 locb hicb
  else if s0 =? 0xF0 then Lead 4 0x90 hicb
  else if s0 <? 0xF4 then Lead 4 locb hicb
  else if s0 =? 0xF4 then Lead 4 locb 0x8F
  else LeadInvalid.

Definition mask2 : Z := 0x1F.
Definition mask3 : Z := 0x0F.
Definition mask4 : Z := 0x07.
Definition maskx : Z := 0x3F.

(** The body of [utf8.DecodeRuneInString] on a string of [n] bytes whose
    first four bytes are [s0 s1 s2 s3] (a byte beyond the end is never
    looked at: the length test comes first). *)
Definition decode_core (n : nat) (s0 s1 s2 s3 : Z) : rune * nat :=
  if (n <? 1)%nat then (RuneError, 0%nat)
  else
    match first s0 with
    | LeadAscii => (s0, 1%nat)
    | LeadInvalid => (RuneError, 1%nat)
    | Lead sz lo hi =>
        if (n <? sz)%nat then (RuneError, 1%nat)
        else if (s1 <? lo) || (hi <? s1) then (RuneError, 1%nat)
        else if (sz <=? 2)%nat then
          (Z.lor (Z.shiftl (Z.land s0 mask2) 6) (Z.land s1 maskx), 2%nat)
        else if (s2 <? locb) || (hicb <? s2) then (RuneError, 1%nat)
        else if (sz <=? 3)%nat then
          (Z.lor (Z.lor (Z.shiftl (Z.land s0 mask3) 12)
                        (Z.shiftl (Z.land s1 maskx) 6))
                 (Z.land s2 maskx), 3%nat)
        else if (s3 <? locb) || (hicb <? s3) then (RuneError, 1%nat)
        else
          (Z.lor (Z.lor (Z.lor (Z.shiftl (Z.land s0 mask4) 18)
                               (Z.shiftl (Z.land s1 maskx) 12))
                        (Z.shiftl (Z.land s2 maskx) 6))
                 (Z.land s3 maskx), 4%nat)
    end.

Definition DecodeRuneInString (s : string) : rune * nat :=
  decode_core (String.length s) (at_ s 0) (at_ s 1) (at_ s 2) (at_ s 3).

(** [utf8.RuneStart]: not a continuation byte. *)
Definition RuneStart (b : Z) : bool := negb (Z.land b 0xC0 =? 0x80).

(** The loop [for start--; start >= lim; start-- { if RuneStart(s[start])
    { break } }] of [utf8.DecodeLastRuneInString]; it runs at most
    [UTFMax] times. *)
Fixpoint last_start (fuel : nat) (s : string) (start lim : Z) : Z :=
  match fuel with
  | O => start
  | S fuel' =>
      if start <? lim then start
      else if RuneStart (at_ s (Z.to_nat start)) then start
      else last_start fuel' s (start - 1) lim
  end.

Definition DecodeLastRuneInString (s : string) : rune * nat :=
  let end_ := Z.of_nat (String.length s) in
  if end_ =? 0 then (RuneError, 0%nat)
  else
    let start := end_ - 1 in
    let r := at_ s (Z.to_nat start) in
    if r <? RuneSelf then (r, 1%nat)
    else
      let lim := Z.max (end_ - Z.of_nat UTFMax) 0 in
      let start := last_start UTFMax s (start - 1) lim in
      let start := if start <? 0 then 0 else start in
      let '(r, size) := DecodeRuneInString (drop (Z.to_nat start) s) in
      if start + Z.of_nat size =? end_ then (r, size)
      else (RuneError, 1%nat).

Definition surrogateMin : Z := 0xD800.
Definition surrogateMax : Z := 0xDFFF.

(** [utf8.ValidRune] *)
Definition ValidRune (r : rune) : bool :=
  ((0 <=? r) && (r <? surrogateMin)) || ((surrogateMax <? r) && (r <=? MaxRune)).

(** [utf8.AppendRune] on an empty buffer: the bytes of a rune. A rune
    out of range (negative, a surrogate, above [MaxRune]) is written as
    [RuneError]. *)
Definition EncodeRune (r : rune) : string :=
  if (0 <=? r) && (r <=? 0x7F) then String (byte_of r) ""
  else if (0 <=? r) && (r <=? 0x7FF) then
    String (byte_of (Z.lor 0xC0 (Z.shiftr r 6)))
      (String (byte_of (Z.lor 0x80 (Z.land r maskx))) "")
  else if ((0 <=? r) && (r <? surrogateMin))
       || ((surrogateMax <? r) && (r <=? 0xFFFF)) then
    String (byte_of (Z.lor 0xE0 (Z.shiftr r 12)))
      (String (byte_of (Z.lor 0x80 (Z.land (Z.shiftr r 6) maskx)))
         (String (byte_of (Z.lor 0x80 (Z.land r maskx))) ""))
  else if (0xFFFF <? r) && (r <=? MaxRune) then
    String (byte_of (Z.lor 0xF0 (Z.shiftr r 18)))
      (String (byte_of (Z.lor 0x80 (Z.land (Z.shiftr r 12) maskx)))
         (String (byte_of (Z.lor 0x80 (Z.land (Z.shiftr r 6) maskx)))
            (String (byte_of (Z.lor 0x80 (Z.land r maskx))) "")))
  else "�"%string.

(** One step of [for i, r := range s]: the rune at the head of [s] and
    the bytes it was read from. *)
Record token := { tok_rune : rune; tok_bytes : string }.

(** [for _, r := range s]: the bytes of [s] cut into runes. [skip]
    counts the bytes of the current rune still to be passed over. *)
Fixpoint range_from (skip : nat) (s : string) : list token :=
  match s with
  | EmptyString => []
  | String _ t =>
      match skip with
      | S k => range_from k t
      | O =>
          let '(r, size) := DecodeRuneInString s in
          {| tok_rune := r; tok_bytes := take size s |}
            :: range_from (size - 1) t
      end
  end.

Definition range (s : string) : list token := range_from 0 s.
Definition runes (s : string) : list rune := map tok_rune (range s).

End Utf8.

Import Utf8.

Module Unicode.

Definition MaxLatin1 : rune := 0xFF.

(** [unicode.IsSpace]: the Latin-1 spaces, then the [White_Space] table
    above Latin-1. *)
Definition IsSpace (r : rune) : bool :=
  if (0 <=? r) && (r <=? MaxLatin1) then
    (r =? 0x09) || (r =? 0x0A) || (r =? 0x0B) || (r =? 0x0C)
    || (r =? 0x0D) || (r =? 0x20) || (r =? 0x85) || (r =? 0xA0)
  else
    (r =? 0x1680) || ((0x2000 <=? r) && (r <=? 0x200A))
    || ((0x2028 <=? r) && (r <=? 0x2029)) || (r =? 0x202F)
    || (r =? 0x205F) || (r =? 0x3000).

End Unicode.

Module Strings.

(** The [asciiSpace] table of package [strings]. *)
Definition asciiSpace (c : Z) : bool :=
  (c =? 0x09) || (c =? 0x0A) || (c =? 0x0B) || (c =? 0x0C)
  || (c =? 0x0D) || (c =? 0x20).

(** [strings.TrimLeftFunc(s, unicode.IsSpace)]: [indexFunc] ranges
    over the runes until one is not a space; [-1] gives [""]. *)
Fixpoint trim_left (fuel : nat) (s : string) : string :=
  match fuel with
  | O => ""
  | S fuel' =>
      match s with
      | EmptyString => ""
      | String _ _ =>
          let '(r, size) := DecodeRuneInString s in
          if Unicode.IsSpace r then trim_left fuel' (drop size s) else s
      end
  end.

Definition TrimLeftFunc_IsSpace (s : string) : string :=
  trim_left (String.length s) s.

(** [lastIndexFunc(s, unicode.IsSpace, false)]; [None] is [-1]. *)
Fixpoint last_index (fuel : nat) (s : string) (i : nat) : option nat :=
  match fuel with
  | O => None
  | S fuel' =>
      if (i =? 0)%nat then None
      else
        let '(r, size) := DecodeLastRuneInString (take i s) in
        let i := (i - size)%nat in
        if Unicode.IsSpace r then last_index fuel' s i else Some i
  end.

Definition TrimRightFunc_IsSpace (s : string) : string :=
  match last_index (String.length s) s (String.length s) with
  | Some i =>
      if at_ s i >=? RuneSelf then
        let '(_, wid) := DecodeRuneInString (drop i s) in
        take (i + wid) s
      else take (i + 1) s
  | None => take 0 s
  end.

Definition TrimFunc_IsSpace (s : string) : string :=
  TrimRightFunc_IsSpace (TrimLeftFunc_IsSpace s).

(** The two ASCII loops of [strings.TrimSpace]. Each returns what is
    left and whether it stopped on a byte [>= utf8.RuneSelf]. The second
    loop walks from the end, here over the reversed string. *)
Fixpoint ascii_trim (s : string) : string * bool :=
  match s with
  | EmptyString => (EmptyString, false)
  | String c t =>
      if byte_val c >=? RuneSelf then (s, true)
      else if asciiSpace (byte_val c) then ascii_trim t
      else (s, false)
  end.

Definition TrimSpace (s : string) : string :=
  let '(s1, fallback) := ascii_trim s in
  if fallback then TrimFunc_IsSpace s1
  else
    let '(r2, fallback) := ascii_trim (rev s1) in
    if fallback then TrimRightFunc_IsSpace (rev r2)
    else rev r2.

(** [strings.Join] *)
Fixpoint Join (elems : list string) (sep : string) : string :=
  match elems with
  | [] => ""
  | [x] => x
  | x :: rest => x ++ sep ++ Join rest sep
  end.

End Strings.

(* ===================================================================== *)
(** * Fraction glyphs *)
(* ===================================================================== *)

(** [var fractions = map[rune]string{...}]: the keys are distinct, so the
    map is given by its entries. *)
Definition fractions : list (rune * string) :=
  [ (0xBC, "1/4");     (* ¼ *)
    (0xBD, "1/2");     (* ½ *)
    (0xBE, "3/4");     (* ¾ *)
    (0x2153, "1/3");   (* ⅓ *)
    (0x2154, "2/3");   (* ⅔ *)
    (0x2155, "1/5");   (* ⅕ *)
    (0x2156, "2/5");   (* ⅖ *)
    (0x2157, "3/5");   (* ⅗ *)
    (0x2158, "4/5");   (* ⅘ *)
    (0x2159, "1/6");   (* ⅙ *)
    (0x215A, "5/6");   (* ⅚ *)
    (0x215B, "1/8");   (* ⅛ *)
    (0x215C, "3/8");   (* ⅜ *)
    (0x215D, "5/8");   (* ⅝ *)
    (0x215E, "7/8")    (* ⅞ *) ].

(** [fractions[r]] with the comma-ok form. *)
Fixpoint map_lookup (m : list (rune * string)) (r : rune) : option string :=
  match m with
  | [] => None
  | (k, v) :: m' => if k =? r then Some v else map_lookup m' r
  end.

(** A [strings.Builder] is the text written so far. *)
Definition Builder := string.
Definition WriteString (b : Builder) (s : string) : Builder := b ++ s.
Definition WriteRune (b : Builder) (r : rune) : Builder := b ++ EncodeRune r.

Definition ConvertFractions (input : string) : string :=
  fold_left
    (fun output r =>
       match map_lookup fractions r with
       | Some replacement => WriteString output replacement
       | None => WriteRune output r
       end)
    (runes input) (EmptyString : Builder).

(* ===================================================================== *)
(** * Regular expressions *)
(* ===================================================================== *)

(** Package [regexp] on the constructs the program's pattern uses. The
    text is read rune by rune (an ill-formed byte is one [RuneError]);
    the match is the one a backtracking engine finds first. *)
Module Regexp.

Inductive class :=
| ClassLit (c : rune)      (* a literal character *)
| ClassDigit               (* \d : [0-9] *)
| ClassAnyNotNL.           (* .  : any character but \n *)

Definition class_matches (c : class) (r : rune) : bool :=
  match c with
  | ClassLit x => r =? x
  | ClassDigit => (0x30 <=? r) && (r <=? 0x39)
  | ClassAnyNotNL => negb (r =? 0x0A)
  end.

Inductive regex :=
| BeginText                       (* ^ *)
| EndText                         (* $ *)
| One (c : class)
| Plus1 (c : class)               (* c+, greedy *)
| Cat (a b : regex)
| Quest (a : regex)               (* a?, greedy; also (?:a)? *)
| Capture (i : nat) (a : regex).  (* the i-th parenthesis *)

(** Where the matcher stands: the byte offset, the runes still to read
    and the capture registers (the latest write first). *)
Record mstate := {
  pos : nat;
  rest : list token;
  caps : list (nat * (nat * nat))
}.

Definition tok_len (t : token) : nat := String.length (tok_bytes t).

Fixpoint plus_loop {R : Type} (c : class) (ts : list token) (p : nat)
    (k : nat -> list token -> option R) : option R :=
  match ts with
  | [] => None
  | t :: ts' =>
      if class_matches c (tok_rune t) then
        match plus_loop c ts' (p + tok_len t)%nat k with
        | Some r => Some r
        | None => k (p + tok_len t)%nat ts'
        end
      else None
  end.

Fixpoint run {R : Type} (re : regex) (st : mstate)
    (k : mstate -> option R) : option R :=
  match re with
  | BeginText => if (pos st =? 0)%nat then k st else None
  | EndText => match rest st with [] => k st | _ :: _ => None end
  | One c =>
      match rest st with
      | [] => None
      | t :: ts =>
          if class_matches c (tok_rune t)
          then k {| pos := (pos st + tok_len t)%nat; rest := ts;
                    caps := caps st |}
          else None
      end
  | Plus1 c =>
      plus_loop c (rest st) (pos st)
        (fun p ts => k {| pos := p; rest := ts; caps := caps st |})
  | Cat a b => run a st (fun st' => run b st' k)
  | Quest a =>
      match run a st k with
      | Some r => Some r
      | None => k st
      end
  | Capture i a =>
      run a st
        (fun st' => k {| pos := pos st'; rest := rest st';
                         caps := (i, (pos st, pos st')) :: caps st' |})
  end.

(** The leftmost start at which the expression matches. *)
Fixpoint search (re : regex) (p : nat) (ts : list token)
    : option (nat * mstate) :=
  match run re {| pos := p; rest := ts; caps := [] |} Some with
  | Some st => Some (p, st)
  | None =>
      match ts with
      | [] => None
      | t :: ts' => search re (p + tok_len t)%nat ts'
      end
  end.

Fixpoint NumSubexp (re : regex) : nat :=
  match re with
  | Cat a b => Nat.max (NumSubexp a) (NumSubexp b)
  | Quest a => NumSubexp a
  | Capture i a => Nat.max i (NumSubexp a)
  | _ => 0%nat
  end.

Fixpoint cap_lookup (cs : list (nat * (nat * nat))) (i : nat)
    : option (nat * nat) :=
  match cs with
  | [] => None
  | (j, se) :: cs' => if (j =? i)%nat then Some se else cap_lookup cs' i
  end.

(** [s[lo:hi]] *)
Definition substr (s : string) (lo hi : nat) : string :=
  take (hi - lo) (drop lo s).

(** [re.FindStringSubmatch(s)]: [None] is the [nil] slice of "no
    match"; otherwise the whole match and the text of each parenthesis,
    [""] for one that took no part. *)
Definition FindStringSubmatch (re : regex) (s : string)
    : option (list string) :=
  match search re 0 (range s) with
  | None => None
  | Some (start, st) =>
      Some (substr s start (pos st)
            :: map (fun i =>
                      match cap_lookup (caps st) i with
                      | Some (lo, hi) => substr s lo hi
                      | None => ""
                      end)
                   (seq 1 (NumSubexp re)))
  end.

End Regexp.

Declare Scope regex_scope.
Delimit Scope regex_scope with re.
Infix ">>" := Regexp.Cat (at level 61, right associativity) : regex_scope.

(* ===================================================================== *)
(** * Numbers: package strconv *)
(* ===================================================================== *)

Module Strconv.

Definition is_digit (c : Z) : bool := (0x30 <=? c) && (c <=? 0x39).
Definition lower (c : Z) : Z := Z.lor c 0x20.
Definition is_hex_letter (c : Z) : bool :=
  (0x61 <=? lower c) && (lower c <=? 0x66).

(** ** Binary floating point *)

Definition prec32 : Z := 24.
Definition emax32 : Z := 128.
Definition prec64 : Z := 53.
Definition emax64 : Z := 1024.

(** [float64(f)] for a [float32] [f]: exact. *)
Definition to_float64 (f : spec_float) : spec_float :=
  match f with
  | S754_finite s m e => binary_round prec64 emax64 s m e
  | _ => f
  end.

(** [float32(f)] for a [float64] [f]: round to nearest even. *)
Definition to_float32 (f : spec_float) : spec_float :=
  match f with
  | S754_finite s m e => binary_round prec32 emax32 s m e
  | _ => f
  end.

(** The floating-point number nearest to [num / den]. *)
Definition round_ratio (prec emax : Z) (neg : bool) (num den : positive)
    : spec_float :=
  let '(q, e, l) := SFdiv_core_binary prec emax (Zpos num) 0 (Zpos den) 0 in
  binary_round_aux prec emax neg q e l.

(** The floating-point number nearest to [m * 10^e10]. *)
Definition decimal_to_float (prec emax : Z) (neg : bool) (m e10 : Z)
    : spec_float :=
  match m with
  | Zpos p =>
      if 0 <=? e10 then
        binary_round prec emax neg (p * Z.to_pos (10 ^ e10)) 0
      else round_ratio prec emax neg p (Z.to_pos (10 ^ (- e10)))
  | _ => S754_zero neg
  end.

Definition is_infinite (f : spec_float) : bool :=
  match f with S754_infinity _ => true | _ => false end.

(** ** [underscoreOK] *)

Inductive saw := SawNone | SawDigit | SawUnderscore | SawOther.

Fixpoint underscore_scan (hex : bool) (last : saw) (s : string) : bool :=
  match s with
  | EmptyString =>
      match last with SawUnderscore => false | _ => true end
  | String c t =>
      let b := byte_val c in
      if is_digit b || (hex && is_hex_letter b) then
        underscore_scan hex SawDigit t
      else if b =? 0x5F then
        match last with
        | SawDigit => underscore_scan hex SawUnderscore t
        | _ => false
        end
      else
        match last with
        | SawUnderscore => false
        | _ => underscore_scan hex SawOther t
        end
  end.

Definition strip_sign (s : string) : bool * string :=
  match s with
  | String c t =>
      if byte_val c =? 0x2B then (false, t)
      else if byte_val c =? 0x2D then (true, t)
      else (false, s)
  | EmptyString => (false, s)
  end.

Definition underscoreOK (s : string) : bool :=
  let s := snd (strip_sign s) in
  match s with
  | String c0 (String c1 t) =>
      let p := lower (byte_val c1) in
      if (byte_val c0 =? 0x30)
         && ((p =? 0x62) || (p =? 0x6F) || (p =? 0x78))
      then underscore_scan (p =? 0x78) SawDigit t
      else underscore_scan false SawNone s
  | _ => underscore_scan false SawNone s
  end.

(** ** [readFloat] *)

(** The running variables of the digit loop. [mant] holds every digit
    read ([readFloat] keeps 19 of them for its fast paths and the exact
    conversion reads them all again); [nd] counts them. *)
Record digits := {
  mant : Z;
  nd : Z;
  dp : Z;
  sawdot : bool;
  sawdigits : bool;
  underscores : bool
}.

Fixpoint read_digits (hex : bool) (s : string) (d : digits)
    : digits * string :=
  match s with
  | EmptyString => (d, s)
  | String c t =>
      let b := byte_val c in
      if b =? 0x5F then
        read_digits hex t
          {| mant := mant d; nd := nd d; dp := dp d; sawdot := sawdot d;
             sawdigits := sawdigits d; underscores := true |}
      else if b =? 0x2E then
        if sawdot d then (d, s)
        else
          read_digits hex t
            {| mant := mant d; nd := nd d; dp := nd d; sawdot := true;
               sawdigits := sawdigits d; underscores := underscores d |}
      else if is_digit b then
        if (b =? 0x30) && (nd d =? 0) then
          read_digits hex t
            {| mant := mant d; nd := nd d; dp := dp d - 1;
               sawdot := sawdot d; sawdigits := true;
               underscores := underscores d |}
        else
          read_digits hex t
            {| mant := mant d * (if hex then 16 else 10) + (b - 0x30);
               nd := nd d + 1; dp := dp d; sawdot := sawdot d;
               sawdigits := true; underscores := underscores d |}
      else if hex && is_hex_letter b then
        read_digits hex t
          {| mant := mant d * 16 + (lower b - 0x61 + 10);
             nd := nd d + 1; dp := dp d; sawdot := sawdot d;
             sawdigits := true; underscores := underscores d |}
      else (d, s)
  end.

Fixpoint read_exp_digits (s : string) (e : Z) (us : bool)
    : Z * bool * string :=
  match s with
  | EmptyString => (e, us, s)
  | String c t =>
      let b := byte_val c in
      if is_digit b then
        read_exp_digits t (if e <? 10000 then e * 10 + (b - 0x30) else e) us
      else if b =? 0x5F then read_exp_digits t e true
      else (e, us, s)
  end.

(** What [readFloat] returns when [ok]: the sign, the base, the
    mantissa, the exponent of the base (10, or 2 for a hexadecimal
    mantissa) and what is left of the string. *)
Record parsed := {
  p_neg : bool;
  p_hex : bool;
  p_mant : Z;
  p_exp : Z;
  p_rest : string
}.

Definition readFloat (s : string) : option parsed :=
  match s with
  | EmptyString => None
  | String _ _ =>
      let '(neg, s1) := strip_sign s in
      let hex :=
        (2 <? String.length s1)%nat && (at_ s1 0 =? 0x30)
        && (lower (at_ s1 1) =? 0x78) in
      let s2 := if hex then drop 2 s1 else s1 in
      let '(d, s3) :=
        read_digits hex s2
          {| mant := 0; nd := 0; dp := 0; sawdot := false;
             sawdigits := false; underscores := false |} in
      if negb (sawdigits d) then None
      else
        let dp0 := if sawdot d then dp d else nd d in
        let dp1 := if hex then dp0 * 4 else dp0 in
        let ndm := if hex then nd d * 4 else nd d in
        let expChar := if hex then 0x70 else 0x65 in
        let finish (dp2 : Z) (us : bool) (rest : string) :=
          let consumed :=
            take (String.length s - String.length rest) s in
          if us && negb (underscoreOK consumed) then None
          else Some {| p_neg := neg; p_hex := hex; p_mant := mant d;
                       p_exp := if mant d =? 0 then 0 else dp2 - ndm;
                       p_rest := rest |} in
        match s3 with
        | String c t =>
            if lower (byte_val c) =? expChar then
              match t with
              | EmptyString => None
              | String _ _ =>
                  let '(eneg, s4) := strip_sign t in
                  match s4 with
                  | EmptyString => None
                  | String c4 _ =>
                      if negb (is_digit (byte_val c4)) then None
                      else
                        let '(e, us, s5) :=
                          read_exp_digits s4 0 (underscores d) in
                        finish (dp1 + (if eneg then - e else e)) us s5
                  end
              end
            else if hex then None
            else finish dp1 (underscores d) s3
        | EmptyString =>
            if hex then None else finish dp1 (underscores d) s3
        end
  end.

(** ** [special]: the spellings of infinity and NaN *)

Definition lower_AZ (c : ascii) : ascii :=
  let b := byte_val c in
  if (0x41 <=? b) && (b <=? 0x5A) then byte_of (b + 0x20) else c.

Fixpoint lower_string (s : string) : string :=
  match s with
  | EmptyString => EmptyString
  | String c t => String (lower_AZ c) (lower_string t)
  end.

(** [special], for a string read to its end: the value when the whole
    of [s] is one of the spellings. *)
Definition special (s : string) : option spec_float :=
  let l := lower_string s in
  if (l =? "nan")%string then Some S754_nan
  else
    let '(neg, body) := strip_sign l in
    if ((body =? "inf") || (body =? "infinity"))%string
    then Some (S754_infinity neg)
    else None.

Definition fnParseFloat : string := "ParseFloat".

(** [strconv.ParseFloat(s, 32)]: the [float32] nearest to the number
    written in [s], as a [float64]; a syntax error when [s] is not
    wholly a number, a range error when the number is too large. *)
Definition ParseFloat32 (s : string) : result spec_float :=
  match special s with
  | Some f => Ok f
  | None =>
      match readFloat s with
      | None => Err (NumError fnParseFloat s false)
      | Some p =>
          match p_rest p with
          | String _ _ => Err (NumError fnParseFloat s false)
          | EmptyString =>
              let f :=
                if p_hex p then
                  binary_normalize prec32 emax32
                    (if p_neg p then - p_mant p else p_mant p)
                    (p_exp p) (p_neg p)
                else
                  decimal_to_float prec32 emax32 (p_neg p)
                    (p_mant p) (p_exp p) in
              if is_infinite f then Err (NumError fnParseFloat s true)
              else Ok (to_float64 f)
          end
      end
  end.

(** ** Writing numbers *)

(** The decimal digits of [v > 0] put before [acc], as [formatBits]
    and [fmtInt] fill their buffer from the right. *)
Fixpoint put_digits (fuel : nat) (v : Z) (acc : string) : string :=
  match fuel with
  | O => acc
  | S fuel' =>
      if v <=? 0 then acc
      else put_digits fuel' (v / 10) (String (byte_of (v mod 10 + 0x30)) acc)
  end.

Definition digits_of (v : Z) (acc : string) : string :=
  if v <=? 0 then String "0"%char acc
  else put_digits (S (Z.to_nat (Z.log2 v))) v acc.

(** [strconv.Itoa], which is what [%d] prints for an [int]. *)
Definition Itoa (v : Z) : string :=
  if v <? 0 then String "-"%char (digits_of (- v) "") else digits_of v "".

(** The [n] low decimal digits of [v] put before [acc], trailing zeros
    left out: [print] becomes true at the first digit that is not 0. *)
Fixpoint put_frac (n : nat) (v : Z) (print : bool) (acc : string)
    : string * bool * Z :=
  match n with
  | O => (acc, print, v)
  | S n' =>
      let digit := v mod 10 in
      let print := print || negb (digit =? 0) in
      put_frac n' (v / 10) print
        (if print then String (byte_of (digit + 0x30)) acc else acc)
  end.

(** [roundShortest]: the digits of the shortest decimal that reads
    back as the same [float32]. The float is [X / 10^j], the real
    numbers that round to it lie between [L / 10^j] and [U / 10^j]
    (the bounds belong to them when [inclusive]). At each decimal
    position, from the first digit of [U] on, the float is cut there
    ([down]) or cut and incremented ([up]); the first position where
    one of the two lies within the bounds gives the result. *)
Fixpoint shortest_loop (fuel : nat) (q : Z) (L X U : Z) (inclusive : bool)
    : Z :=
  match fuel with
  | O => X
  | S fuel' =>
      if q <? 0 then X
      else
        let pw := 10 ^ q in
        let down := (X / pw) * pw in
        let up := down + pw in
        let okdown := (L <? down) || (inclusive && (L =? down)) in
        let okup := (up <? U) || (inclusive && (up =? U)) in
        if okdown && okup then
          (* decimal.Round: to the nearest, a tie to the even digit *)
          let rem2 := 2 * (X mod pw) in
          if rem2 <? pw then down
          else if pw <? rem2 then up
          else if Z.odd (X / pw) then up else down
        else if okdown then down
        else if okup then up
        else shortest_loop fuel' (q - 1) L X U inclusive
  end.

(** Number of decimal digits of [v > 0]. *)
Definition ndigits (v : Z) : nat := String.length (digits_of v "").

(** The shortest digits of the [float32] [m * 2^e], as [(R, j)] with
    value [R / 10^j]. *)
Definition shortest32 (m : positive) (e : Z) : Z * Z :=
  let j := Z.max 0 (2 - e) in
  let scale (n : Z) (k : Z) := n * 2 ^ (e + j - k) * 5 ^ j in
  let X := scale (Zpos m) 0 in
  let U := scale (2 * Zpos m + 1) 1 in
  let L :=
    if (Zpos m =? 2 ^ (prec32 - 1)) && negb (e =? emin prec32 emax32)
    then scale (4 * Zpos m - 1) 2
    else scale (2 * Zpos m - 1) 1 in
  let n := ndigits U in
  (shortest_loop (S n) (Z.of_nat n - 1) L X U (Z.even (Zpos m)), j).

(** [%f] with the shortest precision: the integer part, then the
    fraction digits that are needed and no more. *)
Definition fmtF (R j : Z) : string :=
  let '(frac, print, int_part) := put_frac (Z.to_nat j) R false "" in
  digits_of int_part (if print then String "."%char frac else frac).

(** [strconv.FormatFloat(f, 'f', -1, 32)] *)
Definition FormatFloat32_f (f : spec_float) : string :=
  match to_float32 f with
  | S754_nan => "NaN"
  | S754_infinity s => if s then "-Inf" else "+Inf"
  | S754_zero s => if s then "-0" else "0"
  | S754_finite s m e =>
      let '(R, j) := shortest32 m e in
      ((if s then "-" else "") ++ fmtF R j)%string
  end.

(** ** [strconv.Atoi], for a 64-bit [int] *)

Fixpoint parse_digits (s : string) (n : Z) : option Z :=
  match s with
  | EmptyString => Some n
  | String c t =>
      let b := byte_val c in
      if is_digit b then parse_digits t (n * 10 + (b - 0x30)) else None
  end.

Definition fnAtoi : string := "Atoi".

Definition Atoi (s : string) : result Z :=
  let '(neg, body) := strip_sign s in
  match body with
  | EmptyString => Err (NumError fnAtoi s false)
  | String _ _ =>
      match parse_digits body 0 with
      | None => Err (NumError fnAtoi s false)
      | Some n =>
          let v := if neg then - n else n in
          if (- 2 ^ 63 <=? v) && (v <? 2 ^ 63) then Ok v
          else Err (NumError fnAtoi s true)
      end
  end.

End Strconv.

(* ===================================================================== *)
(** * Durations: package time *)
(* ===================================================================== *)

Module Time.

(** [time.Duration]: a count of nanoseconds in an [int64]. *)
Definition Duration := Z.

Definition Nanosecond : Duration := 1.
Definition Microsecond : Duration := 1000 * Nanosecond.
Definition Millisecond : Duration := 1000 * Microsecond.
Definition Second : Duration := 1000 * Millisecond.
Definition Minute : Duration := 60 * Second.
Definition Hour : Duration := 60 * Minute.

Definition unitMap (u : string) : option Z :=
  if (u =? "ns")%string then Some Nanosecond
  else if (u =? "us")%string then Some Microsecond
  else if (u =? "µs")%string then Some Microsecond  (* U+00B5 *)
  else if (u =? "μs")%string then Some Microsecond  (* U+03BC *)
  else if (u =? "ms")%string then Some Millisecond
  else if (u =? "s")%string then Some Second
  else if (u =? "m")%string then Some Minute
  else if (u =? "h")%string then Some Hour
  else None.

Definition invalid_duration (orig : string) : error :=
  durationError "time: invalid duration " orig.

(** [leadingInt]; [None] is [errLeadingInt]. *)
Fixpoint leadingInt (s : string) (x : Z) : option (Z * string) :=
  match s with
  | EmptyString => Some (x, s)
  | String c t =>
      let b := byte_val c in
      if Strconv.is_digit b then
        if 2 ^ 63 / 10 <? x then None
        else
          let x := x * 10 + (b - 0x30) in
          if 2 ^ 63 <? x then None else leadingInt t x
      else Some (x, s)
  end.

Definition float64_of_Z (z : Z) : spec_float :=
  binary_normalize Strconv.prec64 Strconv.emax64 z 0 false.

Definition fmul := SFmul Strconv.prec64 Strconv.emax64.
Definition fdiv := SFdiv Strconv.prec64 Strconv.emax64.
Definition fadd := SFadd Strconv.prec64 Strconv.emax64.

(** [leadingFraction] *)
Fixpoint leadingFraction (s : string) (x : Z) (scale : spec_float)
    (overflow : bool) : Z * spec_float * string :=
  match s with
  | EmptyString => (x, scale, s)
  | String c t =>
      let b := byte_val c in
      if Strconv.is_digit b then
        if overflow then leadingFraction t x scale overflow
        else if (2 ^ 63 - 1) / 10 <? x then leadingFraction t x scale true
        else
          let y := x * 10 + (b - 0x30) in
          if 2 ^ 63 <? y then leadingFraction t x scale true
          else leadingFraction t y (fmul scale (float64_of_Z 10)) false
      else (x, scale, s)
  end.

(** The unit: the bytes up to the next [.] or digit. *)
Fixpoint split_unit (s : string) : string * string :=
  match s with
  | EmptyString => (EmptyString, s)
  | String c t =>
      let b := byte_val c in
      if (b =? 0x2E) || Strconv.is_digit b then (EmptyString, s)
      else let '(u, rest) := split_unit t in (String c u, rest)
  end.

(** [uint64(f)] for a float that is not negative: the integer part. *)
Definition uint64_of_float (f : spec_float) : Z :=
  match f with
  | S754_finite false m e =>
      if 0 <=? e then Zpos m * 2 ^ e else Zpos m / 2 ^ (- e)
  | _ => 0
  end.

(** The loop [for s != ""] of [time.ParseDuration]; [d] is the sum so
    far, a [uint64]. Every round reads at least the unit. *)
Fixpoint parse_terms (fuel : nat) (orig s : string) (d : Z) : result Z :=
  match fuel with
  | O => Ok d
  | S fuel' =>
      match s with
      | EmptyString => Ok d
      | String c0 _ =>
          if negb ((byte_val c0 =? 0x2E) || Strconv.is_digit (byte_val c0))
          then Err (invalid_duration orig)
          else
            match leadingInt s 0 with
            | None => Err (invalid_duration orig)
            | Some (v, s1) =>
                let pre := negb (String.length s =? String.length s1)%nat in
                let '(f, scale, s2, post) :=
                  match s1 with
                  | String c1 t1 =>
                      if byte_val c1 =? 0x2E then
                        let '(f, scale, s2) :=
                          leadingFraction t1 0 (float64_of_Z 1) false in
                        (f, scale, s2,
                         negb (String.length t1 =? String.length s2)%nat)
                      else (0, float64_of_Z 1, s1, false)
                  | EmptyString => (0, float64_of_Z 1, s1, false)
                  end in
                if negb pre && negb post then Err (invalid_duration orig)
                else
                  let '(u, s3) := split_unit s2 in
                  match u with
                  | EmptyString =>
                      Err (durationError
                             "time: missing unit in duration " orig)
                  | String _ _ =>
                      match unitMap u with
                      | None =>
                          Err (durationError
                                 ("time: unknown unit " ++ u
                                  ++ " in duration ") orig)
                      | Some unit =>
                          if 2 ^ 63 / unit <? v
                          then Err (invalid_duration orig)
                          else
                            let v := v * unit in
                            let v :=
                              if 0 <? f then
                                v + uint64_of_float
                                      (fmul (float64_of_Z f)
                                         (fdiv (float64_of_Z unit) scale))
                              else v in
                            if 2 ^ 63 <? v then Err (invalid_duration orig)
                            else
                              let d := (d + v) mod 2 ^ 64 in
                              if 2 ^ 63 <? d
                              then Err (invalid_duration orig)
                              else parse_terms fuel' orig s3 d
                      end
                  end
            end
      end
  end.

(** [time.ParseDuration] *)
Definition ParseDuration (orig : string) : result Duration :=
  let '(neg, s) := Strconv.strip_sign orig in
  if (s =? "0")%string then Ok 0
  else
    match s with
    | EmptyString => Err (invalid_duration orig)
    | String _ _ =>
        match parse_terms (String.length s) orig s 0 with
        | Err e => Err e
        | Ok d =>
            if neg then Ok (if d =? 2 ^ 63 then - 2 ^ 63 else - d)
            else if 2 ^ 63 - 1 <? d then Err (invalid_duration orig)
            else Ok d
        end
    end.

(** [fmtFrac]: the fraction [v / 10^prec] put before [acc], trailing
    zeros and a needless point left out; also returns [v / 10^prec]. *)
Definition fmtFrac (acc : string) (v : Z) (prec : nat) : string * Z :=
  let '(acc, print, v) := Strconv.put_frac prec v false acc in
  (if print then String "."%char acc else acc, v).

Definition fmtInt (acc : string) (v : Z) : string :=
  Strconv.digits_of v acc.

(** [Duration.String], which is what [%s] prints for a duration. *)
Definition String_ (d : Duration) : string :=
  let neg := d <? 0 in
  let u := if neg then - d else d in
  let sign (w : string) := if neg then String "-"%char w else w in
  if u <? Second then
    if u =? 0 then "0s"
    else if u <? Microsecond then
      let '(w, u) := fmtFrac "ns" u 0 in sign (fmtInt w u)
    else if u <? Millisecond then
      let '(w, u) := fmtFrac "µs" u 3 in sign (fmtInt w u)
    else
      let '(w, u) := fmtFrac "ms" u 6 in sign (fmtInt w u)
  else
    let '(w, u) := fmtFrac "s" u 9 in
    let w := fmtInt w (u mod 60) in
    let u := u / 60 in
    if 0 <? u then
      let w := fmtInt (String "m"%char w) (u mod 60) in
      let u := u / 60 in
      if 0 <? u then sign (fmtInt (String "h"%char w) u)
      else sign w
    else sign w.

End Time.

(* ===================================================================== *)
(** * The parsed document: html.Node and goquery *)
(* ===================================================================== *)

Set Warnings "-register-all".

Module Html.

(** A node of the parsed document, as [golang.org/x/net/html] builds
    it below an element: text, comment or element with its attributes
    (key and value, in source order) and children. *)
Inductive Node :=
| TextNode (data : string)
| CommentNode (data : string)
| ElementNode (tag : string) (attr : list (string * string))
    (children : list Node).

Definition children_of (n : Node) : list Node :=
  match n with
  | ElementNode _ _ cs => cs
  | _ => []
  end.

Definition is_element (n : Node) : bool :=
  match n with
  | ElementNode _ _ _ => true
  | _ => false
  end.

End Html.
Import Html.

(** Go slices: [None] is the [nil] slice. *)
Module Slice.

Definition slice (A : Type) := option (list A).

Definition elems {A} (s : slice A) : list A :=
  match s with
  | Some l => l
  | None => []
  end.

(** [make([]T, 0)] *)
Definition make0 {A} : slice A := Some [].
(** [append(s, x)] *)
Definition append {A} (s : slice A) (x : A) : slice A :=
  Some (elems s ++ [x])%list.
Definition len {A} (s : slice A) : nat := List.length (elems s).
Definition is_nil {A} (s : slice A) : bool :=
  match s with
  | None => true
  | Some _ => false
  end.

End Slice.
Import Slice.

Module Goquery.

(** A [*goquery.Selection]: its nodes, in document order. *)
Definition Selection := list Node.

(** A compiled selector. *)
Definition Matcher := Node -> bool.

(** [tag], a type selector. *)
Definition match_tag (tag : string) : Matcher :=
  fun n =>
    match n with
    | ElementNode t _ _ => (t =? tag)%string
    | _ => false
    end.

(** [[key="val"]]: some attribute has this key and this value. *)
Definition match_attr_eq (key val : string) : Matcher :=
  fun n =>
    match n with
    | ElementNode _ attr _ =>
        existsb (fun kv => (fst kv =? key)%string && (snd kv =? val)%string)
                attr
    | _ => false
    end.

(** The words of a [class] attribute: cut at each of
    [" \t\r\n\f"]. [cur] is the word being read, reversed. *)
Fixpoint class_words (s : string) (cur : string) : list string :=
  match s with
  | EmptyString => [rev cur]
  | String c t =>
      let b := byte_val c in
      if (b =? 0x20) || (b =? 0x09) || (b =? 0x0D) || (b =? 0x0A)
         || (b =? 0x0C)
      then rev cur :: class_words t EmptyString
      else class_words t (String c cur)
  end.

(** [.class], for a class name that is not empty. *)
Definition match_class (class : string) : Matcher :=
  fun n =>
    match n with
    | ElementNode _ attr _ =>
        existsb (fun kv =>
                   (fst kv =? "class")%string
                   && existsb (String.eqb class)
                              (class_words (snd kv) EmptyString))
                attr
    | _ => false
    end.

Definition match_and (a b : Matcher) : Matcher :=
  fun n => a n && b n.

(** [Selector.MatchAll]: the node itself, then its descendants, in
    document order. *)
Fixpoint MatchAll (m : Matcher) (n : Node) : list Node :=
  ((if m n then [n] else [])
   ++ match n with
      | ElementNode _ _ cs => flat_map (MatchAll m) cs
      | _ => []
      end)%list.

(** [Find] from one node: what matches among its descendants. *)
Definition Find (root : Node) (m : Matcher) : Selection :=
  flat_map (fun c => if is_element c then MatchAll m c else [])
           (children_of root).

(** [getAttributeValue]: the first attribute of that name. *)
Fixpoint get_attr (attr : list (string * string)) (name : string)
    : option string :=
  match attr with
  | [] => None
  | (k, v) :: rest => if (k =? name)%string then Some v else get_attr rest name
  end.

(** [Selection.AttrOr]: the attribute of the first node. *)
Definition AttrOr (s : Selection) (attrName defaultValue : string)
    : string :=
  match s with
  | [] => defaultValue
  | n :: _ =>
      match n with
      | ElementNode _ attr _ =>
          match get_attr attr attrName with
          | Some v => v
          | None => defaultValue
          end
      | _ => defaultValue
      end
  end.

(** The text below a node, text node after text node. *)
Fixpoint node_text (n : Node) : string :=
  match n with
  | TextNode data => data
  | CommentNode _ => ""
  | ElementNode _ _ cs =>
      fold_right (fun c acc => (node_text c ++ acc)%string) "" cs
  end.

(** [Selection.Text]: the text of every node of the selection. *)
Definition Text (s : Selection) : string :=
  fold_right (fun n acc => (node_text n ++ acc)%string) "" s.

(** [Selection.Children]: the element children of every node. *)
Definition Children (s : Selection) : Selection :=
  flat_map (fun n => filter is_element (children_of n)) s.

(** [Selection.Each(f)] where [f] updates a variable of the enclosing
    function: the variable is threaded through the calls. The callback
    receives the selection of one node. *)
Definition Each {St : Type} (s : Selection) (f : St -> Selection -> St)
    (init : St) : St :=
  fold_left (fun st n => f st [n]) s init.

(** [Selection.Is(selector)] on the selection of one node or more:
    some node matches. *)
Definition Is (s : Selection) (m : Matcher) : bool := existsb m s.

End Goquery.
Import Goquery.

(* ===================================================================== *)
(** * main.go *)
(* ===================================================================== *)

(** [type RecipeNode struct { *goquery.Selection }]. The program builds
    a [RecipeNode] from the selection [Each] hands to its callback, which
    holds one node: the [div.recipe-details] of one recipe. *)
Record RecipeNode := { root : Node }.

(** The selector the program builds around [elemName] and [propName]:
    the element name (any element when it is empty) with an [itemprop]
    attribute equal to the property name. The names the program passes
    are an element name or the empty string, and a property name made of
    letters. *)
Definition itemprop_selector (elemName propName : string) : Matcher :=
  if (elemName =? "")%string
  then match_attr_eq "itemprop" propName
  else match_and (match_tag elemName) (match_attr_eq "itemprop" propName).

Definition ItemProp (s : RecipeNode) (elemName propName : string)
    : Selection :=
  Find (root s) (itemprop_selector elemName propName).

Definition ItemPropAttrOr (s : RecipeNode)
    (elemName propName attr defaultValue : string) : string :=
  AttrOr (ItemProp s elemName propName) attr defaultValue.

Definition ItemPropElemText (s : RecipeNode) (propName : string) : string :=
  Text (ItemProp s "" propName).

Definition ItemPropContentOr (s : RecipeNode) (propName defaultValue : string)
    : string :=
  ItemPropAttrOr s "meta" propName "content" defaultValue.

Definition ItemPropContentList (s : RecipeNode) (propName : string)
    : slice string :=
  let contents := make0 in
  Each (ItemProp s "meta" propName)
    (fun contents meta =>
       let content := AttrOr meta "content" "" in
       if negb (content =? "")%string then append contents content
       else contents)
    contents.

Definition ItemPropChildrenText (s : RecipeNode) (propName : string)
    : slice string :=
  let stringList := make0 in
  Each (Children (ItemProp s "" propName))
    (fun stringList par =>
       let partext := ConvertFractions (Strings.TrimSpace (Text par)) in
       if negb (partext =? "")%string then append stringList partext
       else stringList)
    stringList.

Definition ExtractRecipeCourses (s : RecipeNode) : slice string :=
  let courses := make0 in
  Each (ItemProp s "" "recipeCourse")
    (fun courses elem =>
       (* Courses can be split between a text node *and* attribute for
          extra courses *)
       if Is elem (match_tag "span") then
         let course := Text elem in
         if negb (course =? "")%string then append courses course
         else courses
       else if Is elem (match_tag "meta") then
         let course := AttrOr elem "content" "" in
         if negb (course =? "")%string then append courses course
         else courses
       else courses)
    courses.

Definition ExtractRecipePhotos (s : RecipeNode) : slice string :=
  let photos := make0 in
  Each (Find (root s) (match_and (match_tag "img") (match_class "recipe-photos")))
    (fun photos img =>
       let img_src := AttrOr img "src" "" in
       if negb (img_src =? "")%string then append photos img_src
       else photos)
    photos.

(** ** The duration parser *)

Import Regexp.

(** [^P(?:(\d+)Y)?(?:(\d+)M)?(?:(\d+)D)?T(?:(\d+)H)?(?:(\d+)M)?(?:(\d+(?:.\d+)?)S)?$] *)
Definition isoDurationRe : regex :=
  (BeginText >> One (ClassLit 0x50)                                (* P *)
   >> Quest (Capture 1 (Plus1 ClassDigit) >> One (ClassLit 0x59))  (* Y *)
   >> Quest (Capture 2 (Plus1 ClassDigit) >> One (ClassLit 0x4D))  (* M *)
   >> Quest (Capture 3 (Plus1 ClassDigit) >> One (ClassLit 0x44))  (* D *)
   >> One (ClassLit 0x54)                                          (* T *)
   >> Quest (Capture 4 (Plus1 ClassDigit) >> One (ClassLit 0x48))  (* H *)
   >> Quest (Capture 5 (Plus1 ClassDigit) >> One (ClassLit 0x4D))  (* M *)
   >> Quest (Capture 6 (Plus1 ClassDigit
                        >> Quest (One ClassAnyNotNL >> Plus1 ClassDigit))
             >> One (ClassLit 0x53))                               (* S *)
   >> EndText)%re.

(** [matches[i]]; the slice [FindStringSubmatch] returns has one entry
    per parenthesis and one for the whole match, so the program's
    indices 3 to 6 are within it. *)
Definition index (matches : list string) (i : nat) : string :=
  nth i matches "".

Definition bind {A B} (r : result A) (k : A -> result B) : result B :=
  match r with
  | Ok a => k a
  | Err e => Err e
  end.

Notation "x <- r ;; k" := (bind r (fun x => k))
  (at level 61, r at next level, right associativity).

(** [float64] product and sum, each rounded on its own (no fused
    multiply-add, as on amd64). *)
Notation "a *! b" := (Time.fmul a b) (at level 40, left associativity).
Notation "a +! b" := (Time.fadd a b) (at level 50, left associativity).

(** An untyped integer constant used as a [float64]. *)
Definition fconst (z : Z) : spec_float := Time.float64_of_Z z.

(** [ParseISODuration]: each [return 0, err] is an [Err], which [bind]
    passes on. *)
Definition ParseISODuration (isoDuration : string) : result Time.Duration :=
  match FindStringSubmatch isoDurationRe isoDuration with
  | None => Err (errorString "input string is of incorrect format")
  | Some matches =>
      let seconds := S754_zero false in
      (* skipping years and months *)
      (* days *)
      seconds <-
        (if negb (index matches 3 =? "")%string then
           f <- Strconv.ParseFloat32 (index matches 3) ;;
           Ok (seconds +! (f *! fconst 24 *! fconst 60 *! fconst 60))
         else Ok seconds) ;;
      (* hours *)
      seconds <-
        (if negb (index matches 4 =? "")%string then
           f <- Strconv.ParseFloat32 (index matches 4) ;;
           Ok (seconds +! (f *! fconst 60 *! fconst 60))
         else Ok seconds) ;;
      (* minutes *)
      seconds <-
        (if negb (index matches 5 =? "")%string then
           f <- Strconv.ParseFloat32 (index matches 5) ;;
           Ok (seconds +! (f *! fconst 60))
         else Ok seconds) ;;
      (* seconds & milliseconds *)
      seconds <-
        (if negb (index matches 6 =? "")%string then
           f <- Strconv.ParseFloat32 (index matches 6) ;;
           Ok (seconds +! f)
         else Ok seconds) ;;
      let goDuration := (Strconv.FormatFloat32_f seconds ++ "s")%string in
      Time.ParseDuration goDuration
  end.

(** ** The recipe *)

Record RecipeNutrition := {
  Serving : string;
  Calories : string;
  TotalFat : string;
  SaturatedFat : string;
  Sodium : string;
  TotalCarbohydrate : string;
  DietaryFiber : string;
  Sugars : string;
  Protein : string
}.

Record RecipeMetadata := {
  UUID : string;
  Favorited : bool;
  Rating : Z;
  Source : string;
  CategoryList : slice string;
  CourseList : slice string;
  CollectionList : slice string;
  Yield : string;
  CookTime : Time.Duration;
  PrepTime : Time.Duration
}.

Record Recipe := {
  Title : string;
  Nutrition : RecipeNutrition;
  Metadata : RecipeMetadata;
  PhotoPaths : slice string;
  IngredientLines : slice string;
  InstructionLines : slice string;
  NotesLines : slice string
}.

(** The zero values [RecipeNutrition{}], [RecipeMetadata{}], [Recipe{}]. *)
Definition zero_RecipeNutrition : RecipeNutrition :=
  {| Serving := ""; Calories := ""; TotalFat := ""; SaturatedFat := "";
     Sodium := ""; TotalCarbohydrate := ""; DietaryFiber := "";
     Sugars := ""; Protein := "" |}.

Definition zero_RecipeMetadata : RecipeMetadata :=
  {| UUID := ""; Favorited := false; Rating := 0; Source := "";
     CategoryList := None; CourseList := None; CollectionList := None;
     Yield := ""; CookTime := 0; PrepTime := 0 |}.

Definition zero_Recipe : Recipe :=
  {| Title := ""; Nutrition := zero_RecipeNutrition;
     Metadata := zero_RecipeMetadata; PhotoPaths := None;
     IngredientLines := None; InstructionLines := None;
     NotesLines := None |}.

(** Assignments to the fields of [metadata]. *)
Definition set_UUID (m : RecipeMetadata) (v : string) : RecipeMetadata :=
  {| UUID := v; Favorited := Favorited m; Rating := Rating m;
     Source := Source m; CategoryList := CategoryList m;
     CourseList := CourseList m; CollectionList := CollectionList m;
     Yield := Yield m; CookTime := CookTime m; PrepTime := PrepTime m |}.
Definition set_Favorited (m : RecipeMetadata) (v : bool) : RecipeMetadata :=
  {| UUID := UUID m; Favorited := v; Rating := Rating m;
     Source := Source m; CategoryList := CategoryList m;
     CourseList := CourseList m; CollectionList := CollectionList m;
     Yield := Yield m; CookTime := CookTime m; PrepTime := PrepTime m |}.
Definition set_Rating (m : RecipeMetadata) (v : Z) : RecipeMetadata :=
  {| UUID := UUID m; Favorited := Favorited m; Rating := v;
     Source := Source m; CategoryList := CategoryList m;
     CourseList := CourseList m; CollectionList := CollectionList m;
     Yield := Yield m; CookTime := CookTime m; PrepTime := PrepTime m |}.
Definition set_Source (m : RecipeMetadata) (v : string) : RecipeMetadata :=
  {| UUID := UUID m; Favorited := Favorited m; Rating := Rating m;
     Source := v; CategoryList := CategoryList m;
     CourseList := CourseList m; CollectionList := CollectionList m;
     Yield := Yield m; CookTime := CookTime m; PrepTime := PrepTime m |}.
Definition set_CategoryList (m : RecipeMetadata) (v : slice string)
    : RecipeMetadata :=
  {| UUID := UUID m; Favorited := Favorited m; Rating := Rating m;
     Source := Source m; CategoryList := v;
     CourseList := CourseList m; CollectionList := CollectionList m;
     Yield := Yield m; CookTime := CookTime m; PrepTime := PrepTime m |}.
Definition set_CollectionList (m : RecipeMetadata) (v : slice string)
    : RecipeMetadata :=
  {| UUID := UUID m; Favorited := Favorited m; Rating := Rating m;
     Source := Source m; CategoryList := CategoryList m;
     CourseList := CourseList m; CollectionList := v;
     Yield := Yield m; CookTime := CookTime m; PrepTime := PrepTime m |}.
Definition set_CourseList (m : RecipeMetadata) (v : slice string)
    : RecipeMetadata :=
  {| UUID := UUID m; Favorited := Favorited m; Rating := Rating m;
     Source := Source m; CategoryList := CategoryList m;
     CourseList := v; CollectionList := CollectionList m;
     Yield := Yield m; CookTime := CookTime m; PrepTime := PrepTime m |}.
Definition set_Yield (m : RecipeMetadata) (v : string) : RecipeMetadata :=
  {| UUID := UUID m; Favorited := Favorited m; Rating := Rating m;
     Source := Source m; CategoryList := CategoryList m;
     CourseList := CourseList m; CollectionList := CollectionList m;
     Yield := v; CookTime := CookTime m; PrepTime := PrepTime m |}.
Definition set_CookTime (m : RecipeMetadata) (v : Time.Duration)
    : RecipeMetadata :=
  {| UUID := UUID m; Favorited := Favorited m; Rating := Rating m;
     Source := Source m; CategoryList := CategoryList m;
     CourseList := CourseList m; CollectionList := CollectionList m;
     Yield := Yield m; CookTime := v; PrepTime := PrepTime m |}.
Definition set_PrepTime (m : RecipeMetadata) (v : Time.Duration)
    : RecipeMetadata :=
  {| UUID := UUID m; Favorited := Favorited m; Rating := Rating m;
     Source := Source m; CategoryList := CategoryList m;
     CourseList := CourseList m; CollectionList := CollectionList m;
     Yield := Yield m; CookTime := CookTime m; PrepTime := v |}.

Definition ExtractRecipeMetadata (s : RecipeNode) : RecipeMetadata :=
  let metadata := zero_RecipeMetadata in
  let metadata := set_UUID metadata (ItemPropContentOr s "recipeId" "") in
  let metadata :=
    set_Favorited metadata
      (ItemPropContentOr s "recipeIsFavourite" "False" =? "True")%string in
  let metadata :=
    match Strconv.Atoi (ItemPropContentOr s "recipeRating" "0") with
    | Ok rating => set_Rating metadata rating
    | Err _ => metadata
    end in
  let metadata := set_Source metadata (ItemPropElemText s "recipeSource") in
  let metadata :=
    set_CategoryList metadata (ItemPropContentList s "recipeCategory") in
  let metadata :=
    set_CollectionList metadata (ItemPropContentList s "recipeCollection") in
  let metadata := set_CourseList metadata (ExtractRecipeCourses s) in
  let metadata := set_Yield metadata (ItemPropElemText s "recipeYield") in
  let metadata :=
    match ParseISODuration
            (Strings.TrimSpace (ItemPropContentOr s "prepTime" "PT50S")) with
    | Ok prepDuration => set_PrepTime metadata prepDuration
    | Err _ => metadata
    end in
  let metadata :=
    match ParseISODuration (ItemPropContentOr s "cookTime" "PT0S") with
    | Ok cookDuration => set_CookTime metadata cookDuration
    | Err _ => metadata
    end in
  metadata.

Definition ExtractRecipeNutrition (s : RecipeNode) : RecipeNutrition :=
  {| Serving := ItemPropContentOr s "recipeNutServingSize" "";
     Calories := ItemPropContentOr s "recipeNutCalories" "";
     TotalFat := ItemPropContentOr s "recipeNutTotalFat" "";
     SaturatedFat := ItemPropContentOr s "recipeNutSaturatedFat" "";
     Sodium := ItemPropContentOr s "recipeNutSodium" "";
     TotalCarbohydrate := ItemPropContentOr s "recipeNutTotalCarbohydrate" "";
     DietaryFiber := ItemPropContentOr s "recipeNutDietaryFiber" "";
     Sugars := ItemPropContentOr s "recipeNutSugars" "";
     Protein := ItemPropContentOr s "recipeNutProtein" "" |}.

(** [ExtractRecipe] assigns every field of [recipe] but [Nutrition],
    which keeps its zero value. *)
Definition ExtractRecipe (s : RecipeNode) : Recipe :=
  {| Title := ItemPropElemText s "name";
     Nutrition := Nutrition zero_Recipe;
     Metadata := ExtractRecipeMetadata s;
     PhotoPaths := ExtractRecipePhotos s;
     IngredientLines := ItemPropChildrenText s "recipeIngredients";
     InstructionLines := ItemPropChildrenText s "recipeDirections";
     NotesLines := ItemPropChildrenText s "recipeNotes" |}.

(** ** The renderer *)

(** [for _, x := range xs { output.WriteString(f(x)) }] *)
Definition write_each (output : Builder) (xs : slice string)
    (f : string -> string) : Builder :=
  fold_left (fun output x => WriteString output (f x)) (elems xs) output.

Definition FormatAsRecipeMD (r : Recipe) : string :=
  let nl := String (byte_of 10) "" in
  let output : Builder := "" in
  let output := WriteString output ("# " ++ Title r ++ nl) in

  let output := WriteString output nl in
  let output :=
    if negb (Rating (Metadata r) =? 0) then
      WriteString output
        ("Rating: " ++ Strconv.Itoa (Rating (Metadata r)) ++ "-star" ++ nl)
    else output in
  let output :=
    if (0 <? len (CollectionList (Metadata r)))%nat then
      WriteString output
        ("Collections: "
         ++ Strings.Join (elems (CollectionList (Metadata r))) ", " ++ nl)
    else output in
  let output :=
    if (0 <? len (CourseList (Metadata r)))%nat then
      WriteString output
        ("Course: "
         ++ Strings.Join (elems (CourseList (Metadata r))) ", " ++ nl)
    else output in

  let output := WriteString output nl in
  let output :=
    if negb (Source (Metadata r) =? "")%string then
      WriteString output ("Source: " ++ Source (Metadata r) ++ nl)
    else output in

  let output := WriteString output nl in
  let output :=
    if 0 <? CookTime (Metadata r) then
      WriteString output
        ("Cook Time: " ++ Time.String_ (CookTime (Metadata r)) ++ nl)
    else output in
  let output :=
    if 0 <? PrepTime (Metadata r) then
      WriteString output
        ("Prep Time: " ++ Time.String_ (PrepTime (Metadata r)) ++ nl)
    else output in

  let output := WriteString output nl in
  let output :=
    if (0 <? len (CategoryList (Metadata r)))%nat then
      WriteString output
        ("*" ++ Strings.Join (elems (CategoryList (Metadata r))) ", "
         ++ "*" ++ nl)
    else output in

  let output := WriteString output nl in
  let output :=
    if negb (Yield (Metadata r) =? "")%string then
      WriteString output ("**" ++ Yield (Metadata r) ++ "**" ++ nl)
    else output in

  let output := WriteString output (nl ++ "---" ++ nl ++ nl) in

  let output :=
    write_each output (IngredientLines r)
      (fun ingredient => "- " ++ ingredient ++ nl) in

  let output := WriteString output (nl ++ "---" ++ nl ++ nl) in

  let output := WriteString output ("### Instructions" ++ nl ++ nl) in
  let output :=
    WriteString output (Strings.Join (elems (InstructionLines r)) nl) in

  let output :=
    if (0 <? len (NotesLines r))%nat then
      let output := WriteString output (nl ++ nl ++ "### Notes" ++ nl ++ nl) in
      WriteString output (Strings.Join (elems (NotesLines r)) nl)
    else output in

  let output := WriteString output nl in
  output.

(** ** Writing the recipes

    The program acts on the world through [os.WriteFile] and reads its
    document through [goquery.NewDocumentFromReader]. Both are left
    open: [os_WriteFile name data perm] takes the world to a new world
    and says whether it failed. *)
Section Files.

Variable World : Type.
Variable os_WriteFile :
  string -> string -> Z -> World -> World * option error.
Variable Reader : Type.
Variable NewDocumentFromReader : Reader -> result Node.

(** The mode [0644] is 420. *)
Definition WriteRecipeMD (r : Recipe) (w : World) : World * option error :=
  let content := FormatAsRecipeMD r in
  os_WriteFile ("./recipes/" ++ UUID (Metadata r) ++ ".md") content 420 w.

(** [ScrapeRecipeKeeperExportHtml]: [inr err] is [log.Fatal(err)]. The
    selection [Each] hands to the callback holds one node. The error
    [WriteRecipeMD] returns is dropped, and the test on the title of
    [recipe] guards an empty block. *)
Definition ScrapeRecipeKeeperExportHtml (reader : Reader) (w : World)
    : World + error :=
  match NewDocumentFromReader reader with
  | Err err => inr err
  | Ok doc =>
      inl (Each (Find doc (match_and (match_tag "div")
                                     (match_class "recipe-details")))
             (fun w s =>
                match s with
                | n :: _ =>
                    let r := {| root := n |} in
                    let recipe := ExtractRecipe r in
                    fst (WriteRecipeMD (ExtractRecipe r) w)
                | [] => w
                end)
             w)
  end.

End Files.

Arguments WriteRecipeMD {World} os_WriteFile r w.
Arguments ScrapeRecipeKeeperExportHtml {World} os_WriteFile {Reader}
  NewDocumentFromReader reader w.

(** A fragment that holds the given children, and the [meta] element
    that carries one property. *)
Definition fragment (children : list Node) : RecipeNode :=
  {| root := ElementNode "div" [("class", "recipe-details")] children |}.

Definition meta (propName content : string) : Node :=
  ElementNode "meta" [("content", content); ("itemprop", propName)] [].

Definition span (propName text : string) : Node :=
  ElementNode "span" [("itemprop", propName)] [TextNode text].

(** The courses as the specification words them: the text of an inline
    text container ([span]), the [content] attribute of a metadata
    container ([meta]), nothing for another element; empty values are
    skipped and the order of the nodes is kept. *)
Definition course_value (n : Node) : option string :=
  if match_tag "span" n then Some (node_text n)
  else if match_tag "meta" n then Some (AttrOr [n] "content" "")
  else None.

Definition courses_in_order (nodes : list Node) : list string :=
  flat_map
    (fun n =>
       match course_value n with
       | Some v => if (v =? "")%string then [] else [v]
       | None => []
       end)
    nodes.

(** The [content] attributes that are not empty, in the order of the
    nodes. *)
Definition contents_in_order (nodes : list Node) : list string :=
  flat_map
    (fun n =>
       let content := AttrOr [n] "content" "" in
       if (content =? "")%string then [] else [content])
    nodes.

(** The line feed. *)
Definition nl : string := String "010"%char "".

(** The lines of the rendered text that depend on the data, as the
    specification lists them: each is there when its data is, and is
    empty otherwise. *)
Definition rating_line (r : Recipe) : string :=
  if negb (Rating (Metadata r) =? 0)
  then ("Rating: " ++ Strconv.Itoa (Rating (Metadata r)) ++ "-star" ++ nl)%string
  else "".

Definition collections_line (r : Recipe) : string :=
  if (0 <? len (CollectionList (Metadata r)))%nat
  then ("Collections: "
        ++ Strings.Join (elems (CollectionList (Metadata r))) ", " ++ nl)%string
  else "".

Definition course_line (r : Recipe) : string :=
  if (0 <? len (CourseList (Metadata r)))%nat
  then ("Course: "
        ++ Strings.Join (elems (CourseList (Metadata r))) ", " ++ nl)%string
  else "".

Definition source_line (r : Recipe) : string :=
  if negb (Source (Metadata r) =? "")%string
  then ("Source: " ++ Source (Metadata r) ++ nl)%string
  else "".

Definition cook_time_line (r : Recipe) : string :=
  if 0 <? CookTime (Metadata r)
  then ("Cook Time: " ++ Time.String_ (CookTime (Metadata r)) ++ nl)%string
  else "".

Definition prep_time_line (r : Recipe) : string :=
  if 0 <? PrepTime (Metadata r)
  then ("Prep Time: " ++ Time.String_ (PrepTime (Metadata r)) ++ nl)%string
  else "".

Definition category_line (r : Recipe) : string :=
  if (0 <? len (CategoryList (Metadata r)))%nat
  then ("*" ++ Strings.Join (elems (CategoryList (Metadata r))) ", "
        ++ "*" ++ nl)%string
  else "".

Definition yield_line (r : Recipe) : string :=
  if negb (Yield (Metadata r) =? "")%string
  then ("**" ++ Yield (Metadata r) ++ "**" ++ nl)%string
  else "".

Definition ingredient_lines (r : Recipe) : string :=
  String.concat ""
    (map (fun ingredient => "- " ++ ingredient ++ nl)%string
         (elems (IngredientLines r))).

Definition notes_block (r : Recipe) : string :=
  if (0 <? len (NotesLines r))%nat
  then (nl ++ nl ++ "### Notes" ++ nl ++ nl
        ++ Strings.Join (elems (NotesLines r)) nl)%string
  else "".

(** What follows the time block: the category and yield blocks, each
    behind its blank line, then the ingredients, the instructions and
    the notes. *)
Definition after_times (r : Recipe) : string :=
  (nl ++ category_line r
   ++ nl ++ yield_line r
   ++ nl ++ "---" ++ nl ++ nl
   ++ ingredient_lines r
   ++ nl ++ "---" ++ nl ++ nl
   ++ "### Instructions" ++ nl ++ nl
   ++ Strings.Join (elems (InstructionLines r)) nl
   ++ notes_block r
   ++ nl)%string.

(** A recipe with no rating, collection, course, source or time. *)
Definition bare_recipe : Recipe :=
  {| Title := "Soup"; Nutrition := zero_RecipeNutrition;
     Metadata := zero_RecipeMetadata; PhotoPaths := Some [];
     IngredientLines := Some ["1 cup broth"];
     InstructionLines := Some ["Boil."; "Serve."];
     NotesLines := Some [] |}.

(* ===================================================================== *)
(** * Notions the properties are stated with *)
(* ===================================================================== *)

(** The rune a reader finds where [r] was written: [r] itself, or
    [RuneError] when [r] is no valid rune. *)
Definition valid_or_error (r : rune) : rune :=
  if ValidRune r then r else RuneError.

(** [string(rs)] for a slice of runes. *)
Fixpoint string_of_runes (rs : list rune) : string :=
  match rs with
  | [] => ""
  | r :: rs' => (EncodeRune r ++ string_of_runes rs')%string
  end.

Definition concat_strings (l : list string) : string :=
  fold_right String.append "" l.

(** What the specification asks of one character: its replacement when
    it is one of the glyphs, the character itself otherwise. *)
Definition replace_glyph (r : rune) : string :=
  match map_lookup fractions r with
  | Some replacement => replacement
  | None => EncodeRune r
  end.

Fixpoint ascii_only (s : string) : bool :=
  match s with
  | EmptyString => true
  | String c t => (byte_val c <? RuneSelf) && ascii_only t
  end.

(** The runes a reader finds where the specification's replacement of
    [r] stands. *)
Definition glyph_runes (r : rune) : list rune :=
  match map_lookup fractions r with
  | Some replacement => runes replacement
  | None => [r]
  end.

(** What an expression can consume: from the byte offset [p] with the
    runes [ts] ahead, to the offset [p'] with [ts'] ahead. This is the
    meaning of the expression, whatever the order a matcher tries the
    alternatives in. *)
Fixpoint reach (re : regex) (p : nat) (ts : list token) (p' : nat)
    (ts' : list token) : Prop :=
  match re with
  | BeginText => p = 0%nat /\ p' = p /\ ts' = ts
  | EndText => ts = [] /\ p' = p /\ ts' = ts
  | One c =>
      exists t, ts = t :: ts' /\ class_matches c (tok_rune t) = true
                /\ p' = (p + tok_len t)%nat
  | Plus1 c =>
      exists w, w <> [] /\ ts = (w ++ ts')%list
                /\ Forall (fun t => class_matches c (tok_rune t) = true) w
  | Cat a b =>
      exists pm tm, reach a p ts pm tm /\ reach b pm tm p' ts'
  | Quest a => reach a p ts p' ts' \/ (p' = p /\ ts' = ts)
  | Capture _ a => reach a p ts p' ts'
  end.

(** The runes end with one of the letters. *)
Definition ends_in (letters : list rune) (ts : list token) : Prop :=
  exists pre t, ts = (pre ++ [t])%list /\ In (tok_rune t) letters.

(** T, H, M, S: the letters a duration can end with. *)
Definition closing_letters : list rune := [0x54; 0x48; 0x4D; 0x53].

(** Nothing, or runes that end in one of the letters. *)
Definition tail_ok (letters : list rune) (ts : list token) : Prop :=
  ts = [] \/ ends_in letters ts.

(** What [range] guarantees of each of its tokens. *)
Definition token_ok (t : token) : Prop :=
  (1 <= tok_len t)%nat
  /\ (tok_rune t < 0x80 -> tok_bytes t = String (byte_of (tok_rune t)) "").

Definition closing_byte (c : ascii) : Prop :=
  c = "T"%char \/ c = "H"%char \/ c = "M"%char \/ c = "S"%char.

(** The runes [unicode.IsSpace] accepts. *)
Definition space_runes : list rune :=
  [0x09; 0x0A; 0x0B; 0x0C; 0x0D; 0x20; 0x85; 0xA0; 0x1680;
   0x2000; 0x2001; 0x2002; 0x2003; 0x2004; 0x2005; 0x2006; 0x2007;
   0x2008; 0x2009; 0x200A; 0x2028; 0x2029; 0x202F; 0x205F; 0x3000].

Definition spaces (ws : list rune) : Prop :=
  Forall (fun w => Unicode.IsSpace w = true) ws.

(** An ASCII byte that is no space. *)
Definition plain_byte (c : ascii) : Prop :=
  byte_val c < 0x80 /\ Unicode.IsSpace (byte_val c) = false.

(** Padding: the spaces of a text, written out. *)
Definition space_padding (pad : string) : Prop :=
  exists ws, spaces ws /\ pad = string_of_runes ws.

(** A fragment whose two durations are padded with a space. *)
Definition fragment_padded_times : RecipeNode :=
  fragment [meta "cookTime" " PT10M "; meta "prepTime" " PT10M "].

(** A fragment whose prep time is no duration. *)
Definition fragment_prepTime_soon : RecipeNode :=
  fragment [meta "prepTime" "soon"].

(** The bytes of a string. *)
Fixpoint bytes (s : string) : list Z :=
  match s with
  | EmptyString => []
  | String c t => byte_val c :: bytes t
  end.

(** A value a list keeps: nothing for the empty string. *)
Definition kept (v : string) : list string :=
  if (v =? "")%string then [] else [v].

(** The [src] attributes that are not empty, in the order of the nodes. *)
Definition srcs_in_order (nodes : list Node) : list string :=
  flat_map (fun n => kept (AttrOr [n] "src" "")) nodes.

(** The text of each node, trimmed and with its fractions written out;
    empty texts are left out. *)
Definition lines_in_order (nodes : list Node) : list string :=
  flat_map
    (fun n => kept (ConvertFractions (Strings.TrimSpace (node_text n))))
    nodes.

(** The selector [img.recipe-photos]. *)
Definition photo_selector : Matcher :=
  match_and (match_tag "img") (match_class "recipe-photos").

(** The number of bytes of the runes [w]. *)
Definition total_len (w : list token) : nat :=
  fold_right (fun t n => (tok_len t + n)%nat) 0%nat w.

(** What an expression can do to the state of the matcher: the runes
    it consumes, the offset it reaches and the registers it writes. *)
Fixpoint reach_caps (re : regex) (st st' : mstate) : Prop :=
  match re with
  | BeginText => pos st = 0%nat /\ st' = st
  | EndText => rest st = [] /\ st' = st
  | One c =>
      exists t ts,
        rest st = t :: ts /\ class_matches c (tok_rune t) = true
        /\ st' = {| pos := (pos st + tok_len t)%nat; rest := ts;
                    caps := caps st |}
  | Plus1 c =>
      exists w ts,
        w <> [] /\ rest st = (w ++ ts)%list
        /\ Forall (fun t => class_matches c (tok_rune t) = true) w
        /\ st' = {| pos := (pos st + total_len w)%nat; rest := ts;
                    caps := caps st |}
  | Cat a b => exists sm, reach_caps a st sm /\ reach_caps b sm st'
  | Quest a => reach_caps a st st' \/ st' = st
  | Capture i a =>
      exists sm,
        reach_caps a st sm
        /\ st' = {| pos := pos sm; rest := rest sm;
                    caps := (i, (pos st, pos sm)) :: caps sm |}
  end.

(** The state of the matcher agrees with the string it reads: the
    runes ahead are the bytes from the offset on. *)
Definition aligned (s : string) (st : mstate) : Prop :=
  drop (pos st) s = concat_strings (map tok_bytes (rest st))
  /\ Forall token_ok (rest st).

(** Every byte is a decimal digit. *)
Fixpoint all_digits (s : string) : bool :=
  match s with
  | EmptyString => true
  | String c t => Strconv.is_digit (byte_val c) && all_digits t
  end.

(** A string that starts with a decimal digit. *)
Definition digit_led (s : string) : Prop :=
  exists c t, s = String c t /\ Strconv.is_digit (byte_val c) = true.

(** What a parenthesis of the duration expression can hold: a digit
    first; digits only, but for the sixth (the seconds). *)
Definition group_ok (i : nat) (x : string) : Prop :=
  digit_led x /\ (i <> 6%nat -> all_digits x = true).

(** Every register holds what its parenthesis can hold. *)
Definition caps_ok (s : string) (cs : list (nat * (nat * nat))) : Prop :=
  forall i lo hi, In (i, (lo, hi)) cs -> group_ok i (substr s lo hi).

(** A float whose sign bit is not set (a NaN has none). *)
Definition not_negative (f : spec_float) : bool :=
  match f with
  | S754_zero s | S754_infinity s | S754_finite s _ _ => negb s
  | S754_nan => true
  end.

(** The property names [ExtractRecipe] looks for. *)
Definition read_props : list string :=
  ["name"; "recipeId"; "recipeIsFavourite"; "recipeRating"; "recipeSource";
   "recipeCategory"; "recipeCollection"; "recipeCourse"; "recipeYield";
   "prepTime"; "cookTime"; "recipeIngredients"; "recipeDirections";
   "recipeNotes"].

(** The error of a string the duration expression does not match. *)
Definition format_error : error :=
  errorString "input string is of incorrect format".

(** One call of [os.WriteFile]. *)
Record write_call := { w_name : string; w_data : string; w_perm : Z }.

(** [os_WriteFile] with a journal of the calls made to it. *)
Definition journaled {World : Type}
    (os_WriteFile : string -> string -> Z -> World -> World * option error)
    (name data : string) (perm : Z) (wj : World * list write_call)
    : (World * list write_call) * option error :=
  let '(w', e) := os_WriteFile name data perm (fst wj) in
  ((w', snd wj ++ [{| w_name := name; w_data := data; w_perm := perm |}])%list,
   e).

(** The selector [div.recipe-details]. *)
Definition recipe_details : Matcher :=
  match_and (match_tag "div") (match_class "recipe-details").

(** The file of the recipe below the node [n]. *)
Definition recipe_file (n : Node) : write_call :=
  let r := ExtractRecipe {| root := n |} in
  {| w_name := "./recipes/" ++ UUID (Metadata r) ++ ".md";
     w_data := FormatAsRecipeMD r;
     w_perm := 420 |}.

(** A paragraph that holds one text. *)
Definition par (text : string) : Node := ElementNode "p" [] [TextNode text].

(** A file system on which every write fails. *)
Definition failing_WriteFile (name data : string) (perm : Z) (w : unit)
    : unit * option error :=
  (w, Some (errorString "no space left on device")).

(** A document with two recipes. *)
Definition recipe_div (children : list Node) : Node :=
  ElementNode "div" [("class", "recipe-details")] children.

Definition two_recipes : Node :=
  ElementNode "html" []
    [ElementNode "body" []
       [recipe_div [meta "recipeId" "a1"; span "name" "Soup"];
        recipe_div [meta "recipeId" "b2"; span "name" "Stew"]]].

(** The token [range] makes of an ASCII byte, and the tokens of an
    ASCII text. *)
Definition ascii_token (c : ascii) : token :=
  {| tok_rune := byte_val c; tok_bytes := String c "" |}.

Fixpoint ascii_tokens (s : string) : list token :=
  match s with
  | EmptyString => []
  | String c t => ascii_token c :: ascii_tokens t
  end.

(** The next rune, if any, is not matched by the class. *)
Definition stops (c : class) (ts : list token) : Prop :=
  match ts with
  | [] => True
  | t :: _ => class_matches c (tok_rune t) = false
  end.

(** The mantissa widened to [prec] bits. *)
Definition widen (prec : Z) (mx : positive) : positive :=
  match (prec - Zpos (digits2_pos mx))%Z with
  | Zpos k => Pos.iter xO mx k
  | _ => mx
  end.

(** A component of a duration as it is written: digits and the letter,
    or nothing. *)
Definition group_text (g : option string) (letter : ascii) : string :=
  match g with
  | Some ds => (ds ++ String letter "")%string
  | None => ""
  end.

(** The digits of a component, [""] when it is not there. *)
Definition group_digits (g : option string) : string :=
  match g with
  | Some ds => ds
  | None => ""
  end.

(** A component that is there holds digits, one at least. *)
Definition group_valid (g : option string) : Prop :=
  match g with
  | Some ds => all_digits ds = true /\ ds <> ""
  | None => True
  end.

(** The text of a duration with the given components. *)
Definition iso_text (y mo d h mi s : option string) : string :=
  ("P" ++ group_text y "Y" ++ group_text mo "M" ++ group_text d "D"
   ++ "T" ++ group_text h "H" ++ group_text mi "M" ++ group_text s "S")%string.

(** The matcher after it has read [pre], with [suf] ahead. *)
Definition state_at (pre suf : string) (cs : list (nat * (nat * nat)))
    : mstate :=
  {| pos := String.length pre; rest := ascii_tokens suf; caps := cs |}.

(** The register a component leaves when it starts at offset [lo]. *)
Definition group_cap (i : nat) (g : option string) (lo : nat)
    : list (nat * (nat * nat)) :=
  match g with
  | Some ds => [(i, (lo, (lo + String.length ds)%nat))]
  | None => []
  end.

(** Digits, then something that is neither a digit nor the rune [x]. *)
Definition digits_then (x : rune) (ts : list token) : Prop :=
  exists w ts',
    ts = (w ++ ts')%list
    /\ Forall (fun t => class_matches ClassDigit (tok_rune t) = true) w
    /\ stops ClassDigit ts' /\ stops (ClassLit x) ts'.

(** A letter that closes a component. *)
Definition unit_letter (c : ascii) : Prop :=
  byte_val c < 0x80 /\ Strconv.is_digit (byte_val c) = false.

(** The float of [prec] bits that holds the whole number [n]. *)
Definition whole (prec : Z) (n : positive) : spec_float :=
  S754_finite false (widen prec n) (Zpos (digits2_pos n) - prec).

(** The number a component spells, 0 when it is not there. *)
Definition group_number (g : option string) : option Z :=
  match g with
  | Some ds => Strconv.parse_digits ds 0
  | None => Some 0
  end.

(** A number of seconds in hours, minutes and seconds, the hours and
    the minutes left out while there are none. *)
Definition clock (t : Z) : string :=
  if t <? 60 then (Strconv.Itoa t ++ "s")%string
  else if t <? 3600 then
    (Strconv.Itoa (t / 60) ++ "m" ++ Strconv.Itoa (t mod 60) ++ "s")%string
  else
    (Strconv.Itoa (t / 3600) ++ "h" ++ Strconv.Itoa (t / 60 mod 60) ++ "m"
     ++ Strconv.Itoa (t mod 60) ++ "s")%string.

(** Tactics for the arithmetic of bytes. *)
Ltac pow2 :=
  repeat match goal with
    | |- context [2 ^ ?k] =>
        let v := eval vm_compute in (2 ^ k) in change (2 ^ k) with v
    end.

Ltac div_mod_lia := Z.to_euclidean_division_equations; lia.

(** Case analysis on the comparisons of the goal. *)
Ltac zbool :=
  repeat match goal with
    | |- context [?a <? ?b] => destruct (Z.ltb_spec a b); try lia
    | |- context [?a <=? ?b] => destruct (Z.leb_spec a b); try lia
    | |- context [?a =? ?b] => destruct (Z.eqb_spec a b); try lia
    end.

(** Case analysis on a membership in an explicit list. *)
Ltac each_member H :=
  cbn [In] in H; repeat (destruct H as [<- | H]); [..|destruct H].

(* ===================================================================== *)
(** * Properties of UTF-8 and of the fraction normalizer *)
(* ===================================================================== *)

Section Utf8Facts.

Lemma lor_shiftl_add (x y k : Z) :
  0 <= k -> 0 <= y < 2 ^ k -> Z.lor (Z.shiftl x k) y = x * 2 ^ k + y.
Proof.
  intros Hk Hy.
  rewrite <- Z.lxor_lor, <- Z.add_nocarry_lxor, Z.shiftl_mul_pow2; trivial.
  all: apply Z.bits_inj'; intros n Hn; rewrite Z.land_spec, Z.bits_0.
  all: destruct (Z.lt_ge_cases n k) as [Hlt|Hge].
  all: try (rewrite Z.shiftl_spec_low by lia; reflexivity).
  all: rewrite <- (Z.mod_small y (2 ^ k)) by lia.
  all: rewrite Z.mod_pow2_bits_high by lia; apply andb_false_r.
Qed.

Lemma byte_val_of (z : Z) : 0 <= z < 256 -> byte_val (byte_of z) = z.
Proof.
  intros H. unfold byte_val, byte_of.
  rewrite N_ascii_embedding; [lia|]. lia.
Qed.

Lemma byte_val_range (c : ascii) : 0 <= byte_val c < 256.
Proof.
  unfold byte_val. pose proof (N_ascii_bounded c). lia.
Qed.

Lemma lor_shiftl_const (c x k a : Z) :
  0 <= k -> c = x * 2 ^ k -> 0 <= a < 2 ^ k -> Z.lor c a = c + a.
Proof.
  intros Hk -> Ha. rewrite <- Z.shiftl_mul_pow2 by lia.
  rewrite lor_shiftl_add by lia. now rewrite Z.shiftl_mul_pow2 by lia.
Qed.

Lemma lor_lead2 (a : Z) : 0 <= a < 32 -> Z.lor 0xC0 a = 192 + a.
Proof. intros H. apply (lor_shiftl_const 0xC0 6 5); pow2; lia. Qed.
Lemma lor_lead3 (a : Z) : 0 <= a < 16 -> Z.lor 0xE0 a = 224 + a.
Proof. intros H. apply (lor_shiftl_const 0xE0 14 4); pow2; lia. Qed.
Lemma lor_lead4 (a : Z) : 0 <= a < 8 -> Z.lor 0xF0 a = 240 + a.
Proof. intros H. apply (lor_shiftl_const 0xF0 30 3); pow2; lia. Qed.
Lemma lor_cont (a : Z) : 0 <= a < 64 -> Z.lor 0x80 a = 128 + a.
Proof. intros H. apply (lor_shiftl_const 0x80 2 6); pow2; lia. Qed.

Lemma land_maskx (x : Z) : Z.land x maskx = x mod 64.
Proof. change maskx with (Z.ones 6). now rewrite Z.land_ones. Qed.
Lemma land_mask2 (x : Z) : Z.land x mask2 = x mod 32.
Proof. change mask2 with (Z.ones 5). now rewrite Z.land_ones. Qed.
Lemma land_mask3 (x : Z) : Z.land x mask3 = x mod 16.
Proof. change mask3 with (Z.ones 4). now rewrite Z.land_ones. Qed.
Lemma land_mask4 (x : Z) : Z.land x mask4 = x mod 8.
Proof. change mask4 with (Z.ones 3). now rewrite Z.land_ones. Qed.

(** The rune that [decode_core] assembles from two, three and four
    bytes, in arithmetic. *)
Lemma lor_shiftl6 (x y : Z) :
  0 <= y < 64 -> Z.lor (Z.shiftl x 6) y = x * 64 + y.
Proof. intros H. rewrite lor_shiftl_add; pow2; lia. Qed.

Lemma shiftl6 (x : Z) : Z.shiftl x 6 = x * 64.
Proof. rewrite Z.shiftl_mul_pow2 by lia. reflexivity. Qed.

Lemma assemble2 (s0 s1 : Z) :
  Z.lor (Z.shiftl (Z.land s0 mask2) 6) (Z.land s1 maskx)
  = (s0 mod 32) * 64 + s1 mod 64.
Proof.
  rewrite land_mask2, land_maskx.
  apply lor_shiftl6. apply Z.mod_pos_bound; lia.
Qed.

Lemma assemble3 (s0 s1 s2 : Z) :
  Z.lor (Z.lor (Z.shiftl (Z.land s0 mask3) 12) (Z.shiftl (Z.land s1 maskx) 6))
        (Z.land s2 maskx)
  = (s0 mod 16) * 4096 + (s1 mod 64) * 64 + s2 mod 64.
Proof.
  rewrite land_mask3, !land_maskx.
  pose proof (Z.mod_pos_bound s0 16). pose proof (Z.mod_pos_bound s1 64).
  pose proof (Z.mod_pos_bound s2 64).
  replace (Z.shiftl (s0 mod 16) 12) with (Z.shiftl (Z.shiftl (s0 mod 16) 6) 6)
    by (rewrite Z.shiftl_shiftl by lia; reflexivity).
  rewrite <- Z.shiftl_lor.
  rewrite (lor_shiftl6 (s0 mod 16) (s1 mod 64)) by lia.
  rewrite lor_shiftl6 by lia. lia.
Qed.

Lemma assemble4 (s0 s1 s2 s3 : Z) :
  Z.lor (Z.lor (Z.lor (Z.shiftl (Z.land s0 mask4) 18)
                      (Z.shiftl (Z.land s1 maskx) 12))
               (Z.shiftl (Z.land s2 maskx) 6))
        (Z.land s3 maskx)
  = (s0 mod 8) * 262144 + (s1 mod 64) * 4096 + (s2 mod 64) * 64 + s3 mod 64.
Proof.
  rewrite land_mask4, !land_maskx.
  pose proof (Z.mod_pos_bound s0 8). pose proof (Z.mod_pos_bound s1 64).
  pose proof (Z.mod_pos_bound s2 64). pose proof (Z.mod_pos_bound s3 64).
  replace (Z.shiftl (s0 mod 8) 18)
    with (Z.shiftl (Z.shiftl (Z.shiftl (s0 mod 8) 6) 6) 6)
    by (rewrite !Z.shiftl_shiftl by lia; reflexivity).
  replace (Z.shiftl (s1 mod 64) 12) with (Z.shiftl (Z.shiftl (s1 mod 64) 6) 6)
    by (rewrite Z.shiftl_shiftl by lia; reflexivity).
  rewrite <- !Z.shiftl_lor.
  rewrite (lor_shiftl6 (s0 mod 8) (s1 mod 64)) by lia.
  rewrite (lor_shiftl6 _ (s2 mod 64)) by lia.
  rewrite lor_shiftl6 by lia. lia.
Qed.

Lemma at_cons (c : ascii) (t : string) (i : nat) :
  at_ (String c t) (S i) = at_ t i.
Proof. reflexivity. Qed.

Lemma at_head (c : ascii) (t : string) : at_ (String c t) 0 = byte_val c.
Proof. reflexivity. Qed.

Lemma first_ascii (s0 : Z) : 0 <= s0 < 0x80 -> first s0 = LeadAscii.
Proof. intros H. unfold first. now zbool. Qed.
Lemma first_lead2 (s0 : Z) :
  0xC2 <= s0 <= 0xDF -> first s0 = Lead 2 locb hicb.
Proof. intros H. unfold first. now zbool. Qed.
Lemma first_lead3 (s0 : Z) :
  0xE0 <= s0 <= 0xEF ->
  first s0 = Lead 3 (if s0 =? 0xE0 then 0xA0 else locb)
                    (if s0 =? 0xED then 0x9F else hicb).
Proof. intros H. unfold first. now zbool. Qed.
Lemma first_lead4 (s0 : Z) :
  0xF0 <= s0 <= 0xF4 ->
  first s0 = Lead 4 (if s0 =? 0xF0 then 0x90 else locb)
                    (if s0 =? 0xF4 then 0x8F else hicb).
Proof. intros H. unfold first. now zbool. Qed.

Lemma decode_encode1 (r : Z) (rest : string) :
  0 <= r <= 0x7F ->
  DecodeRuneInString (String (byte_of r) rest) = (r, 1%nat).
Proof.
  intros H. unfold DecodeRuneInString. rewrite at_head.
  rewrite byte_val_of by lia. unfold decode_core.
  cbn [String.length Nat.ltb Nat.leb]. now rewrite first_ascii by lia.
Qed.

Lemma decode_encode2 (r : Z) (rest : string) :
  0x80 <= r <= 0x7FF ->
  DecodeRuneInString
    (String (byte_of (Z.lor 0xC0 (Z.shiftr r 6)))
       (String (byte_of (Z.lor 0x80 (Z.land r maskx))) rest))
  = (r, 2%nat).
Proof.
  intros H. unfold DecodeRuneInString. rewrite !at_cons, !at_head.
  rewrite Z.shiftr_div_pow2, land_maskx by lia. pow2.
  rewrite lor_lead2, lor_cont by div_mod_lia.
  rewrite !byte_val_of by div_mod_lia.
  unfold decode_core. cbn [String.length Nat.ltb Nat.leb].
  rewrite first_lead2 by div_mod_lia.
  cbn [Nat.ltb Nat.leb]. unfold locb, hicb.
  rewrite assemble2.
  destruct (Z.ltb_spec (128 + r mod 64) 128); [div_mod_lia|].
  destruct (Z.ltb_spec 191 (128 + r mod 64)); [div_mod_lia|].
  cbn [orb]. f_equal. div_mod_lia.
Qed.

Lemma decode_encode3 (r : Z) (rest : string) :
  0x800 <= r <= 0xFFFF -> ~ (surrogateMin <= r <= surrogateMax) ->
  DecodeRuneInString
    (String (byte_of (Z.lor 0xE0 (Z.shiftr r 12)))
       (String (byte_of (Z.lor 0x80 (Z.land (Z.shiftr r 6) maskx)))
          (String (byte_of (Z.lor 0x80 (Z.land r maskx))) rest)))
  = (r, 3%nat).
Proof.
  unfold surrogateMin, surrogateMax.
  intros H Hs. unfold DecodeRuneInString. rewrite !at_cons, !at_head.
  rewrite !Z.shiftr_div_pow2, !land_maskx by lia. pow2.
  rewrite lor_lead3, !lor_cont by div_mod_lia.
  rewrite !byte_val_of by div_mod_lia.
  unfold decode_core. cbn [String.length Nat.ltb Nat.leb].
  rewrite first_lead3 by div_mod_lia.
  cbn [Nat.ltb Nat.leb]. unfold locb, hicb.
  rewrite assemble3.
  destruct (Z.eqb_spec (224 + r / 4096) 224);
    destruct (Z.eqb_spec (224 + r / 4096) 237);
    try (exfalso; lia).
  all: match goal with
       | |- context [?a <? ?b] =>
           destruct (Z.ltb_spec a b); [exfalso; div_mod_lia|]
       end.
  all: match goal with
       | |- context [?a <? ?b] =>
           destruct (Z.ltb_spec a b); [exfalso; div_mod_lia|]
       end.
  all: cbn [orb].
  all: destruct (Z.ltb_spec (128 + r mod 64) 128); [exfalso; div_mod_lia|].
  all: destruct (Z.ltb_spec 191 (128 + r mod 64)); [exfalso; div_mod_lia|].
  all: cbn [orb]; f_equal; div_mod_lia.
Qed.

Lemma decode_encode4 (r : Z) (rest : string) :
  0x10000 <= r <= MaxRune ->
  DecodeRuneInString
    (String (byte_of (Z.lor 0xF0 (Z.shiftr r 18)))
       (String (byte_of (Z.lor 0x80 (Z.land (Z.shiftr r 12) maskx)))
          (String (byte_of (Z.lor 0x80 (Z.land (Z.shiftr r 6) maskx)))
             (String (byte_of (Z.lor 0x80 (Z.land r maskx))) rest))))
  = (r, 4%nat).
Proof.
  unfold MaxRune.
  intros H. unfold DecodeRuneInString. rewrite !at_cons, !at_head.
  rewrite !Z.shiftr_div_pow2, !land_maskx by lia. pow2.
  rewrite lor_lead4, !lor_cont by div_mod_lia.
  rewrite !byte_val_of by div_mod_lia.
  unfold decode_core. cbn [String.length Nat.ltb Nat.leb].
  rewrite first_lead4 by div_mod_lia.
  cbn [Nat.ltb Nat.leb]. unfold locb, hicb.
  rewrite assemble4.
  destruct (Z.eqb_spec (240 + r / 262144) 240);
    destruct (Z.eqb_spec (240 + r / 262144) 244);
    try (exfalso; lia).
  all: match goal with
       | |- context [?a <? ?b] =>
           destruct (Z.ltb_spec a b); [exfalso; div_mod_lia|]
       end.
  all: match goal with
       | |- context [?a <? ?b] =>
           destruct (Z.ltb_spec a b); [exfalso; div_mod_lia|]
       end.
  all: cbn [orb].
  all: destruct (Z.ltb_spec (128 + (r / 64) mod 64) 128);
    [exfalso; div_mod_lia|].
  all: destruct (Z.ltb_spec 191 (128 + (r / 64) mod 64));
    [exfalso; div_mod_lia|].
  all: cbn [orb].
  all: destruct (Z.ltb_spec (128 + r mod 64) 128); [exfalso; div_mod_lia|].
  all: destruct (Z.ltb_spec 191 (128 + r mod 64)); [exfalso; div_mod_lia|].
  all: cbn [orb]; f_equal; div_mod_lia.
Qed.

Lemma EncodeRune_invalid (r : Z) :
  ValidRune r = false -> EncodeRune r = EncodeRune RuneError.
Proof.
  unfold ValidRune, EncodeRune, surrogateMin, surrogateMax, MaxRune, RuneError.
  intros H.
  destruct (Z.leb_spec 0 r); destruct (Z.ltb_spec r 55296);
    destruct (Z.ltb_spec 57343 r); destruct (Z.leb_spec r 1114111);
    cbn [andb orb] in H; try discriminate.
  all: destruct (Z.leb_spec r 127); try lia.
  all: destruct (Z.leb_spec r 2047); try lia.
  all: destruct (Z.leb_spec r 65535); try lia.
  all: destruct (Z.ltb_spec 65535 r); try lia.
  all: reflexivity.
Qed.

(** Decoding what [EncodeRune] wrote gives the rune back, with its
    length; a rune that is not valid was written as [RuneError]. *)
Lemma decode_encode (r : Z) (rest : string) :
  DecodeRuneInString (EncodeRune r ++ rest)
  = (valid_or_error r, String.length (EncodeRune r)).
Proof.
  unfold valid_or_error. destruct (ValidRune r) eqn:V.
  - assert (Hv : 0 <= r < 55296 \/ 57343 < r <= 1114111).
    { unfold ValidRune, surrogateMin, surrogateMax, MaxRune in V.
      destruct (Z.leb_spec 0 r); destruct (Z.ltb_spec r 55296);
        destruct (Z.ltb_spec 57343 r); destruct (Z.leb_spec r 1114111);
        cbn [andb orb] in V; try discriminate; lia. }
    clear V.
    unfold EncodeRune, surrogateMin, surrogateMax, MaxRune.
    destruct (Z.leb_spec 0 r); [|exfalso; lia]. cbn [andb].
    destruct (Z.leb_spec r 127); [apply decode_encode1; lia|].
    destruct (Z.leb_spec r 2047); [apply decode_encode2; lia|].
    destruct (Z.leb_spec r 65535).
    + destruct (Z.ltb_spec r 55296); destruct (Z.ltb_spec 57343 r);
        cbn [andb orb]; try (exfalso; lia).
      all: apply decode_encode3; unfold surrogateMin, surrogateMax; lia.
    + destruct (Z.ltb_spec r 55296); destruct (Z.ltb_spec 57343 r);
        cbn [andb orb]; try (exfalso; lia).
      destruct (Z.ltb_spec 65535 r); [|exfalso; lia].
      destruct (Z.leb_spec r 1114111); [|exfalso; lia].
      cbn [andb]. apply decode_encode4; unfold MaxRune; lia.
  - rewrite (EncodeRune_invalid r V).
    change (EncodeRune RuneError)
      with (String (byte_of (Z.lor 0xE0 (Z.shiftr RuneError 12)))
              (String (byte_of (Z.lor 0x80 (Z.land (Z.shiftr RuneError 6) maskx)))
                 (String (byte_of (Z.lor 0x80 (Z.land RuneError maskx))) ""))).
    apply decode_encode3; unfold RuneError, surrogateMin, surrogateMax; lia.
Qed.

Lemma length_append (a b : string) :
  String.length (a ++ b) = (String.length a + String.length b)%nat.
Proof. induction a as [|c a IH]; cbn; [reflexivity | now rewrite IH]. Qed.

Lemma take_app (a b : string) : take (String.length a) (a ++ b) = a.
Proof. induction a as [|c a IH]; cbn; [reflexivity | now rewrite IH]. Qed.

Lemma drop_app (a b : string) : drop (String.length a) (a ++ b) = b.
Proof. induction a as [|c a IH]; cbn; [reflexivity | exact IH]. Qed.

Lemma range_from_skip (a rest : string) :
  range_from (String.length a) (a ++ rest) = range_from 0 rest.
Proof.
  induction a as [|c a IH]; cbn [String.length String.append].
  - reflexivity.
  - cbn [range_from]. exact IH.
Qed.

(** A string that starts with the bytes of one rune ranges as that
    rune, then as what follows. *)
Lemma range_rune (a rest : string) (r : rune) :
  a <> "" ->
  DecodeRuneInString (a ++ rest) = (r, String.length a) ->
  range (a ++ rest)
  = {| tok_rune := r; tok_bytes := a |} :: range rest.
Proof.
  intros Ha Hd. unfold range.
  destruct a as [|c a]; [congruence|].
  cbn [String.append range_from].
  change (String c (a ++ rest)) with (String c a ++ rest)%string.
  rewrite Hd, take_app.
  replace (String.length (String c a) - 1)%nat with (String.length a)
    by (cbn [String.length]; lia).
  now rewrite range_from_skip.
Qed.

Lemma EncodeRune_not_empty (r : Z) : EncodeRune r <> "".
Proof.
  unfold EncodeRune.
  repeat match goal with
         | |- context [if ?c then _ else _] => destruct c
         end; discriminate.
Qed.

Lemma range_EncodeRune (r : Z) (rest : string) :
  range (EncodeRune r ++ rest)
  = {| tok_rune := valid_or_error r; tok_bytes := EncodeRune r |} :: range rest.
Proof.
  apply range_rune; [apply EncodeRune_not_empty | apply decode_encode].
Qed.

Lemma first_inv (s0 : Z) :
  match first s0 with
  | LeadAscii => s0 < 0x80
  | LeadInvalid => True
  | Lead sz lo hi =>
      (sz = 2%nat /\ 0xC2 <= s0 <= 0xDF /\ lo = 0x80 /\ hi = 0xBF)
      \/ (sz = 3%nat /\ 0xE0 <= s0 <= 0xEF
          /\ lo = (if s0 =? 0xE0 then 0xA0 else 0x80)
          /\ hi = (if s0 =? 0xED then 0x9F else 0xBF))
      \/ (sz = 4%nat /\ 0xF0 <= s0 <= 0xF4
          /\ lo = (if s0 =? 0xF0 then 0x90 else 0x80)
          /\ hi = (if s0 =? 0xF4 then 0x8F else 0xBF))
  end.
Proof.
  unfold first, locb, hicb.
  repeat match goal with
         | |- context [?a <? ?b] => destruct (Z.ltb_spec a b)
         | |- context [?a =? ?b] => destruct (Z.eqb_spec a b)
         end; try lia; try exact I.
  all: try (left; repeat split; lia).
  all: try (right; left; repeat split; lia).
  all: try (right; right; repeat split; lia).
Qed.

Lemma ValidRune_iff (r : Z) :
  ValidRune r = true <-> (0 <= r < 0xD800 \/ 0xDFFF < r <= 0x10FFFF).
Proof.
  unfold ValidRune, surrogateMin, surrogateMax, MaxRune.
  destruct (Z.leb_spec 0 r); destruct (Z.ltb_spec r 55296);
    destruct (Z.ltb_spec 57343 r); destruct (Z.leb_spec r 1114111);
    cbn [andb orb]; split; intros; try discriminate; try reflexivity; lia.
Qed.

Lemma decode_core_valid (n : nat) (s0 s1 s2 s3 : Z) :
  0 <= s0 ->
  ValidRune (fst (decode_core n s0 s1 s2 s3)) = true.
Proof.
  intros H0. unfold decode_core.
  destruct (n <? 1)%nat; [reflexivity|].
  pose proof (first_inv s0) as F.
  destruct (first s0) as [| |sz lo hi]; [|reflexivity|].
  - cbn [fst]. apply ValidRune_iff. lia.
  - destruct (n <? sz)%nat; [reflexivity|].
    destruct (Z.ltb_spec s1 lo); [reflexivity|].
    destruct (Z.ltb_spec hi s1); [reflexivity|]. cbn [orb].
    destruct F as [(-> & Hs & -> & ->)|[(-> & Hs & -> & ->)|(-> & Hs & -> & ->)]];
      cbn [Nat.leb].
    + cbn [fst]. rewrite assemble2. apply ValidRune_iff. div_mod_lia.
    + unfold locb, hicb.
      destruct (Z.ltb_spec s2 128); [reflexivity|].
      destruct (Z.ltb_spec 191 s2); [reflexivity|]. cbn [orb fst].
      rewrite assemble3. apply ValidRune_iff.
      destruct (Z.eqb_spec s0 224); destruct (Z.eqb_spec s0 237);
        div_mod_lia.
    + unfold locb, hicb.
      destruct (Z.ltb_spec s2 128); [reflexivity|].
      destruct (Z.ltb_spec 191 s2); [reflexivity|]. cbn [orb].
      destruct (Z.ltb_spec s3 128); [reflexivity|].
      destruct (Z.ltb_spec 191 s3); [reflexivity|]. cbn [orb fst].
      rewrite assemble4. apply ValidRune_iff.
      destruct (Z.eqb_spec s0 240); destruct (Z.eqb_spec s0 244);
        div_mod_lia.
Qed.

Lemma at_nonneg (s : string) (i : nat) : 0 <= at_ s i.
Proof.
  unfold at_. destruct (String.get i s); [apply byte_val_range | lia].
Qed.

Lemma DecodeRuneInString_valid (s : string) :
  ValidRune (fst (DecodeRuneInString s)) = true.
Proof. apply decode_core_valid, at_nonneg. Qed.

Lemma range_from_valid (s : string) (skip : nat) :
  Forall (fun t => ValidRune (tok_rune t) = true) (range_from skip s).
Proof.
  revert skip. induction s as [|c s IH]; intros skip; cbn [range_from].
  - constructor.
  - destruct skip as [|k]; [|apply IH].
    pose proof (DecodeRuneInString_valid (String c s)) as V.
    destruct (DecodeRuneInString (String c s)) as [r size].
    constructor; [exact V | apply IH].
Qed.

Lemma runes_valid (s : string) :
  Forall (fun r => ValidRune r = true) (runes s).
Proof.
  unfold runes, range. apply Forall_map. apply range_from_valid.
Qed.

Lemma append_assoc (a b c : string) :
  ((a ++ b) ++ c)%string = (a ++ (b ++ c))%string.
Proof. induction a as [|x a IH]; cbn; [reflexivity | now rewrite IH]. Qed.
Lemma append_nil_r (s : string) : (s ++ "")%string = s.
Proof. induction s as [|c s IH]; cbn; [reflexivity | now rewrite IH]. Qed.

Lemma fold_left_write (f : string -> rune -> string) (g : rune -> string)
    (l : list rune) (init : string) :
  (forall output r, f output r = (output ++ g r)%string) ->
  fold_left f l init = (init ++ concat_strings (map g l))%string.
Proof.
  intros Hf. revert init. induction l as [|r l IH]; intros init; cbn.
  - now rewrite append_nil_r.
  - rewrite IH, Hf. now rewrite append_assoc.
Qed.

Lemma ConvertFractions_runes (input : string) :
  ConvertFractions input = concat_strings (map replace_glyph (runes input)).
Proof.
  unfold ConvertFractions.
  rewrite fold_left_write with (g := replace_glyph); [reflexivity|].
  intros output r. unfold replace_glyph, WriteString, WriteRune.
  destruct (map_lookup fractions r); reflexivity.
Qed.

Lemma runes_EncodeRune (r : Z) (rest : string) :
  runes (EncodeRune r ++ rest) = valid_or_error r :: runes rest.
Proof. unfold runes. now rewrite range_EncodeRune. Qed.

Lemma runes_string_of_runes (rs : list rune) :
  runes (string_of_runes rs) = map valid_or_error rs.
Proof.
  induction rs as [|r rs IH]; [reflexivity|].
  cbn [string_of_runes map]. now rewrite runes_EncodeRune, IH.
Qed.

Lemma byte_of_val (c : ascii) : byte_of (byte_val c) = c.
Proof.
  unfold byte_of, byte_val. rewrite N2Z.id. apply ascii_N_embedding.
Qed.

Lemma runes_ascii_app (a rest : string) :
  ascii_only a = true ->
  runes (a ++ rest) = (runes a ++ runes rest)%list.
Proof.
  induction a as [|c a IH]; intros H; [reflexivity|].
  cbn [ascii_only] in H. apply andb_true_iff in H as [Hc Ha].
  apply Z.ltb_lt in Hc. unfold RuneSelf in Hc.
  pose proof (byte_val_range c) as Hr.
  assert (E : forall x, String c x = (EncodeRune (byte_val c) ++ x)%string).
  { intros x. unfold EncodeRune.
    destruct (Z.leb_spec 0 (byte_val c)); [|lia].
    destruct (Z.leb_spec (byte_val c) 127); [|lia].
    cbn [andb String.append]. now rewrite byte_of_val. }
  cbn [String.append]. rewrite (E (a ++ rest)%string), (E a).
  rewrite !runes_EncodeRune, IH by exact Ha. reflexivity.
Qed.

Lemma fractions_ascii (r : rune) (replacement : string) :
  map_lookup fractions r = Some replacement -> ascii_only replacement = true.
Proof.
  unfold fractions. cbn [map_lookup].
  repeat match goal with
         | |- context [?k =? r] => destruct (k =? r)
         end; intros H; inversion H; reflexivity.
Qed.

Lemma fractions_valid (r : rune) :
  ValidRune r = false -> map_lookup fractions r = None.
Proof.
  intros V. unfold fractions. cbn [map_lookup].
  repeat match goal with
         | |- context [?k =? r] =>
             destruct (Z.eqb_spec k r); [subst r; discriminate V|]
         end.
  reflexivity.
Qed.

Lemma valid_or_error_id (r : rune) :
  ValidRune r = true -> valid_or_error r = r.
Proof. unfold valid_or_error. now intros ->. Qed.

Lemma replace_glyph_valid_or_error (r : rune) :
  replace_glyph (valid_or_error r) = replace_glyph r.
Proof.
  unfold valid_or_error. destruct (ValidRune r) eqn:V; [reflexivity|].
  unfold replace_glyph. rewrite (fractions_valid r V).
  now rewrite (EncodeRune_invalid r V).
Qed.

Lemma runes_concat_replace (l : list rune) :
  Forall (fun r => ValidRune r = true) l ->
  runes (concat_strings (map replace_glyph l)) = flat_map glyph_runes l.
Proof.
  induction 1 as [|r l V _ IH]; [reflexivity|].
  cbn [map concat_strings fold_right flat_map].
  fold (concat_strings (map replace_glyph l)).
  unfold replace_glyph at 1, glyph_runes at 1.
  destruct (map_lookup fractions r) as [replacement|] eqn:L.
  - rewrite runes_ascii_app by (eapply fractions_ascii; exact L).
    now rewrite IH.
  - rewrite runes_EncodeRune, valid_or_error_id by exact V. now rewrite IH.
Qed.

Lemma EncodeRune_ascii (c : ascii) :
  byte_val c < RuneSelf -> EncodeRune (byte_val c) = String c "".
Proof.
  unfold RuneSelf. intros H. pose proof (byte_val_range c) as Hr.
  unfold EncodeRune.
  destruct (Z.leb_spec 0 (byte_val c)); [|lia].
  destruct (Z.leb_spec (byte_val c) 127); [|lia].
  cbn [andb]. now rewrite byte_of_val.
Qed.

Lemma fractions_not_ascii (r : rune) :
  r < RuneSelf -> map_lookup fractions r = None.
Proof.
  unfold RuneSelf. intros H. unfold fractions. cbn [map_lookup].
  repeat match goal with
         | |- context [?k =? r] => destruct (Z.eqb_spec k r); [lia|]
         end.
  reflexivity.
Qed.

(** A text without a byte above ASCII is returned as it is. *)
Lemma ConvertFractions_ascii (s : string) :
  ascii_only s = true -> ConvertFractions s = s.
Proof.
  intros H. rewrite ConvertFractions_runes.
  induction s as [|c s IH]; [reflexivity|].
  cbn [ascii_only] in H. apply andb_true_iff in H as [Hc Hs].
  apply Z.ltb_lt in Hc.
  change (String c s) with (String c "" ++ s)%string at 1.
  rewrite <- (EncodeRune_ascii c Hc), runes_EncodeRune.
  rewrite valid_or_error_id
    by (apply ValidRune_iff; pose proof (byte_val_range c);
        unfold RuneSelf in Hc; lia).
  cbn [map concat_strings fold_right].
  fold (concat_strings (map replace_glyph (runes s))).
  rewrite (IH Hs). unfold replace_glyph.
  rewrite fractions_not_ascii by exact Hc.
  now rewrite EncodeRune_ascii by exact Hc.
Qed.

(** C5: [ConvertFractions] replaces each of the fifteen fraction
    glyphs by its ASCII text and leaves every other character as it is,
    adding no space. Read as characters, the output is the input with
    each glyph replaced; on the text of any sequence of runes the output
    is, byte for byte, the replacements and the other runes as they were
    written, and an ASCII text is returned as it is. The table holds the
    fifteen glyphs of the specification. *)
Theorem ConvertFractions_replaces_glyphs :
  (forall input : string,
      runes (ConvertFractions input) = flat_map glyph_runes (runes input))
  /\ (forall rs : list rune,
        ConvertFractions (string_of_runes rs)
        = concat_strings (map replace_glyph rs))
  /\ (forall s : string, ascii_only s = true -> ConvertFractions s = s)
  /\ map (fun kv => (EncodeRune (fst kv), snd kv)) fractions
     = [("¼", "1/4"); ("½", "1/2"); ("¾", "3/4"); ("⅓", "1/3");
        ("⅔", "2/3"); ("⅕", "1/5"); ("⅖", "2/5"); ("⅗", "3/5");
        ("⅘", "4/5"); ("⅙", "1/6"); ("⅚", "5/6"); ("⅛", "1/8");
        ("⅜", "3/8"); ("⅝", "5/8"); ("⅞", "7/8")]
  /\ ConvertFractions "1½ cups" = "11/2 cups"
  /\ ConvertFractions "no fractions" = "no fractions".
Proof.
  split; [|split; [|split; [|split; [|split]]]].
  - intros input. rewrite ConvertFractions_runes.
    apply runes_concat_replace, runes_valid.
  - intros rs. rewrite ConvertFractions_runes, runes_string_of_runes.
    rewrite map_map. f_equal. apply map_ext, replace_glyph_valid_or_error.
  - exact ConvertFractions_ascii.
  - vm_compute. reflexivity.
  - vm_compute. reflexivity.
  - vm_compute. reflexivity.
Qed.

Lemma ConvertFractions_replaces_glyphs_witness :
  ConvertFractions "2 cups flour" = "2 cups flour".
Proof.
  destruct ConvertFractions_replaces_glyphs as (_ & _ & Hascii & _).
  apply Hascii. reflexivity.
Defined.

End Utf8Facts.

(* ===================================================================== *)
(** * Properties of the duration parser *)
(* ===================================================================== *)

Section DurationExamples.

Import Time.

(** C4: [ParseISODuration] gives 0 s for "PT0S", 86400 s for "P1DT"
    (nothing need follow the [T]), 5400 s for "PT1H30M", 1.5 s for
    "PT1.5S", and fails on "1DT0S", which lacks the leading [P]. *)
Theorem ParseISODuration_examples :
  ParseISODuration "PT0S" = Ok 0
  /\ ParseISODuration "P1DT" = Ok (86400 * Second)
  /\ ParseISODuration "PT1H30M" = Ok (5400 * Second)
  /\ ParseISODuration "PT1.5S" = Ok (1500 * Millisecond)
  /\ ParseISODuration "1DT0S"
     = Err (errorString "input string is of incorrect format").
Proof. repeat split; vm_compute; reflexivity. Qed.

(** C1, as the code has it: "P1Y1M1DT1H" parses to 90000 s, the day
    and the hour; the year and the month add nothing: the result is that
    of "P1DT1H", and so is the result of "P7Y11M1DT1H"; without the
    day, "P1Y1MT1H" gives 3600 s. *)
Theorem ParseISODuration_year_month_ignored :
  ParseISODuration "P1Y1M1DT1H" = Ok (90000 * Second)
  /\ ParseISODuration "P1Y1M1DT1H" = ParseISODuration "P1DT1H"
  /\ ParseISODuration "P7Y11M1DT1H" = ParseISODuration "P1DT1H"
  /\ ParseISODuration "P1Y1MT1H" = Ok (3600 * Second).
Proof. repeat split; vm_compute; reflexivity. Qed.

(** C1 as stated fails: the result is not 3600 s, the day counts. *)
Lemma ParseISODuration_P1Y1M1DT1H_not_3600s :
  ParseISODuration "P1Y1M1DT1H" <> Ok (3600 * Second).
Proof. vm_compute. discriminate. Qed.

End DurationExamples.

Section DurationErrors.

Lemma result_cases {A} (r : result A) :
  (exists a, r = Ok a) \/ (exists e, r = Err e).
Proof. destruct r; [left | right]; eexists; reflexivity. Qed.

Lemma FindStringSubmatch_length re s matches :
  FindStringSubmatch re s = Some matches ->
  List.length matches = S (NumSubexp re).
Proof.
  unfold FindStringSubmatch.
  destruct (search re 0 (range s)) as [[start st]|]; [|discriminate].
  intros H; injection H as <-.
  cbn [List.length]. now rewrite length_map, length_seq.
Qed.

Lemma bind_Err {A B} (e : error) (k : A -> result B) :
  bind (Err e) k = Err e.
Proof. reflexivity. Qed.

(** C8: [ParseISODuration] returns a duration or an error on every
    string. It returns the format error when the expression does not
    match; when it matches, the slice of matches has the seven entries
    the code indexes, and a captured group among days, hours, minutes
    and seconds that [ParseFloat] rejects makes the call return an
    error. The last case does occur: "PT1x5S" matches and its seconds
    group "1x5" is no number. *)
Theorem ParseISODuration_total (s : string) :
  ((exists d, ParseISODuration s = Ok d)
   \/ (exists e, ParseISODuration s = Err e))
  /\ (FindStringSubmatch isoDurationRe s = None ->
      ParseISODuration s
      = Err (errorString "input string is of incorrect format"))
  /\ (forall matches,
        FindStringSubmatch isoDurationRe s = Some matches ->
        List.length matches = 7%nat
        /\ forall i e,
             (3 <= i <= 6)%nat ->
             index matches i <> "" ->
             Strconv.ParseFloat32 (index matches i) = Err e ->
             exists e', ParseISODuration s = Err e')
  /\ ParseISODuration "PT1x5S" = Err (NumError "ParseFloat" "1x5" false).
Proof.
  split; [apply result_cases|].
  split.
  { intros H. unfold ParseISODuration. now rewrite H. }
  split; [|vm_compute; reflexivity].
  intros matches H. split.
  { apply FindStringSubmatch_length in H. exact H. }
  intros i e Hi Hne Herr.
  unfold ParseISODuration. rewrite H.
  assert (Hnb : (index matches i =? "")%string = false)
    by (apply String.eqb_neq; exact Hne).
  assert (Hc : i = 3%nat \/ i = 4%nat \/ i = 5%nat \/ i = 6%nat) by lia.
  destruct (index matches 3 =? "")%string eqn:E3; cbn [negb];
    [|destruct (Strconv.ParseFloat32 (index matches 3)) eqn:P3;
      [|eexists; reflexivity]];
    (destruct (index matches 4 =? "")%string eqn:E4; cbn [negb bind];
     [|destruct (Strconv.ParseFloat32 (index matches 4)) eqn:P4;
       [|eexists; reflexivity]]);
    (destruct (index matches 5 =? "")%string eqn:E5; cbn [negb bind];
     [|destruct (Strconv.ParseFloat32 (index matches 5)) eqn:P5;
       [|eexists; reflexivity]]);
    (destruct (index matches 6 =? "")%string eqn:E6; cbn [negb bind];
     [|destruct (Strconv.ParseFloat32 (index matches 6)) eqn:P6;
       [|eexists; reflexivity]]);
    exfalso; destruct Hc as [->|[->|[->| ->]]]; congruence.
Qed.

Lemma ParseISODuration_total_witness :
  FindStringSubmatch isoDurationRe "soon" = None
  /\ ParseISODuration "soon"
     = Err (errorString "input string is of incorrect format").
Proof.
  split; [vm_compute; reflexivity|].
  apply (ParseISODuration_total "soon"). vm_compute; reflexivity.
Defined.

End DurationErrors.

(* ===================================================================== *)
(** * Properties of the extractors and of the model builder *)
(* ===================================================================== *)

Section Builder.

Import Time.

Lemma Text_one (n : Node) : Text [n] = node_text n.
Proof. cbn. apply append_nil_r. Qed.

(** What [ExtractRecipeMetadata] leaves in each field, one lemma per
    field. *)
Lemma Favorited_ExtractRecipeMetadata (s : RecipeNode) :
  Favorited (ExtractRecipeMetadata s)
  = (ItemPropContentOr s "recipeIsFavourite" "False" =? "True")%string.
Proof.
  unfold ExtractRecipeMetadata.
  destruct (Strconv.Atoi _);
    destruct (ParseISODuration (Strings.TrimSpace _));
    destruct (ParseISODuration (ItemPropContentOr _ _ _)); reflexivity.
Qed.

Lemma PrepTime_ExtractRecipeMetadata (s : RecipeNode) :
  PrepTime (ExtractRecipeMetadata s)
  = match ParseISODuration
            (Strings.TrimSpace (ItemPropContentOr s "prepTime" "PT50S")) with
    | Ok prepDuration => prepDuration
    | Err _ => 0
    end.
Proof.
  unfold ExtractRecipeMetadata.
  destruct (Strconv.Atoi _);
    destruct (ParseISODuration (Strings.TrimSpace _));
    destruct (ParseISODuration (ItemPropContentOr _ _ _)); reflexivity.
Qed.

Lemma CookTime_ExtractRecipeMetadata (s : RecipeNode) :
  CookTime (ExtractRecipeMetadata s)
  = match ParseISODuration (ItemPropContentOr s "cookTime" "PT0S") with
    | Ok cookDuration => cookDuration
    | Err _ => 0
    end.
Proof.
  unfold ExtractRecipeMetadata.
  destruct (Strconv.Atoi _);
    destruct (ParseISODuration (Strings.TrimSpace _));
    destruct (ParseISODuration (ItemPropContentOr _ _ _)); reflexivity.
Qed.

Lemma CategoryList_ExtractRecipeMetadata (s : RecipeNode) :
  CategoryList (ExtractRecipeMetadata s)
  = ItemPropContentList s "recipeCategory".
Proof.
  unfold ExtractRecipeMetadata.
  destruct (Strconv.Atoi _);
    destruct (ParseISODuration (Strings.TrimSpace _));
    destruct (ParseISODuration (ItemPropContentOr _ _ _)); reflexivity.
Qed.

Lemma CollectionList_ExtractRecipeMetadata (s : RecipeNode) :
  CollectionList (ExtractRecipeMetadata s)
  = ItemPropContentList s "recipeCollection".
Proof.
  unfold ExtractRecipeMetadata.
  destruct (Strconv.Atoi _);
    destruct (ParseISODuration (Strings.TrimSpace _));
    destruct (ParseISODuration (ItemPropContentOr _ _ _)); reflexivity.
Qed.

Lemma CourseList_ExtractRecipeMetadata (s : RecipeNode) :
  CourseList (ExtractRecipeMetadata s) = ExtractRecipeCourses s.
Proof.
  unfold ExtractRecipeMetadata.
  destruct (Strconv.Atoi _);
    destruct (ParseISODuration (Strings.TrimSpace _));
    destruct (ParseISODuration (ItemPropContentOr _ _ _)); reflexivity.
Qed.

(** The first [meta] child that carries the property decides
    [ItemPropContentOr]. *)
Lemma ItemPropContentOr_first_meta (propName content dflt : string)
    (rest : list Node) :
  ItemPropContentOr (fragment (meta propName content :: rest))
    propName dflt = content.
Proof.
  unfold ItemPropContentOr, ItemPropAttrOr, ItemProp, Find, fragment.
  cbn [root children_of flat_map meta is_element MatchAll].
  unfold itemprop_selector. cbn [String.eqb Ascii.eqb Bool.eqb].
  unfold match_and, match_tag, match_attr_eq.
  cbn [existsb fst snd String.eqb Ascii.eqb Bool.eqb andb orb].
  rewrite String.eqb_refl. cbn. reflexivity.
Qed.

Lemma ItemPropContentOr_absent (s : RecipeNode) (propName dflt : string) :
  ItemProp s "meta" propName = [] ->
  ItemPropContentOr s propName dflt = dflt.
Proof.
  unfold ItemPropContentOr, ItemPropAttrOr. intros ->. reflexivity.
Qed.

(** C6: the recipe is a favourite exactly when the content read for
    [recipeIsFavourite] is the string "True"; a fragment whose flag
    reads "true", "TRUE" or "false" is no favourite, and neither is one
    without the flag. *)
Theorem Favorited_iff_content_True :
  (forall s : RecipeNode,
      Favorited (ExtractRecipeMetadata s) = true
      <-> ItemPropContentOr s "recipeIsFavourite" "False" = "True")
  /\ (forall (content : string) (rest : list Node),
        Favorited (ExtractRecipeMetadata
                     (fragment (meta "recipeIsFavourite" content :: rest)))
        = true
        <-> content = "True")
  /\ Favorited (ExtractRecipeMetadata
                  (fragment [meta "recipeIsFavourite" "true"])) = false
  /\ Favorited (ExtractRecipeMetadata
                  (fragment [meta "recipeIsFavourite" "TRUE"])) = false
  /\ Favorited (ExtractRecipeMetadata
                  (fragment [meta "recipeIsFavourite" "false"])) = false
  /\ Favorited (ExtractRecipeMetadata (fragment [])) = false.
Proof.
  split; [|split].
  - intros s. rewrite Favorited_ExtractRecipeMetadata.
    apply String.eqb_eq.
  - intros content rest. rewrite Favorited_ExtractRecipeMetadata.
    rewrite ItemPropContentOr_first_meta. apply String.eqb_eq.
  - repeat split; rewrite Favorited_ExtractRecipeMetadata;
      vm_compute; reflexivity.
Qed.

(** C2 as stated fails: with a [prepTime] content that is no ISO
    duration the recipe's prep time is 0 s, not 50 s. *)
Lemma PrepTime_unparseable_is_not_50s :
  ItemPropContentOr fragment_prepTime_soon "prepTime" "PT50S" = "soon"
  /\ ParseISODuration (Strings.TrimSpace "soon")
     = Err (errorString "input string is of incorrect format")
  /\ PrepTime (ExtractRecipeMetadata fragment_prepTime_soon) = 0
  /\ PrepTime (ExtractRecipeMetadata fragment_prepTime_soon)
     <> 50 * Second.
Proof.
  repeat split; try (vm_compute; reflexivity).
  vm_compute. discriminate.
Qed.

(** C2, as the code has it: without a [prepTime] property the prep
    time is 50 s, and with a content that does not parse (once trimmed)
    it is 0 s; the cook time is 0 s without a [cookTime] property and
    with a content that does not parse. *)
Theorem duration_defaults (s : RecipeNode) :
  (ItemProp s "meta" "prepTime" = [] ->
   PrepTime (ExtractRecipeMetadata s) = 50 * Second)
  /\ (forall e,
        ParseISODuration
          (Strings.TrimSpace (ItemPropContentOr s "prepTime" "PT50S"))
        = Err e ->
        PrepTime (ExtractRecipeMetadata s) = 0)
  /\ (ItemProp s "meta" "cookTime" = [] ->
      CookTime (ExtractRecipeMetadata s) = 0)
  /\ (forall e,
        ParseISODuration (ItemPropContentOr s "cookTime" "PT0S") = Err e ->
        CookTime (ExtractRecipeMetadata s) = 0).
Proof.
  split; [|split; [|split]].
  - intros H. rewrite PrepTime_ExtractRecipeMetadata.
    rewrite (ItemPropContentOr_absent _ _ _ H). vm_compute. reflexivity.
  - intros e H. rewrite PrepTime_ExtractRecipeMetadata. now rewrite H.
  - intros H. rewrite CookTime_ExtractRecipeMetadata.
    rewrite (ItemPropContentOr_absent _ _ _ H). vm_compute. reflexivity.
  - intros e H. rewrite CookTime_ExtractRecipeMetadata. now rewrite H.
Qed.

Lemma duration_defaults_witness :
  PrepTime (ExtractRecipeMetadata (fragment [])) = 50 * Second
  /\ PrepTime (ExtractRecipeMetadata fragment_prepTime_soon) = 0
  /\ CookTime (ExtractRecipeMetadata (fragment [])) = 0
  /\ CookTime (ExtractRecipeMetadata (fragment [meta "cookTime" "soon"]))
     = 0.
Proof.
  destruct (duration_defaults (fragment [])) as (P0 & _ & C0 & _).
  destruct (duration_defaults fragment_prepTime_soon) as (_ & P1 & _ & _).
  destruct (duration_defaults (fragment [meta "cookTime" "soon"]))
    as (_ & _ & _ & C1).
  split; [|split; [|split]].
  - apply P0. reflexivity.
  - apply P1 with (e := errorString "input string is of incorrect format").
    vm_compute. reflexivity.
  - apply C0. reflexivity.
  - apply C1 with (e := errorString "input string is of incorrect format").
    vm_compute. reflexivity.
Defined.

End Builder.

Section Lists.

(** A loop that appends to a slice or leaves it: the slice holds what
    it held, then what each round added, in the order of the rounds. *)
Lemma Each_append (sel : Selection) (g : Node -> list string)
    (f : slice string -> Selection -> slice string) (init : list string) :
  (forall st n, f (Some st) [n] = Some (st ++ g n)%list) ->
  Each sel f (Some init) = Some (init ++ flat_map g sel)%list.
Proof.
  intros Hf. unfold Each. revert init.
  induction sel as [|n sel IH]; intros init; cbn.
  - now rewrite app_nil_r.
  - rewrite Hf, IH. now rewrite <- app_assoc.
Qed.

Lemma ItemPropContentList_spec (s : RecipeNode) (propName : string) :
  ItemPropContentList s propName
  = Some (contents_in_order (ItemProp s "meta" propName)).
Proof.
  unfold ItemPropContentList, make0, contents_in_order.
  rewrite Each_append with (g := fun n =>
    let content := AttrOr [n] "content" "" in
    if (content =? "")%string then [] else [content]).
  - reflexivity.
  - intros st n. cbv zeta.
    destruct (AttrOr [n] "content" "" =? "")%string; cbn.
    + now rewrite app_nil_r.
    + reflexivity.
Qed.

Lemma ExtractRecipeCourses_spec (s : RecipeNode) :
  ExtractRecipeCourses s
  = Some (courses_in_order (ItemProp s "" "recipeCourse")).
Proof.
  unfold ExtractRecipeCourses, make0, courses_in_order.
  rewrite Each_append with (g := fun n =>
    match course_value n with
    | Some v => if (v =? "")%string then [] else [v]
    | None => []
    end).
  - reflexivity.
  - intros st n. unfold course_value, Is. cbn [existsb].
    rewrite !orb_false_r, Text_one.
    destruct (match_tag "span" n).
    + destruct (node_text n =? "")%string; cbn;
        [now rewrite app_nil_r | reflexivity].
    + destruct (match_tag "meta" n).
      * destruct (AttrOr [n] "content" "" =? "")%string; cbn;
          [now rewrite app_nil_r | reflexivity].
      * now rewrite app_nil_r.
Qed.

Lemma ExtractRecipePhotos_not_nil (s : RecipeNode) :
  is_nil (ExtractRecipePhotos s) = false.
Proof.
  unfold ExtractRecipePhotos, make0.
  rewrite Each_append with (g := fun n =>
    let img_src := AttrOr [n] "src" "" in
    if (img_src =? "")%string then [] else [img_src]).
  - reflexivity.
  - intros st n. cbv zeta.
    destruct (AttrOr [n] "src" "" =? "")%string; cbn;
      [now rewrite app_nil_r | reflexivity].
Qed.

Lemma ItemPropChildrenText_not_nil (s : RecipeNode) (propName : string) :
  is_nil (ItemPropChildrenText s propName) = false.
Proof.
  unfold ItemPropChildrenText, make0.
  rewrite Each_append with (g := fun n =>
    let partext := ConvertFractions (Strings.TrimSpace (Text [n])) in
    if (partext =? "")%string then [] else [partext]).
  - reflexivity.
  - intros st n. cbv zeta.
    destruct (ConvertFractions (Strings.TrimSpace (Text [n])) =? "")%string;
      cbn; [now rewrite app_nil_r | reflexivity].
Qed.

(** C9: every list field of a built recipe is a slice that is not
    [nil]: the photo paths, the ingredient, instruction and notes lines,
    the category, collection and course lists. [ItemPropContentList]
    (the specification's [metaContentList]) never returns [nil], and on
    a fragment with no matching node it returns the empty slice. *)
Theorem list_fields_not_nil :
  (forall s : RecipeNode,
      let r := ExtractRecipe s in
      is_nil (PhotoPaths r) = false
      /\ is_nil (IngredientLines r) = false
      /\ is_nil (InstructionLines r) = false
      /\ is_nil (NotesLines r) = false
      /\ is_nil (CategoryList (Metadata r)) = false
      /\ is_nil (CollectionList (Metadata r)) = false
      /\ is_nil (CourseList (Metadata r)) = false)
  /\ (forall (s : RecipeNode) (propName : string),
        is_nil (ItemPropContentList s propName) = false)
  /\ (forall (s : RecipeNode) (propName : string),
        ItemProp s "meta" propName = [] ->
        ItemPropContentList s propName = Some []).
Proof.
  split; [|split].
  - intros s r. subst r. cbn [ExtractRecipe PhotoPaths IngredientLines
      InstructionLines NotesLines Metadata].
    rewrite CategoryList_ExtractRecipeMetadata,
      CollectionList_ExtractRecipeMetadata,
      CourseList_ExtractRecipeMetadata.
    rewrite ExtractRecipePhotos_not_nil, !ItemPropChildrenText_not_nil.
    rewrite !ItemPropContentList_spec, ExtractRecipeCourses_spec.
    repeat split.
  - intros s propName. now rewrite ItemPropContentList_spec.
  - intros s propName H. rewrite ItemPropContentList_spec, H. reflexivity.
Qed.

Lemma list_fields_not_nil_witness :
  ItemPropContentList (fragment [span "recipeCategory" "Soups"])
    "recipeCategory" = Some []
  /\ is_nil (CategoryList (Metadata (ExtractRecipe (fragment [])))) = false.
Proof.
  destruct list_fields_not_nil as (Hall & _ & Hzero).
  split.
  - apply Hzero. reflexivity.
  - apply (Hall (fragment [])).
Defined.

Lemma Find_app (tag : string) (attr : list (string * string))
    (cs1 cs2 : list Node) (m : Matcher) :
  Find (ElementNode tag attr (cs1 ++ cs2)) m
  = (Find (ElementNode tag attr cs1) m
     ++ Find (ElementNode tag attr cs2) m)%list.
Proof. unfold Find. cbn [children_of]. apply flat_map_app. Qed.

(** C7: [ExtractRecipeCourses] returns the course values of the nodes
    that carry [recipeCourse], in the order the document has them: the
    text of a [span], the [content] of a [meta], empty values left out.
    The courses of a fragment are those of its first children followed
    by those of its later children; a [meta] "Dinner" before a [span]
    "Quick" gives Dinner, Quick, and the other order gives Quick,
    Dinner. *)
Theorem ExtractRecipeCourses_document_order :
  (forall s : RecipeNode,
      ExtractRecipeCourses s
      = Some (courses_in_order (ItemProp s "" "recipeCourse")))
  /\ (forall cs1 cs2 : list Node,
        elems (ExtractRecipeCourses (fragment (cs1 ++ cs2)))
        = (elems (ExtractRecipeCourses (fragment cs1))
           ++ elems (ExtractRecipeCourses (fragment cs2)))%list)
  /\ ExtractRecipeCourses
       (fragment [meta "recipeCourse" "Dinner"; span "recipeCourse" "Quick"])
     = Some ["Dinner"; "Quick"]
  /\ ExtractRecipeCourses
       (fragment [span "recipeCourse" "Quick"; meta "recipeCourse" "Dinner"])
     = Some ["Quick"; "Dinner"]
  /\ ExtractRecipeCourses
       (fragment [meta "recipeCourse" ""; span "recipeCourse" "";
                  ElementNode "div" []
                    [span "recipeCourse" "Quick";
                     ElementNode "p" [("itemprop", "recipeCourse")]
                       [TextNode "Lunch"];
                     meta "recipeCourse" "Dinner"]])
     = Some ["Quick"; "Dinner"].
Proof.
  split; [exact ExtractRecipeCourses_spec|].
  split.
  - intros cs1 cs2. rewrite !ExtractRecipeCourses_spec. cbn [elems].
    unfold ItemProp, fragment. cbn [root]. rewrite Find_app.
    unfold courses_in_order. apply flat_map_app.
  - repeat split; vm_compute; reflexivity.
Qed.

End Lists.

(* ===================================================================== *)
(** * Properties of the renderer *)
(* ===================================================================== *)

Section Renderer.

Lemma WriteString_if (output : Builder) (present : bool) (line : string) :
  (if present then WriteString output line else output)
  = WriteString output (if present then line else "").
Proof.
  unfold WriteString. destruct present; [reflexivity|].
  now rewrite append_nil_r.
Qed.

Lemma write_each_concat (output : Builder) (xs : slice string)
    (f : string -> string) :
  write_each output xs f
  = (output ++ String.concat "" (map f (elems xs)))%string.
Proof.
  unfold write_each, WriteString. generalize (elems xs) as l.
  intros l. revert output. induction l as [|x l IH]; intros output.
  - cbn. now rewrite append_nil_r.
  - cbn [fold_left map]. rewrite IH, append_assoc. f_equal.
    destruct l as [|y l]; cbn; [now rewrite append_nil_r | reflexivity].
Qed.

(** The text [FormatAsRecipeMD] builds, block by block: every block
    starts with its blank line, whether it then holds a line or not. *)
Lemma FormatAsRecipeMD_blocks (r : Recipe) :
  FormatAsRecipeMD r
  = ("# " ++ Title r ++ nl
     ++ nl ++ rating_line r ++ collections_line r ++ course_line r
     ++ nl ++ source_line r
     ++ nl ++ cook_time_line r ++ prep_time_line r
     ++ after_times r)%string.
Proof.
  unfold FormatAsRecipeMD. cbv zeta. fold nl.
  rewrite !WriteString_if, write_each_concat.
  fold (rating_line r) (collections_line r) (course_line r) (source_line r)
    (cook_time_line r) (prep_time_line r) (category_line r) (yield_line r)
    (ingredient_lines r).
  unfold after_times, notes_block, WriteString.
  destruct (0 <? len (NotesLines r))%nat;
    rewrite ?append_assoc; cbn [String.append];
    rewrite ?append_nil_r; reflexivity.
Qed.

Lemma ltb_lt_iff (d : Z) : (0 <? d) = true <-> 0 < d.
Proof. apply Z.ltb_lt. Qed.

(** C3: a recipe with rating 0 and no collection and no course renders
    as the title line, the blank line of the rating block with no line
    after it, then the later blocks, each behind its own blank line: the
    source block, the time block, and the rest. The cook time line is
    there exactly when the cook time is above zero, and so is the prep
    time line; a block without a line leaves two blank lines in a row:
    with no source the time lines come after the title line and three
    blank lines, those of the two blocks without a line and the time
    block's own. *)
Theorem FormatAsRecipeMD_skips_empty_blocks (r : Recipe) :
  Rating (Metadata r) = 0 ->
  len (CollectionList (Metadata r)) = 0%nat ->
  len (CourseList (Metadata r)) = 0%nat ->
  FormatAsRecipeMD r
  = ("# " ++ Title r ++ nl
     ++ nl
     ++ nl ++ source_line r
     ++ nl ++ cook_time_line r ++ prep_time_line r
     ++ after_times r)%string
  /\ (0 < CookTime (Metadata r) ->
      cook_time_line r
      = ("Cook Time: " ++ Time.String_ (CookTime (Metadata r)) ++ nl)%string)
  /\ (CookTime (Metadata r) <= 0 -> cook_time_line r = "")
  /\ (0 < PrepTime (Metadata r) ->
      prep_time_line r
      = ("Prep Time: " ++ Time.String_ (PrepTime (Metadata r)) ++ nl)%string)
  /\ (PrepTime (Metadata r) <= 0 -> prep_time_line r = "")
  /\ (Source (Metadata r) = "" ->
      FormatAsRecipeMD r
      = ("# " ++ Title r ++ nl
         ++ nl ++ nl ++ nl ++ cook_time_line r ++ prep_time_line r
         ++ after_times r)%string)
  /\ (Source (Metadata r) = "" ->
      CookTime (Metadata r) <= 0 -> PrepTime (Metadata r) <= 0 ->
      FormatAsRecipeMD r
      = ("# " ++ Title r ++ nl ++ nl ++ nl ++ nl ++ after_times r)%string).
Proof.
  intros Hrating Hcoll Hcourse.
  assert (Hshape :
    FormatAsRecipeMD r
    = ("# " ++ Title r ++ nl
       ++ nl
       ++ nl ++ source_line r
       ++ nl ++ cook_time_line r ++ prep_time_line r
       ++ after_times r)%string).
  { rewrite FormatAsRecipeMD_blocks.
    unfold rating_line, collections_line, course_line.
    rewrite Hrating, Hcoll, Hcourse. reflexivity. }
  assert (Hcook_off : CookTime (Metadata r) <= 0 -> cook_time_line r = "").
  { intros H. unfold cook_time_line.
    destruct (0 <? CookTime (Metadata r)) eqn:E; [|reflexivity].
    apply Z.ltb_lt in E. lia. }
  assert (Hprep_off : PrepTime (Metadata r) <= 0 -> prep_time_line r = "").
  { intros H. unfold prep_time_line.
    destruct (0 <? PrepTime (Metadata r)) eqn:E; [|reflexivity].
    apply Z.ltb_lt in E. lia. }
  split; [exact Hshape|].
  split.
  { intros H. unfold cook_time_line.
    apply Z.ltb_lt in H. now rewrite H. }
  split; [exact Hcook_off|].
  split.
  { intros H. unfold prep_time_line.
    apply Z.ltb_lt in H. now rewrite H. }
  split; [exact Hprep_off|].
  split.
  { intros Hsrc. rewrite Hshape. unfold source_line. rewrite Hsrc.
    reflexivity. }
  intros Hsrc Hc Hp. rewrite Hshape.
  rewrite (Hcook_off Hc), (Hprep_off Hp).
  unfold source_line. rewrite Hsrc. reflexivity.
Qed.

Lemma FormatAsRecipeMD_skips_empty_blocks_witness :
  FormatAsRecipeMD bare_recipe
  = ("# Soup" ++ nl ++ nl ++ nl ++ nl ++ nl ++ nl
     ++ nl ++ "---" ++ nl ++ nl
     ++ "- 1 cup broth" ++ nl
     ++ nl ++ "---" ++ nl ++ nl
     ++ "### Instructions" ++ nl ++ nl
     ++ "Boil." ++ nl ++ "Serve." ++ nl)%string.
Proof.
  pose proof (FormatAsRecipeMD_skips_empty_blocks bare_recipe
                eq_refl eq_refl eq_refl) as H.
  destruct H as (_ & _ & _ & _ & _ & _ & H).
  rewrite H.
  - reflexivity.
  - reflexivity.
  - apply Z.le_refl.
  - apply Z.le_refl.
Defined.

End Renderer.
(* ===================================================================== *)
(** * What the duration expression matches *)
(* ===================================================================== *)

Section RegexpFacts.

Lemma plus_loop_sound {R} (c : class) (ts : list token) (p : nat)
    (k : nat -> list token -> option R) (res : R) :
  plus_loop c ts p k = Some res ->
  exists w p' ts',
    w <> [] /\ ts = (w ++ ts')%list
    /\ Forall (fun t => class_matches c (tok_rune t) = true) w
    /\ k p' ts' = Some res.
Proof.
  revert p. induction ts as [|t ts IH]; intros p; cbn [plus_loop].
  - discriminate.
  - destruct (class_matches c (tok_rune t)) eqn:M; [|discriminate].
    destruct (plus_loop c ts (p + tok_len t) k) as [r|] eqn:L.
    + intros H. injection H as <-.
      destruct (IH _ L) as (w & p' & ts' & Hw & -> & Hall & Hk).
      exists (t :: w), p', ts'. repeat split; try easy.
      constructor; assumption.
    + intros Hk. exists [t], (p + tok_len t)%nat, ts.
      repeat split; try easy. constructor; [assumption|constructor].
Qed.

(** The matcher only finds what the expression means. *)
Lemma run_sound {R} (re : regex) :
  forall (st : mstate) (k : mstate -> option R) (res : R),
    run re st k = Some res ->
    exists st', reach re (pos st) (rest st) (pos st') (rest st')
                /\ k st' = Some res.
Proof.
  induction re as [| |c|c|a IHa b IHb|a IHa|i a IHa];
    intros st k res; cbn [run reach].
  - destruct (pos st =? 0)%nat eqn:E; [|discriminate].
    apply Nat.eqb_eq in E. intros H. exists st. auto.
  - destruct (rest st) eqn:E; [|discriminate].
    intros H. exists st. rewrite E. auto.
  - destruct (rest st) as [|t ts] eqn:E; [discriminate|].
    destruct (class_matches c (tok_rune t)) eqn:M; [|discriminate].
    intros H. eexists. split; [|exact H]. cbn. exists t. auto.
  - intros H. apply plus_loop_sound in H.
    destruct H as (w & p' & ts' & Hw & E & Hall & Hk).
    eexists. split; [|exact Hk]. cbn. exists w. auto.
  - intros H. apply IHa in H. destruct H as (sm & Ha & H).
    apply IHb in H. destruct H as (st' & Hb & H).
    exists st'. split; [|exact H]. eauto.
  - destruct (run a st k) as [r|] eqn:E.
    + intros H. injection H as <-. apply IHa in E.
      destruct E as (st' & Ha & H). exists st'. auto.
    + intros H. exists st. auto.
  - intros H. apply IHa in H. destruct H as (st' & Ha & H).
    eexists. split; [|exact H]. exact Ha.
Qed.

Lemma reach_suffix (re : regex) :
  forall p ts p' ts', reach re p ts p' ts' -> exists w, ts = (w ++ ts')%list.
Proof.
  induction re as [| |c|c|a IHa b IHb|a IHa|i a IHa];
    intros p ts p' ts'; cbn [reach].
  - intros (_ & _ & ->). now exists [].
  - intros (_ & _ & ->). now exists [].
  - intros (t & -> & _). now exists [t].
  - intros (w & _ & -> & _). now exists w.
  - intros (pm & tm & Ha & Hb).
    apply IHa in Ha as (w1 & ->). apply IHb in Hb as (w2 & ->).
    exists (w1 ++ w2)%list. now rewrite app_assoc.
  - intros [H | (_ & ->)]; [now apply IHa in H | now exists []].
  - apply IHa.
Qed.

(** An optional group closed by a letter consumes nothing, or runes
    the last of which is the letter. *)
Lemma reach_optional_letter (body : regex) (x : rune) p ts p' ts' :
  reach (Quest (Cat body (One (ClassLit x)))) p ts p' ts' ->
  ts' = ts \/ exists w t, ts = (w ++ t :: ts')%list /\ tok_rune t = x.
Proof.
  cbn [reach]. intros [(pm & tm & Hb & (t & -> & M & _)) | (_ & ->)].
  - right. apply reach_suffix in Hb as (w & ->).
    exists w, t. split; [reflexivity|]. now apply Z.eqb_eq in M.
  - now left.
Qed.

Lemma ends_in_app (letters : list rune) (a b : list token) :
  ends_in letters b -> ends_in letters (a ++ b).
Proof.
  intros (pre & t & -> & H). exists (a ++ pre)%list, t.
  split; [now rewrite app_assoc | exact H].
Qed.

Lemma ends_in_cons (letters : list rune) (t : token) (b : list token) :
  ends_in letters b -> ends_in letters (t :: b).
Proof. apply (ends_in_app letters [t]). Qed.

Lemma ends_in_last (letters : list rune) (w : list token) (t : token) :
  In (tok_rune t) letters -> ends_in letters (w ++ [t]).
Proof. intros H. now exists w, t. Qed.

Lemma tail_ok_optional (letters : list rune) (x : rune)
    (a rest : list token) :
  In x letters ->
  tail_ok letters rest ->
  (rest = a \/ exists w t, a = (w ++ t :: rest)%list /\ tok_rune t = x) ->
  tail_ok letters a.
Proof.
  intros Hx Hrest [<- | (w & t & -> & E)]; [exact Hrest|].
  right. destruct Hrest as [-> | H].
  - apply ends_in_last. now rewrite E.
  - apply ends_in_app, ends_in_cons, H.
Qed.

(** A text the duration expression matches starts with P and ends with
    one of T, H, M, S; the match starts at the first byte. *)
Lemma isoDurationRe_shape (p : nat) (ts : list token) p' ts' :
  reach isoDurationRe p ts p' ts' ->
  p = 0%nat /\ ts' = []
  /\ (exists t rest, ts = t :: rest /\ tok_rune t = 0x50)
  /\ ends_in closing_letters ts.
Proof.
  unfold isoDurationRe.
  intros (p0 & t0 & (Hp & -> & ->) & H).
  destruct H as (p1 & t1 & (tP & -> & MP & _) & H).
  destruct H as (p2 & t2 & HY & H).
  destruct H as (p3 & t3 & HM & H).
  destruct H as (p4 & t4 & HD & H).
  destruct H as (p5 & t5 & (tT & -> & MT & _) & H).
  destruct H as (p6 & t6 & HH & H).
  destruct H as (p7 & t7 & HM2 & H).
  destruct H as (p8 & t8 & HS & (-> & _ & ->)).
  apply Z.eqb_eq in MP, MT.
  split; [exact Hp|]. split; [reflexivity|].
  split; [now exists tP, t1|].
  apply ends_in_cons.
  apply reach_suffix in HY as (wY & ->).
  apply reach_suffix in HM as (wM & ->).
  apply reach_suffix in HD as (wD & ->).
  do 3 apply ends_in_app.
  apply reach_optional_letter in HH, HM2, HS.
  assert (T7 : tail_ok closing_letters t7).
  { apply (tail_ok_optional _ 0x53 t7 []); [cbn; tauto | now left |].
    destruct HS as [E | H]; [left; now symmetry | right; exact H]. }
  assert (T6 : tail_ok closing_letters t6).
  { apply (tail_ok_optional _ 0x4D t6 t7); [cbn; tauto | exact T7 |].
    destruct HM2 as [E | H]; [left; exact E | right; exact H]. }
  assert (T5 : tail_ok closing_letters t5).
  { apply (tail_ok_optional _ 0x48 t5 t6); [cbn; tauto | exact T6 |].
    destruct HH as [E | H]; [left; exact E | right; exact H]. }
  destruct T5 as [-> | H].
  - apply (ends_in_last _ [] tT). rewrite MT. cbn. tauto.
  - apply ends_in_cons, H.
Qed.

(** ** Tokens and bytes *)

Lemma decode_core_size (n : nat) (s0 s1 s2 s3 : Z) :
  (1 <= n)%nat ->
  (1 <= snd (decode_core n s0 s1 s2 s3) <= n)%nat.
Proof.
  intros Hn. unfold decode_core.
  destruct (Nat.ltb_spec n 1); [lia|].
  pose proof (first_inv s0) as F.
  destruct (first s0) as [| |sz lo hi]; cbn [snd]; try lia.
  destruct (Nat.ltb_spec n sz); cbn [snd]; [lia|].
  destruct ((s1 <? lo) || (hi <? s1)); cbn [snd]; [lia|].
  destruct F as [(-> & _)|[(-> & _)|(-> & _)]]; cbn [Nat.leb snd].
  - lia.
  - destruct ((s2 <? locb) || (hicb <? s2)); cbn [snd]; lia.
  - destruct ((s2 <? locb) || (hicb <? s2)); cbn [snd]; [lia|].
    destruct ((s3 <? locb) || (hicb <? s3)); cbn [snd]; lia.
Qed.

Lemma DecodeRuneInString_size (c : ascii) (t : string) :
  (1 <= snd (DecodeRuneInString (String c t)) <= String.length (String c t))%nat.
Proof. apply decode_core_size. cbn. lia. Qed.

(** A rune below [RuneSelf] was read from one byte, which is the rune. *)
Lemma decode_core_ascii (n : nat) (s0 s1 s2 s3 : Z) :
  (1 <= n)%nat ->
  fst (decode_core n s0 s1 s2 s3) < 0x80 ->
  decode_core n s0 s1 s2 s3 = (s0, 1%nat).
Proof.
  intros Hn. unfold decode_core.
  destruct (Nat.ltb_spec n 1); [lia|].
  pose proof (first_inv s0) as F.
  destruct (first s0) as [| |sz lo hi]; cbn [fst];
    [reflexivity | unfold RuneError; lia |].
  destruct (n <? sz)%nat; cbn [fst]; [unfold RuneError; lia|].
  destruct (Z.ltb_spec s1 lo); cbn [orb fst]; [unfold RuneError; lia|].
  destruct (Z.ltb_spec hi s1); cbn [orb fst]; [unfold RuneError; lia|].
  destruct F as [(-> & Hs & -> & ->)|[(-> & Hs & -> & ->)|(-> & Hs & -> & ->)]];
    cbn [Nat.leb].
  - cbn [fst]. rewrite assemble2. intros Hr. exfalso. div_mod_lia.
  - unfold locb, hicb.
    destruct (Z.ltb_spec s2 128); cbn [orb fst]; [unfold RuneError; lia|].
    destruct (Z.ltb_spec 191 s2); cbn [orb fst]; [unfold RuneError; lia|].
    rewrite assemble3. intros Hr. exfalso.
    destruct (Z.eqb_spec s0 224); destruct (Z.eqb_spec s0 237); div_mod_lia.
  - unfold locb, hicb.
    destruct (Z.ltb_spec s2 128); cbn [orb fst]; [unfold RuneError; lia|].
    destruct (Z.ltb_spec 191 s2); cbn [orb fst]; [unfold RuneError; lia|].
    destruct (Z.ltb_spec s3 128); cbn [orb fst]; [unfold RuneError; lia|].
    destruct (Z.ltb_spec 191 s3); cbn [orb fst]; [unfold RuneError; lia|].
    rewrite assemble4. intros Hr. exfalso.
    destruct (Z.eqb_spec s0 240); destruct (Z.eqb_spec s0 244); div_mod_lia.
Qed.

Lemma length_take (n : nat) (s : string) :
  String.length (take n s) = Nat.min n (String.length s).
Proof.
  revert s. induction n as [|n IH]; intros [|c s]; cbn; try reflexivity.
  now rewrite IH.
Qed.

Lemma range_from_ok (s : string) (skip : nat) :
  Forall token_ok (range_from skip s).
Proof.
  revert skip. induction s as [|c s IH]; intros skip; cbn [range_from].
  - constructor.
  - destruct skip as [|k]; [|apply IH].
    pose proof (DecodeRuneInString_size c s) as Hsz.
    pose proof (decode_core_ascii (String.length (String c s))
                  (at_ (String c s) 0) (at_ (String c s) 1)
                  (at_ (String c s) 2) (at_ (String c s) 3)) as Hasc.
    fold (DecodeRuneInString (String c s)) in Hasc.
    destruct (DecodeRuneInString (String c s)) as [r size].
    cbn [fst snd] in *.
    constructor; [|apply IH].
    split; unfold tok_len; cbn [tok_bytes tok_rune].
    + rewrite length_take. lia.
    + intros Hr. specialize (Hasc ltac:(cbn; lia) Hr).
      injection Hasc as -> ->. cbn [take]. rewrite at_head.
      now rewrite byte_of_val.
Qed.

Lemma take_drop (n : nat) (s : string) : (take n s ++ drop n s)%string = s.
Proof.
  revert s. induction n as [|n IH]; intros [|c s]; cbn; try reflexivity.
  now rewrite IH.
Qed.

(** The tokens of [range] cut the string: put together again, their
    bytes are the string. *)
Lemma range_from_bytes (s : string) (skip : nat) :
  (skip <= String.length s)%nat ->
  concat_strings (map tok_bytes (range_from skip s)) = drop skip s.
Proof.
  revert skip. induction s as [|c s IH]; intros skip Hs; cbn [range_from].
  - destruct skip; reflexivity.
  - destruct skip as [|k].
    + pose proof (DecodeRuneInString_size c s) as Hsz.
      destruct (DecodeRuneInString (String c s)) as [r size].
      cbn [snd] in Hsz. cbn [map concat_strings fold_right tok_bytes].
      fold (concat_strings (map tok_bytes (range_from (size - 1) s))).
      rewrite IH by (cbn [String.length] in Hsz; lia).
      destruct size as [|size]; [lia|].
      replace (S size - 1)%nat with size by lia.
      cbn [take String.append]. now rewrite take_drop.
    + cbn [drop]. apply IH. cbn [String.length] in Hs. lia.
Qed.

Lemma range_bytes (s : string) :
  concat_strings (map tok_bytes (range s)) = s.
Proof. unfold range. now rewrite range_from_bytes by lia. Qed.

Lemma concat_strings_app (a b : list string) :
  concat_strings (a ++ b)
  = (concat_strings a ++ concat_strings b)%string.
Proof.
  induction a as [|x a IH]; [reflexivity|].
  cbn. fold (concat_strings (a ++ b)) (concat_strings a).
  now rewrite IH, append_assoc.
Qed.

(** An expression that begins with [^] matches at the first byte or
    nowhere. *)
Lemma search_later (re : regex) (p : nat) (ts : list token) :
  (forall q us q' us', reach re q us q' us' -> q = 0%nat) ->
  (0 < p)%nat -> search re p ts = None.
Proof.
  intros Hre. revert p. induction ts as [|t ts IH]; intros p Hp.
  - cbn [search]. destruct (run re _ Some) as [st|] eqn:E; [|reflexivity].
    apply run_sound in E as (st' & R & _). cbn [pos rest] in R.
    apply Hre in R. lia.
  - cbn [search]. destruct (run re _ Some) as [st|] eqn:E.
    + apply run_sound in E as (st' & R & _). cbn [pos rest] in R.
      apply Hre in R. lia.
    + apply IH. lia.
Qed.

Lemma search_anchored (re : regex) (ts : list token) start st :
  (forall q us q' us', reach re q us q' us' -> q = 0%nat) ->
  Forall token_ok ts ->
  search re 0 ts = Some (start, st) ->
  exists p' ts', reach re 0 ts p' ts'.
Proof.
  intros Hre Hok. destruct ts as [|t ts]; cbn [search].
  - destruct (run re _ Some) as [st0|] eqn:E; [|discriminate].
    intros _. apply run_sound in E as (st' & R & _). eauto.
  - destruct (run re _ Some) as [st0|] eqn:E.
    + intros _. apply run_sound in E as (st' & R & _). eauto.
    + rewrite search_later; [discriminate | exact Hre |].
      apply Forall_inv in Hok as [Hlen _]. lia.
Qed.

Lemma search_iso_shape (ts : list token) start st :
  Forall token_ok ts ->
  search isoDurationRe 0 ts = Some (start, st) ->
  (exists t rest, ts = t :: rest /\ tok_rune t = 0x50)
  /\ ends_in closing_letters ts.
Proof.
  intros Hok H.
  apply search_anchored in H as (p' & ts' & R); [| |exact Hok].
  - now apply isoDurationRe_shape in R.
  - intros q us q' us' R. now apply isoDurationRe_shape in R.
Qed.

(** A string the duration expression matches starts with the byte P and
    ends with one of the bytes T, H, M, S. *)
Lemma FindStringSubmatch_iso_bytes (s : string) (matches : list string) :
  FindStringSubmatch isoDurationRe s = Some matches ->
  (exists rest, s = String "P"%char rest)
  /\ (exists pre c, s = (pre ++ String c "")%string /\ closing_byte c).
Proof.
  unfold FindStringSubmatch.
  destruct (search isoDurationRe 0 (range s)) as [[start st]|] eqn:E;
    [|discriminate].
  intros _.
  pose proof (range_from_ok s 0) as Hok. fold (range s) in Hok.
  destruct (search_iso_shape _ _ _ Hok E) as ((t & rest & Hr & HP) & Hend).
  pose proof (range_bytes s) as Hb.
  split.
  - rewrite Hr in Hb, Hok. apply Forall_inv in Hok as [_ Hasc].
    rewrite HP in Hasc. specialize (Hasc ltac:(lia)).
    cbn [map concat_strings fold_right] in Hb. rewrite Hasc in Hb.
    eexists. symmetry. exact Hb.
  - destruct Hend as (pre & tl & Hr' & Hin).
    rewrite Hr' in Hb, Hok.
    apply Forall_app in Hok as [_ Hok].
    apply Forall_inv in Hok as [_ Hasc].
    rewrite map_app, concat_strings_app in Hb.
    cbn [map concat_strings fold_right] in Hb.
    assert (Hlt : tok_rune tl < 0x80).
    { unfold closing_letters in Hin. cbn in Hin. lia. }
    rewrite (Hasc Hlt) in Hb.
    exists (concat_strings (map tok_bytes pre)), (byte_of (tok_rune tl)).
    split; [symmetry; exact Hb|].
    unfold closing_byte, closing_letters in *. cbn in Hin.
    destruct Hin as [<-|[<-|[<-|[<-|[]]]]]; cbn; tauto.
Qed.

End RegexpFacts.

(* ===================================================================== *)
(** * Trimming, and durations with spaces around them *)
(* ===================================================================== *)

Section TrimFacts.

Lemma IsSpace_cases (w : rune) :
  Unicode.IsSpace w = true -> In w space_runes.
Proof.
  unfold Unicode.IsSpace, Unicode.MaxLatin1, space_runes. intros H.
  destruct ((0 <=? w) && (w <=? 255));
    repeat rewrite ?orb_true_iff, ?andb_true_iff in H;
    rewrite ?Z.eqb_eq, ?Z.leb_le in H; cbn [In]; lia.
Qed.

Lemma at_app_r (x y : string) (i : nat) :
  at_ (x ++ y) (String.length x + i) = at_ y i.
Proof. induction x as [|c x IH]; [reflexivity | exact IH]. Qed.

Lemma drop_app_r (x y : string) (i : nat) :
  drop (String.length x + i) (x ++ y) = drop i y.
Proof. induction x as [|c x IH]; [reflexivity | exact IH]. Qed.

Lemma decode_one_ascii (c : ascii) (t : string) :
  byte_val c < 0x80 ->
  DecodeRuneInString (String c t) = (byte_val c, 1%nat).
Proof.
  intros H. rewrite <- (byte_of_val c) at 1.
  apply decode_encode1. pose proof (byte_val_range c). lia.
Qed.

(** [DecodeLastRuneInString] on a string whose last byte is below
    [RuneSelf]. *)
Lemma decode_last_ascii (x : string) (c : ascii) :
  byte_val c < 0x80 ->
  DecodeLastRuneInString (x ++ String c "") = (byte_val c, 1%nat).
Proof.
  intros H. unfold DecodeLastRuneInString.
  rewrite length_append. cbn [String.length].
  destruct (Z.eqb_spec (Z.of_nat (String.length x + 1)) 0); [lia|].
  replace (Z.to_nat (Z.of_nat (String.length x + 1) - 1))
    with (String.length x + 0)%nat by lia.
  rewrite at_app_r, at_head. unfold RuneSelf.
  destruct (Z.ltb_spec (byte_val c) 128); [reflexivity | lia].
Qed.

(** ... whose last two bytes are a rune start and a byte that is not
    ASCII. *)
Lemma decode_last_two (x : string) (c0 c1 : ascii) :
  0x80 <= byte_val c1 ->
  RuneStart (byte_val c0) = true ->
  DecodeLastRuneInString (x ++ String c0 (String c1 ""))
  = let '(r, size) := DecodeRuneInString (String c0 (String c1 "")) in
    if (size =? 2)%nat then (r, size) else (RuneError, 1%nat).
Proof.
  intros H1 H0. unfold DecodeLastRuneInString.
  rewrite length_append. cbn [String.length].
  remember (String.length x) as n eqn:En.
  destruct (Z.eqb_spec (Z.of_nat (n + 2)) 0); [lia|].
  replace (Z.to_nat (Z.of_nat (n + 2) - 1)) with (n + 1)%nat by lia.
  rewrite En, at_app_r, <- En. cbn [at_ String.get].
  fold (byte_val c1). unfold RuneSelf.
  destruct (Z.ltb_spec (byte_val c1) 128); [lia|].
  unfold UTFMax. cbn [last_start].
  destruct (Z.ltb_spec (Z.of_nat (n + 2) - 1 - 1)
              (Z.max (Z.of_nat (n + 2) - Z.of_nat 4) 0)); [lia|].
  replace (Z.to_nat (Z.of_nat (n + 2) - 1 - 1)) with (n + 0)%nat by lia.
  rewrite En, at_app_r, at_head, H0, <- En.
  destruct (Z.ltb_spec (Z.of_nat (n + 2) - 1 - 1) 0); [lia|].
  replace (Z.to_nat (Z.of_nat (n + 2) - 1 - 1)) with (n + 0)%nat by lia.
  rewrite En, drop_app_r, <- En. cbn [drop].
  destruct (DecodeRuneInString (String c0 (String c1 ""))) as [r size].
  destruct (Nat.eqb_spec size 2) as [->|Hs].
  - destruct (Z.eqb_spec (Z.of_nat (n + 2) - 1 - 1 + Z.of_nat 2)
                (Z.of_nat (n + 2))); [reflexivity | lia].
  - destruct (Z.eqb_spec (Z.of_nat (n + 2) - 1 - 1 + Z.of_nat size)
                (Z.of_nat (n + 2))); [lia | reflexivity].
Qed.

(** ... whose last three bytes are a rune start, a continuation byte
    and a byte that is not ASCII. *)
Lemma decode_last_three (x : string) (c0 c1 c2 : ascii) :
  0x80 <= byte_val c2 ->
  RuneStart (byte_val c1) = false ->
  RuneStart (byte_val c0) = true ->
  DecodeLastRuneInString (x ++ String c0 (String c1 (String c2 "")))
  = let '(r, size) :=
      DecodeRuneInString (String c0 (String c1 (String c2 ""))) in
    if (size =? 3)%nat then (r, size) else (RuneError, 1%nat).
Proof.
  intros H2 H1 H0. unfold DecodeLastRuneInString.
  rewrite length_append. cbn [String.length].
  remember (String.length x) as n eqn:En.
  destruct (Z.eqb_spec (Z.of_nat (n + 3)) 0); [lia|].
  replace (Z.to_nat (Z.of_nat (n + 3) - 1)) with (n + 2)%nat by lia.
  rewrite En, at_app_r, <- En. cbn [at_ String.get].
  fold (byte_val c2). unfold RuneSelf.
  destruct (Z.ltb_spec (byte_val c2) 128); [lia|].
  unfold UTFMax. cbn [last_start].
  destruct (Z.ltb_spec (Z.of_nat (n + 3) - 1 - 1)
              (Z.max (Z.of_nat (n + 3) - Z.of_nat 4) 0)); [lia|].
  replace (Z.to_nat (Z.of_nat (n + 3) - 1 - 1)) with (n + 1)%nat by lia.
  rewrite En, at_app_r, <- En. cbn [at_ String.get].
  fold (byte_val c1). rewrite H1.
  destruct (Z.ltb_spec (Z.of_nat (n + 3) - 1 - 1 - 1)
              (Z.max (Z.of_nat (n + 3) - Z.of_nat 4) 0)); [lia|].
  replace (Z.to_nat (Z.of_nat (n + 3) - 1 - 1 - 1)) with (n + 0)%nat by lia.
  rewrite En, at_app_r, at_head, H0, <- En.
  destruct (Z.ltb_spec (Z.of_nat (n + 3) - 1 - 1 - 1) 0); [lia|].
  replace (Z.to_nat (Z.of_nat (n + 3) - 1 - 1 - 1)) with (n + 0)%nat by lia.
  rewrite En, drop_app_r, <- En. cbn [drop].
  destruct (DecodeRuneInString (String c0 (String c1 (String c2 ""))))
    as [r size].
  destruct (Nat.eqb_spec size 3) as [->|Hs].
  - destruct (Z.eqb_spec (Z.of_nat (n + 3) - 1 - 1 - 1 + Z.of_nat 3)
                (Z.of_nat (n + 3))); [reflexivity | lia].
  - destruct (Z.eqb_spec (Z.of_nat (n + 3) - 1 - 1 - 1 + Z.of_nat size)
                (Z.of_nat (n + 3))); [lia | reflexivity].
Qed.

(** How a space is written: one ASCII byte of [asciiSpace], or bytes
    the first and the last of which are not ASCII. *)
Lemma space_encoding (w : rune) :
  Unicode.IsSpace w = true ->
  (Strings.asciiSpace w = true /\ 0 <= w < 0x80
   /\ EncodeRune w = String (byte_of w) "")
  \/ (exists c0 mid cl,
        EncodeRune w = String c0 (mid ++ String cl "")
        /\ 0x80 <= byte_val c0 /\ 0x80 <= byte_val cl).
Proof.
  intros H. apply IsSpace_cases in H. unfold space_runes in H.
  each_member H.
  1-6: left; repeat split; vm_compute; congruence.
  1-2: right;
    match goal with
    | |- context [EncodeRune ?w] =>
        let e := eval vm_compute in (EncodeRune w) in
        match e with
        | String ?c0 (String ?cl "") =>
            exists c0, "", cl; repeat split; vm_compute; congruence
        end
    end.
  all: right;
    match goal with
    | |- context [EncodeRune ?w] =>
        let e := eval vm_compute in (EncodeRune w) in
        match e with
        | String ?c0 (String ?c1 (String ?cl "")) =>
            exists c0, (String c1 ""), cl; repeat split; vm_compute; congruence
        end
    end.
Qed.

Lemma IsSpace_valid (w : rune) :
  Unicode.IsSpace w = true -> ValidRune w = true.
Proof. intros H. apply IsSpace_cases in H. unfold space_runes in H.
  each_member H; reflexivity. Qed.

Lemma decode_last_space (x : string) (w : rune) :
  Unicode.IsSpace w = true ->
  DecodeLastRuneInString (x ++ EncodeRune w)
  = (w, String.length (EncodeRune w)).
Proof.
  intros H. apply IsSpace_cases in H. unfold space_runes in H.
  each_member H.
  all: match goal with
       | |- context [EncodeRune ?w] =>
           let e := eval vm_compute in (EncodeRune w) in
           change (EncodeRune w) with e
       end.
  1-6: rewrite decode_last_ascii; [reflexivity | vm_compute; reflexivity].
  1-2: rewrite decode_last_two;
    [reflexivity | vm_compute; congruence | reflexivity].
  all: rewrite decode_last_three;
    [reflexivity | vm_compute; congruence | reflexivity | reflexivity].
Qed.

Lemma asciiSpace_IsSpace (b : Z) :
  0 <= b < 0x80 -> Strings.asciiSpace b = Unicode.IsSpace b.
Proof.
  intros H. unfold Strings.asciiSpace, Unicode.IsSpace, Unicode.MaxLatin1.
  destruct (Z.leb_spec 0 b); [|lia]. destruct (Z.leb_spec b 255); [|lia].
  cbn [andb].
  destruct (Z.eqb_spec b 133); [lia|]. destruct (Z.eqb_spec b 160); [lia|].
  now rewrite !orb_false_r.
Qed.

Lemma string_of_runes_app (a b : list rune) :
  string_of_runes (a ++ b)
  = (string_of_runes a ++ string_of_runes b)%string.
Proof.
  induction a as [|r a IH]; [reflexivity|].
  cbn [string_of_runes app]. now rewrite IH, append_assoc.
Qed.

Lemma length_string_of_runes (ws : list rune) :
  (List.length ws <= String.length (string_of_runes ws))%nat.
Proof.
  induction ws as [|w ws IH]; [cbn; lia|].
  cbn [string_of_runes List.length]. rewrite length_append.
  pose proof (EncodeRune_not_empty w).
  destruct (EncodeRune w); [congruence | cbn [String.length]; lia].
Qed.

(** The first loop of [TrimSpace] over leading spaces: it stops at the
    first byte of the text, or at the first space that is not ASCII. *)
Lemma ascii_trim_leading (ws : list rune) (c : ascii) (x : string) :
  spaces ws -> plain_byte c ->
  Strings.ascii_trim (string_of_runes ws ++ String c x)
  = (String c x, false)
  \/ exists ws2,
       spaces ws2
       /\ Strings.ascii_trim (string_of_runes ws ++ String c x)
          = ((string_of_runes ws2 ++ String c x)%string, true).
Proof.
  intros Hws [Hc Hns]. pose proof (byte_val_range c) as Hr.
  induction Hws as [|w ws Hw Hws IH].
  - left. cbn [string_of_runes String.append Strings.ascii_trim].
    unfold RuneSelf. destruct (Z.geb_spec (byte_val c) 128); [lia|].
    rewrite asciiSpace_IsSpace by lia. now rewrite Hns.
  - destruct (space_encoding w Hw)
      as [(Ha & Hlt & E) | (c0 & mid & cl & E & H0 & _)].
    + cbn [string_of_runes]. rewrite append_assoc, E.
      cbn [String.append Strings.ascii_trim].
      rewrite byte_val_of by lia. unfold RuneSelf.
      destruct (Z.geb_spec w 128); [lia|]. rewrite Ha. exact IH.
    + right. exists (w :: ws). split; [now constructor|].
      cbn [string_of_runes]. rewrite append_assoc, E.
      cbn [String.append Strings.ascii_trim].
      unfold RuneSelf. destruct (Z.geb_spec (byte_val c0) 128); [|lia].
      reflexivity.
Qed.

(** [TrimLeftFunc] passes over leading spaces and stops at the text. *)
Lemma trim_left_spaces (ws : list rune) (c : ascii) (x : string) :
  spaces ws -> plain_byte c ->
  forall fuel, (List.length ws < fuel)%nat ->
  Strings.trim_left fuel (string_of_runes ws ++ String c x) = String c x.
Proof.
  intros Hws [Hc Hns].
  induction Hws as [|w ws Hw Hws IH]; intros fuel Hf.
  - destruct fuel as [|fuel]; [cbn in Hf; lia|].
    cbn [string_of_runes String.append Strings.trim_left].
    rewrite decode_one_ascii by exact Hc. now rewrite Hns.
  - destruct fuel as [|fuel]; [cbn in Hf; lia|].
    cbn [string_of_runes]. rewrite append_assoc.
    cbn [Strings.trim_left].
    pose proof (decode_encode w (string_of_runes ws ++ String c x)) as D.
    pose proof (EncodeRune_not_empty w) as Hne.
    destruct (EncodeRune w) as [|c0 e] eqn:E; [congruence|].
    cbn [String.append] in *. rewrite D.
    rewrite valid_or_error_id by (apply IsSpace_valid, Hw). rewrite Hw.
    change (String c0 (e ++ string_of_runes ws ++ String c x))
      with (String c0 e ++ (string_of_runes ws ++ String c x))%string.
    rewrite drop_app. apply IH. cbn in Hf. lia.
Qed.

Lemma take_app_tail (a b : string) (n : nat) :
  n = String.length a -> take n (a ++ b) = a.
Proof. intros ->. apply take_app. Qed.

(** [lastIndexFunc] passes over trailing spaces and stops at the last
    byte of the text. *)
Lemma last_index_spaces (pre : string) (c : ascii) (ws : list rune) :
  spaces ws -> plain_byte c ->
  forall (tail s : string) (i fuel : nat),
    s = (((pre ++ String c "") ++ string_of_runes ws) ++ tail)%string ->
    i = String.length ((pre ++ String c "") ++ string_of_runes ws) ->
    (List.length ws < fuel)%nat ->
    Strings.last_index fuel s i = Some (String.length pre).
Proof.
  intros Hws [Hc Hns]. unfold spaces in Hws.
  induction ws as [|w ws IH] using rev_ind; intros tail s i fuel Hs Hi Hf.
  - destruct fuel as [|fuel]; [cbn in Hf; lia|].
    cbn [string_of_runes] in Hs, Hi. rewrite append_nil_r in Hs, Hi.
    cbn [Strings.last_index].
    assert (Hi' : i = S (String.length pre))
      by (rewrite Hi, length_append; cbn [String.length]; lia).
    destruct (Nat.eqb_spec i 0); [lia|].
    rewrite Hs, Hi, take_app.
    rewrite decode_last_ascii by exact Hc. rewrite Hns.
    f_equal. rewrite length_append. cbn [String.length]. lia.
  - apply Forall_app in Hws as [Hws Hw]. apply Forall_inv in Hw.
    destruct fuel as [|fuel]; [cbn in Hf; lia|].
    rewrite string_of_runes_app in Hs, Hi. cbn [string_of_runes] in Hs, Hi.
    rewrite append_nil_r in Hs, Hi.
    rewrite <- append_assoc in Hs, Hi.
    cbn [Strings.last_index].
    assert (Hi' : i = (String.length ((pre ++ String c "")
                                       ++ string_of_runes ws)
                       + String.length (EncodeRune w))%nat)
      by (rewrite Hi, length_append; reflexivity).
    pose proof (EncodeRune_not_empty w) as Hne.
    assert (0 < String.length (EncodeRune w))%nat
      by (destruct (EncodeRune w); [congruence | cbn; lia]).
    destruct (Nat.eqb_spec i 0); [lia|].
    rewrite Hs at 1. rewrite Hi at 1. rewrite take_app.
    rewrite decode_last_space by exact Hw. rewrite Hw.
    apply (IH Hws (EncodeRune w ++ tail)%string).
    + rewrite Hs. now rewrite append_assoc.
    + lia.
    + rewrite length_app in Hf. cbn in Hf. lia.
Qed.

(** [TrimRightFunc] removes trailing spaces and nothing of the text. *)
Lemma TrimRightFunc_spaces (pre : string) (c : ascii) (ws : list rune) :
  spaces ws -> plain_byte c ->
  Strings.TrimRightFunc_IsSpace ((pre ++ String c "") ++ string_of_runes ws)
  = (pre ++ String c "")%string.
Proof.
  intros Hws Hc. unfold Strings.TrimRightFunc_IsSpace.
  set (s := ((pre ++ String c "") ++ string_of_runes ws)%string).
  rewrite (last_index_spaces pre c ws Hws Hc "" s (String.length s)
             (String.length s)).
  - assert (Hat : at_ s (String.length pre) = byte_val c).
    { unfold s. rewrite !append_assoc.
      rewrite <- (Nat.add_0_r (String.length pre)).
      rewrite at_app_r. reflexivity. }
    rewrite Hat. destruct Hc as [Hc _]. unfold RuneSelf.
    destruct (Z.geb_spec (byte_val c) 128); [lia|].
    unfold s. apply take_app_tail.
    rewrite length_append. reflexivity.
  - unfold s. now rewrite append_nil_r.
  - reflexivity.
  - unfold s. rewrite !length_append. cbn [String.length].
    pose proof (length_string_of_runes ws). lia.
Qed.

Lemma rev_append_app (a b acc : string) :
  rev_append (a ++ b) acc = rev_append b (rev_append a acc).
Proof.
  revert acc. induction a as [|c a IH]; intros acc; [reflexivity|].
  cbn [String.append rev_append]. apply IH.
Qed.

Lemma rev_append_acc (a acc : string) :
  rev_append a acc = (rev_append a "" ++ acc)%string.
Proof.
  revert acc. induction a as [|c a IH]; intros acc; [reflexivity|].
  cbn [rev_append]. rewrite IH, (IH (String c "")).
  now rewrite append_assoc.
Qed.

Lemma rev_app (a b : string) : rev (a ++ b) = (rev b ++ rev a)%string.
Proof.
  unfold rev. rewrite rev_append_app. apply rev_append_acc.
Qed.

Lemma rev_involutive (s : string) : rev (rev s) = s.
Proof.
  induction s as [|c s IH]; [reflexivity|].
  change (String c s) with (String c "" ++ s)%string at 1.
  rewrite rev_app, rev_app. cbn [rev rev_append]. fold (rev (rev s)).
  now rewrite IH.
Qed.

(** The second loop of [TrimSpace], from the end: it stops at the last
    byte of the text, or at the last space that is not ASCII. *)
Lemma ascii_trim_trailing (pre : string) (c : ascii) (ws : list rune) :
  spaces ws -> plain_byte c ->
  Strings.ascii_trim (rev ((pre ++ String c "") ++ string_of_runes ws))
  = (rev (pre ++ String c ""), false)
  \/ exists ws2,
       spaces ws2
       /\ Strings.ascii_trim
            (rev ((pre ++ String c "") ++ string_of_runes ws))
          = (rev ((pre ++ String c "") ++ string_of_runes ws2), true).
Proof.
  intros Hws [Hc Hns]. pose proof (byte_val_range c) as Hr.
  unfold spaces in Hws.
  induction ws as [|w ws IH] using rev_ind.
  - left. cbn [string_of_runes]. rewrite append_nil_r, rev_app.
    cbn [rev rev_append String.append Strings.ascii_trim].
    unfold RuneSelf. destruct (Z.geb_spec (byte_val c) 128); [lia|].
    rewrite asciiSpace_IsSpace by lia. now rewrite Hns.
  - apply Forall_app in Hws as [Hws Hw]. apply Forall_inv in Hw.
    specialize (IH Hws).
    rewrite string_of_runes_app. cbn [string_of_runes].
    rewrite append_nil_r, <- append_assoc.
    destruct (space_encoding w Hw)
      as [(Ha & Hlt & E) | (c0 & mid & cl & E & _ & Hl)].
    + rewrite E, rev_app.
      cbn [rev rev_append String.append Strings.ascii_trim].
      rewrite byte_val_of by lia. unfold RuneSelf.
      destruct (Z.geb_spec w 128); [lia|]. rewrite Ha.
      fold (rev ((pre ++ String c "") ++ string_of_runes ws)).
      exact IH.
    + right. exists (ws ++ [w])%list.
      split; [apply Forall_app; split; [exact Hws | now constructor]|].
      rewrite string_of_runes_app. cbn [string_of_runes].
      rewrite append_nil_r, <- append_assoc.
      rewrite E.
      change (String c0 (mid ++ String cl ""))
        with ((String c0 mid) ++ String cl "")%string.
      rewrite <- append_assoc.
      rewrite (rev_app _ (String cl "")).
      cbn [rev rev_append String.append Strings.ascii_trim].
      unfold RuneSelf. destruct (Z.geb_spec (byte_val cl) 128); [|lia].
      reflexivity.
Qed.

(** A padding of spaces around a text that starts and ends with plain
    bytes is what [TrimSpace] removes. *)
Lemma TrimSpace_padded (wsl wsr : list rune) (d pre body : string)
    (c0 cl : ascii) :
  spaces wsl -> spaces wsr ->
  d = String c0 body -> d = (pre ++ String cl "")%string ->
  plain_byte c0 -> plain_byte cl ->
  Strings.TrimSpace (string_of_runes wsl ++ d ++ string_of_runes wsr) = d.
Proof.
  intros Hl Hr Hd0 Hdl H0 Hcl. unfold Strings.TrimSpace.
  assert (Hx : (d ++ string_of_runes wsr)%string
               = String c0 (body ++ string_of_runes wsr))
    by (rewrite Hd0; reflexivity).
  rewrite Hx.
  destruct (ascii_trim_leading wsl c0 (body ++ string_of_runes wsr) Hl H0)
    as [E | (ws2 & Hws2 & E)]; rewrite E.
  - rewrite <- Hx. rewrite Hdl.
    destruct (ascii_trim_trailing pre cl wsr Hr Hcl)
      as [E2 | (ws3 & Hws3 & E2)]; rewrite E2.
    + apply rev_involutive.
    + rewrite rev_involutive. now apply TrimRightFunc_spaces.
  - unfold Strings.TrimFunc_IsSpace, Strings.TrimLeftFunc_IsSpace.
    rewrite trim_left_spaces; [| exact Hws2 | exact H0 |].
    + rewrite <- Hx, Hdl. now apply TrimRightFunc_spaces.
    + rewrite length_append. cbn [String.length].
      pose proof (length_string_of_runes ws2). lia.
Qed.

Lemma append_last_inj (a b : string) (c c' : ascii) :
  (a ++ String c "")%string = (b ++ String c' "")%string -> c = c'.
Proof.
  intros H. apply (f_equal rev) in H. rewrite !rev_app in H.
  cbn [rev rev_append String.append] in H. now injection H.
Qed.

Lemma closing_byte_plain (c : ascii) : closing_byte c -> plain_byte c.
Proof.
  intros [->|[->|[->| ->]]]; split; vm_compute; reflexivity.
Qed.

(** A string with a space before or after it is no duration: the
    expression does not match it. *)
Lemma padded_no_match (wsl wsr : list rune) (d : string) :
  spaces wsl -> spaces wsr -> wsl <> [] \/ wsr <> [] ->
  FindStringSubmatch isoDurationRe
    (string_of_runes wsl ++ d ++ string_of_runes wsr) = None.
Proof.
  intros Hl Hr Hne.
  destruct (FindStringSubmatch isoDurationRe _) as [m|] eqn:E;
    [exfalso | reflexivity].
  apply FindStringSubmatch_iso_bytes in E
    as ((rest & HP) & (pre & c & Hlast & Hc)).
  destruct wsl as [|w wsl].
  - destruct Hne as [Hne | Hne]; [congruence|].
    destruct (exists_last Hne) as (ws' & w & ->).
    apply Forall_app in Hr as [_ Hw]. apply Forall_inv in Hw.
    rewrite string_of_runes_app in Hlast. cbn [string_of_runes] in Hlast.
    rewrite append_nil_r in Hlast.
    cbn [string_of_runes String.append] in Hlast.
    apply closing_byte_plain in Hc as [Hc Hns].
    destruct (space_encoding w Hw)
      as [(Ha & Hlt & Ew) | (c0 & mid & cl & Ew & _ & Hcl)];
      rewrite Ew in Hlast.
    + rewrite <- append_assoc in Hlast. apply append_last_inj in Hlast.
      subst c. rewrite byte_val_of in Hns by lia.
      rewrite <- asciiSpace_IsSpace in Hns by lia. congruence.
    + change (String c0 (mid ++ String cl ""))
        with ((String c0 mid) ++ String cl "")%string in Hlast.
      rewrite <- !append_assoc in Hlast. apply append_last_inj in Hlast.
      subst c. lia.
  - apply Forall_inv in Hl as Hw.
    cbn [string_of_runes] in HP. rewrite append_assoc in HP.
    destruct (space_encoding w Hw)
      as [(Ha & Hlt & Ew) | (c0 & mid & cl & Ew & Hc0 & _)];
      rewrite Ew in HP; cbn [String.append] in HP; injection HP as HP _.
    + assert (w = 80) by (rewrite <- (byte_val_of w), HP by lia; reflexivity).
      subst w. discriminate Ha.
    + subst c0. vm_compute in Hc0. congruence.
Qed.

Lemma string_of_runes_empty (ws : list rune) :
  string_of_runes ws = "" -> ws = [].
Proof.
  destruct ws as [|w ws]; [reflexivity|].
  cbn [string_of_runes]. pose proof (EncodeRune_not_empty w).
  destruct (EncodeRune w); [congruence | discriminate].
Qed.

Import Time.

(** C10: the builder trims the [prepTime] content before it parses it
    and does not trim the [cookTime] content. For a string [d] that
    parses as a duration and paddings of spaces of which one at least is
    not empty, the padded string does not parse, so as [cookTime] content
    it leaves the cook time at 0 s; trimmed it is [d] again, so as
    [prepTime] content it gives the duration of [d]. *)
Theorem padded_cookTime_fails_prepTime_parses
    (s : RecipeNode) (d padl padr : string) (v : Duration) :
  ParseISODuration d = Ok v ->
  space_padding padl -> space_padding padr ->
  padl <> "" \/ padr <> "" ->
  ParseISODuration (padl ++ d ++ padr)
  = Err (errorString "input string is of incorrect format")
  /\ Strings.TrimSpace (padl ++ d ++ padr) = d
  /\ (ItemPropContentOr s "cookTime" "PT0S" = (padl ++ d ++ padr)%string ->
      CookTime (ExtractRecipeMetadata s) = 0)
  /\ (ItemPropContentOr s "prepTime" "PT50S" = (padl ++ d ++ padr)%string ->
      PrepTime (ExtractRecipeMetadata s) = v).
Proof.
  intros Hd (wsl & Hl & ->) (wsr & Hr & ->) Hne.
  assert (Hne' : wsl <> [] \/ wsr <> []).
  { destruct Hne as [H | H]; [left | right]; intros ->; now apply H. }
  assert (Hfail :
    ParseISODuration (string_of_runes wsl ++ d ++ string_of_runes wsr)
    = Err (errorString "input string is of incorrect format")).
  { unfold ParseISODuration. now rewrite padded_no_match. }
  assert (Htrim :
    Strings.TrimSpace (string_of_runes wsl ++ d ++ string_of_runes wsr) = d).
  { assert (Hm : exists m, FindStringSubmatch isoDurationRe d = Some m).
    { unfold ParseISODuration in Hd.
      destruct (FindStringSubmatch isoDurationRe d) as [m|];
        [now exists m | discriminate]. }
    destruct Hm as (m & Hm).
    apply FindStringSubmatch_iso_bytes in Hm
      as ((body & HP) & (pre & c & Hlast & Hc)).
    apply (TrimSpace_padded wsl wsr d pre body "P"%char c); trivial.
    - split; vm_compute; reflexivity.
    - now apply closing_byte_plain. }
  split; [exact Hfail|]. split; [exact Htrim|]. split.
  - intros H. rewrite CookTime_ExtractRecipeMetadata, H, Hfail. reflexivity.
  - intros H. rewrite PrepTime_ExtractRecipeMetadata, H, Htrim, Hd.
    reflexivity.
Qed.

Lemma padded_cookTime_fails_prepTime_parses_witness :
  CookTime (ExtractRecipeMetadata fragment_padded_times) = 0
  /\ PrepTime (ExtractRecipeMetadata fragment_padded_times) = 600 * Second.
Proof.
  assert (Hpad : space_padding " ").
  { exists [0x20]. split; [|reflexivity].
    constructor; [reflexivity | constructor]. }
  destruct (padded_cookTime_fails_prepTime_parses fragment_padded_times
              "PT10M" " " " " (600 * Second))
    as (_ & _ & Hcook & Hprep).
  - vm_compute. reflexivity.
  - exact Hpad.
  - exact Hpad.
  - left. discriminate.
  - split; [apply Hcook | apply Hprep]; vm_compute; reflexivity.
Defined.


End TrimFacts.

(* ===================================================================== *)
(** * More on the fraction normalizer *)
(* ===================================================================== *)

Section FractionNormalizer.

Lemma runes_ascii_cons (c : ascii) (a : string) :
  byte_val c < RuneSelf -> runes (String c a) = byte_val c :: runes a.
Proof.
  intros Hc.
  change (String c a) with (String c "" ++ a)%string.
  rewrite <- (EncodeRune_ascii c Hc), runes_EncodeRune.
  rewrite valid_or_error_id; [reflexivity|].
  apply ValidRune_iff. pose proof (byte_val_range c).
  unfold RuneSelf in Hc. lia.
Qed.

Lemma runes_ascii (a : string) :
  ascii_only a = true -> runes a = bytes a.
Proof.
  induction a as [|c a IH]; intros H; [reflexivity|].
  cbn [ascii_only] in H. apply andb_true_iff in H as [Hc Ha].
  apply Z.ltb_lt in Hc. rewrite runes_ascii_cons by exact Hc.
  cbn [bytes]. now rewrite IH.
Qed.

Lemma bytes_ascii_below (a : string) (r : Z) :
  ascii_only a = true -> In r (bytes a) -> r < RuneSelf.
Proof.
  induction a as [|c a IH]; intros H Hin; [destruct Hin|].
  cbn [ascii_only] in H. apply andb_true_iff in H as [Hc Ha].
  apply Z.ltb_lt in Hc. destruct Hin as [<- | Hin]; [exact Hc | now apply IH].
Qed.

Lemma string_of_runes_bytes (a : string) :
  ascii_only a = true -> string_of_runes (bytes a) = a.
Proof.
  induction a as [|c a IH]; intros H; [reflexivity|].
  cbn [ascii_only] in H. apply andb_true_iff in H as [Hc Ha].
  apply Z.ltb_lt in Hc. cbn [bytes string_of_runes].
  rewrite EncodeRune_ascii by exact Hc. cbn [String.append].
  now rewrite IH.
Qed.

Lemma concat_map_flat_map {A B} (f : B -> string) (g : A -> list B)
    (l : list A) :
  concat_strings (map f (flat_map g l))
  = concat_strings (map (fun a => concat_strings (map f (g a))) l).
Proof.
  induction l as [|a l IH]; [reflexivity|].
  cbn [flat_map map]. rewrite map_app, concat_strings_app, IH. reflexivity.
Qed.

Lemma replace_glyph_again (r : rune) :
  concat_strings (map replace_glyph (glyph_runes r)) = replace_glyph r.
Proof.
  unfold glyph_runes, replace_glyph at 2.
  destruct (map_lookup fractions r) as [replacement|] eqn:L.
  - rewrite <- ConvertFractions_runes. apply ConvertFractions_ascii.
    eapply fractions_ascii; exact L.
  - cbn. unfold replace_glyph. rewrite L. apply append_nil_r.
Qed.

Lemma runes_ConvertFractions (input : string) :
  runes (ConvertFractions input) = flat_map glyph_runes (runes input).
Proof.
  rewrite ConvertFractions_runes. apply runes_concat_replace, runes_valid.
Qed.

(** X1: [ConvertFractions] applied to its own output changes nothing,
    whatever the bytes of the input. *)
Theorem ConvertFractions_idempotent (input : string) :
  ConvertFractions (ConvertFractions input) = ConvertFractions input.
Proof.
  rewrite (ConvertFractions_runes (ConvertFractions input)).
  rewrite runes_ConvertFractions, concat_map_flat_map.
  rewrite (ConvertFractions_runes input). f_equal.
  apply map_ext, replace_glyph_again.
Qed.

Lemma glyph_runes_no_glyph (r0 r : rune) :
  In r (glyph_runes r0) -> map_lookup fractions r = None.
Proof.
  unfold glyph_runes.
  destruct (map_lookup fractions r0) as [replacement|] eqn:L.
  - intros Hin. apply fractions_not_ascii.
    pose proof (fractions_ascii _ _ L) as Ha.
    rewrite runes_ascii in Hin by exact Ha.
    eapply bytes_ascii_below; eassumption.
  - intros [<- | []]. exact L.
Qed.

Lemma ConvertFractions_no_glyph (input : string) (r : rune) :
  In r (runes (ConvertFractions input)) -> map_lookup fractions r = None.
Proof.
  rewrite runes_ConvertFractions. intros Hin.
  apply in_flat_map in Hin as (r0 & _ & Hin).
  eapply glyph_runes_no_glyph; exact Hin.
Qed.

Lemma string_of_glyph_runes (r : rune) :
  string_of_runes (glyph_runes r) = replace_glyph r.
Proof.
  unfold glyph_runes, replace_glyph.
  destruct (map_lookup fractions r) as [replacement|] eqn:L.
  - pose proof (fractions_ascii _ _ L) as Ha.
    rewrite runes_ascii by exact Ha. now apply string_of_runes_bytes.
  - cbn. apply append_nil_r.
Qed.

Lemma string_of_runes_flat_map {A} (g : A -> list rune) (l : list A) :
  string_of_runes (flat_map g l)
  = concat_strings (map (fun a => string_of_runes (g a)) l).
Proof.
  induction l as [|a l IH]; [reflexivity|].
  cbn [flat_map map]. rewrite string_of_runes_app, IH. reflexivity.
Qed.

Lemma ConvertFractions_well_formed (input : string) :
  string_of_runes (runes (ConvertFractions input)) = ConvertFractions input.
Proof.
  rewrite runes_ConvertFractions, string_of_runes_flat_map.
  rewrite ConvertFractions_runes. f_equal.
  apply map_ext, string_of_glyph_runes.
Qed.

Lemma runes_string_of_runes_app (rs : list rune) (b : string) :
  runes (string_of_runes rs ++ b) = (map valid_or_error rs ++ runes b)%list.
Proof.
  induction rs as [|r rs IH]; [reflexivity|].
  cbn [string_of_runes map]. rewrite append_assoc, runes_EncodeRune, IH.
  reflexivity.
Qed.

Lemma ConvertFractions_app_runes (rs : list rune) (b : string) :
  ConvertFractions (string_of_runes rs ++ b)
  = (ConvertFractions (string_of_runes rs) ++ ConvertFractions b)%string.
Proof.
  rewrite !ConvertFractions_runes, runes_string_of_runes_app.
  rewrite map_app, concat_strings_app, runes_string_of_runes. reflexivity.
Qed.

Lemma ConvertFractions_app_ascii (a b : string) :
  ascii_only a = true ->
  ConvertFractions (a ++ b) = (a ++ ConvertFractions b)%string.
Proof.
  intros Ha. rewrite <- (string_of_runes_bytes a Ha) at 1.
  rewrite ConvertFractions_app_runes, string_of_runes_bytes by exact Ha.
  now rewrite ConvertFractions_ascii.
Qed.

(** X2: no character of the output of [ConvertFractions] is one of the
    fraction glyphs of the table. *)
Theorem ConvertFractions_leaves_no_glyph (input : string) (r : rune) :
  In r (runes (ConvertFractions input)) -> map_lookup fractions r = None.
Proof. apply ConvertFractions_no_glyph. Qed.

Lemma ConvertFractions_leaves_no_glyph_witness :
  map_lookup fractions 0x2F = None.
Proof.
  apply (ConvertFractions_leaves_no_glyph "½ cup" 0x2F).
  vm_compute. tauto.
Defined.

(** X3: the output of [ConvertFractions] is well-formed UTF-8, whatever
    the input: written again rune by rune it is the same bytes, and
    each of its runes is valid. An ill-formed byte of the input comes
    out as U+FFFD, so the input itself need not have this property. *)
Theorem ConvertFractions_writes_well_formed_text :
  (forall input : string,
      string_of_runes (runes (ConvertFractions input))
      = ConvertFractions input)
  /\ (forall input : string,
        Forall (fun r => ValidRune r = true) (runes (ConvertFractions input)))
  /\ ConvertFractions (String (byte_of 0xFF) "a") = "�a"
  /\ string_of_runes (runes (String (byte_of 0xFF) "a"))
     <> String (byte_of 0xFF) "a".
Proof.
  split; [exact ConvertFractions_well_formed|].
  split; [intros input; apply runes_valid|].
  split; [vm_compute; reflexivity | vm_compute; discriminate].
Qed.

(** X4: [ConvertFractions] works rune by rune: on a text cut between two
    runes, the output is the output of the first part followed by the
    output of the second, and an ASCII prefix is passed as it is. Cut
    between the two bytes of a glyph, the parts give two U+FFFD instead
    of the fraction. *)
Theorem ConvertFractions_distributes :
  (forall (rs : list rune) (b : string),
      ConvertFractions (string_of_runes rs ++ b)
      = (ConvertFractions (string_of_runes rs) ++ ConvertFractions b)%string)
  /\ (forall a b : string,
        ascii_only a = true ->
        ConvertFractions (a ++ b) = (a ++ ConvertFractions b)%string)
  /\ ConvertFractions (String (byte_of 0xC2) "" ++ String (byte_of 0xBD) "")
     = "1/2"
  /\ (ConvertFractions (String (byte_of 0xC2) "")
      ++ ConvertFractions (String (byte_of 0xBD) ""))%string
     = "��".
Proof.
  split; [exact ConvertFractions_app_runes|].
  split; [exact ConvertFractions_app_ascii|].
  split; vm_compute; reflexivity.
Qed.

Lemma ConvertFractions_distributes_witness :
  ConvertFractions ("2 " ++ "½ cup") = ("2 " ++ ConvertFractions "½ cup")%string.
Proof.
  destruct ConvertFractions_distributes as (_ & H & _).
  apply H. reflexivity.
Defined.

End FractionNormalizer.

(* ===================================================================== *)
(** * More on the extractors *)
(* ===================================================================== *)

Section ListExtractors.

Lemma kept_not_empty (v x : string) : In x (kept v) -> x <> "" /\ x = v.
Proof.
  unfold kept. destruct (String.eqb_spec v ""); [intros []|].
  intros [<- | []]. now split.
Qed.

Lemma ExtractRecipePhotos_spec (s : RecipeNode) :
  ExtractRecipePhotos s
  = Some (srcs_in_order (Find (root s) photo_selector)).
Proof.
  unfold ExtractRecipePhotos, make0, srcs_in_order.
  rewrite Each_append with (g := fun n => kept (AttrOr [n] "src" "")).
  - reflexivity.
  - intros st n. cbv zeta. unfold kept.
    destruct (AttrOr [n] "src" "" =? "")%string; cbn;
      [now rewrite app_nil_r | reflexivity].
Qed.

Lemma ItemPropChildrenText_spec (s : RecipeNode) (propName : string) :
  ItemPropChildrenText s propName
  = Some (lines_in_order (Children (ItemProp s "" propName))).
Proof.
  unfold ItemPropChildrenText, make0, lines_in_order.
  rewrite Each_append with (g := fun n =>
    kept (ConvertFractions (Strings.TrimSpace (node_text n)))).
  - reflexivity.
  - intros st n. cbv zeta. rewrite Text_one. unfold kept.
    destruct (ConvertFractions (Strings.TrimSpace (node_text n)) =? "")%string;
      cbn; [now rewrite app_nil_r | reflexivity].
Qed.

Lemma contents_in_order_kept (nodes : list Node) :
  contents_in_order nodes
  = flat_map (fun n => kept (AttrOr [n] "content" "")) nodes.
Proof. reflexivity. Qed.

Lemma courses_in_order_not_empty (nodes : list Node) (x : string) :
  In x (courses_in_order nodes) -> x <> "".
Proof.
  unfold courses_in_order. intros Hin.
  apply in_flat_map in Hin as (n & _ & Hin).
  destruct (course_value n) as [v|]; [|destruct Hin].
  destruct (String.eqb_spec v ""); [destruct Hin|].
  destruct Hin as [<- | []]. assumption.
Qed.

(** X5: none of the four functions that collect a list
    ([ItemPropContentList], [ItemPropChildrenText],
    [ExtractRecipeCourses], [ExtractRecipePhotos]) puts an empty string
    in it. *)
Theorem list_extractors_skip_empty (s : RecipeNode) (propName x : string) :
  (In x (elems (ItemPropContentList s propName)) -> x <> "")
  /\ (In x (elems (ItemPropChildrenText s propName)) -> x <> "")
  /\ (In x (elems (ExtractRecipeCourses s)) -> x <> "")
  /\ (In x (elems (ExtractRecipePhotos s)) -> x <> "").
Proof.
  rewrite ItemPropContentList_spec, ItemPropChildrenText_spec,
    ExtractRecipeCourses_spec, ExtractRecipePhotos_spec.
  cbn [elems]. split; [|split; [|split]].
  - rewrite contents_in_order_kept. intros Hin.
    apply in_flat_map in Hin as (n & _ & Hin).
    now apply kept_not_empty in Hin.
  - unfold lines_in_order. intros Hin.
    apply in_flat_map in Hin as (n & _ & Hin).
    now apply kept_not_empty in Hin.
  - apply courses_in_order_not_empty.
  - unfold srcs_in_order. intros Hin.
    apply in_flat_map in Hin as (n & _ & Hin).
    now apply kept_not_empty in Hin.
Qed.

Lemma list_extractors_skip_empty_witness :
  "Soups" <> "".
Proof.
  destruct (list_extractors_skip_empty
              (fragment [meta "recipeCategory" ""; meta "recipeCategory" "Soups"])
              "recipeCategory" "Soups") as (H & _).
  apply H. vm_compute. tauto.
Defined.

Lemma ItemProp_fragment_app (cs1 cs2 : list Node) (e p : string) :
  ItemProp (fragment (cs1 ++ cs2)) e p
  = (ItemProp (fragment cs1) e p ++ ItemProp (fragment cs2) e p)%list.
Proof. unfold ItemProp, fragment. cbn [root]. apply Find_app. Qed.

Lemma Find_fragment_app (cs1 cs2 : list Node) (m : Matcher) :
  Find (root (fragment (cs1 ++ cs2))) m
  = (Find (root (fragment cs1)) m ++ Find (root (fragment cs2)) m)%list.
Proof. unfold fragment. cbn [root]. apply Find_app. Qed.

Lemma Children_app (a b : Selection) :
  Children (a ++ b)%list = (Children a ++ Children b)%list.
Proof. unfold Children. apply flat_map_app. Qed.

Lemma Text_app (a b : Selection) :
  Text (a ++ b)%list = (Text a ++ Text b)%string.
Proof.
  unfold Text. induction a as [|n a IH]; [reflexivity|].
  cbn [app fold_right]. now rewrite IH, append_assoc.
Qed.

(** X6: the lists follow the document. [ItemPropContentList] gives the
    [content] attributes that are not empty, [ExtractRecipePhotos] the
    [src] attributes that are not empty and [ItemPropChildrenText] the
    lines of the child elements, each in the order of the nodes; what a
    fragment gives is what its first children give, followed by what its
    later children give. *)
Theorem extractors_follow_document_order :
  (forall (s : RecipeNode) (propName : string),
      ItemPropContentList s propName
      = Some (contents_in_order (ItemProp s "meta" propName))
      /\ ItemPropChildrenText s propName
         = Some (lines_in_order (Children (ItemProp s "" propName)))
      /\ ExtractRecipePhotos s
         = Some (srcs_in_order (Find (root s) photo_selector)))
  /\ (forall (cs1 cs2 : list Node) (propName : string),
        elems (ItemPropContentList (fragment (cs1 ++ cs2)) propName)
        = (elems (ItemPropContentList (fragment cs1) propName)
           ++ elems (ItemPropContentList (fragment cs2) propName))%list
        /\ elems (ItemPropChildrenText (fragment (cs1 ++ cs2)) propName)
           = (elems (ItemPropChildrenText (fragment cs1) propName)
              ++ elems (ItemPropChildrenText (fragment cs2) propName))%list
        /\ elems (ExtractRecipePhotos (fragment (cs1 ++ cs2)))
           = (elems (ExtractRecipePhotos (fragment cs1))
              ++ elems (ExtractRecipePhotos (fragment cs2)))%list).
Proof.
  split.
  - intros s propName.
    split; [apply ItemPropContentList_spec|].
    split; [apply ItemPropChildrenText_spec | apply ExtractRecipePhotos_spec].
  - intros cs1 cs2 propName.
    rewrite !ItemPropContentList_spec, !ItemPropChildrenText_spec,
      !ExtractRecipePhotos_spec.
    cbn [elems]. rewrite !ItemProp_fragment_app, Children_app.
    rewrite Find_fragment_app.
    unfold contents_in_order, lines_in_order, srcs_in_order.
    rewrite !flat_map_app. repeat split.
Qed.

(** X10: [ItemPropElemText] puts the texts of all the elements that
    carry the property one after the other, with nothing between them:
    two [name] elements give a title made of both texts, and an element
    that carries the property inside another one that does is read
    twice. *)
Theorem ItemPropElemText_concatenates :
  (forall (cs1 cs2 : list Node) (propName : string),
      ItemPropElemText (fragment (cs1 ++ cs2)) propName
      = (ItemPropElemText (fragment cs1) propName
         ++ ItemPropElemText (fragment cs2) propName)%string)
  /\ (forall a b : string,
        Title (ExtractRecipe (fragment [span "name" a; span "name" b]))
        = (a ++ b)%string)
  /\ (forall a b : string,
        Title (ExtractRecipe
                 (fragment [ElementNode "div" [("itemprop", "name")]
                              [TextNode a; span "name" b]]))
        = (a ++ b ++ b)%string).
Proof.
  split; [|split].
  - intros cs1 cs2 propName. unfold ItemPropElemText.
    rewrite ItemProp_fragment_app. apply Text_app.
  - intros a b. cbn. now rewrite !append_nil_r.
  - intros a b. cbn. now rewrite !append_nil_r, append_assoc.
Qed.

(** X11: the first [meta] that carries the property decides what
    [ItemPropContentOr] returns: later ones are not looked at, even when
    the first has no [content] attribute (the default is returned
    then); elements that are no [meta] do not count. *)
Theorem ItemPropContentOr_first_match (cs1 cs2 : list Node)
    (propName dflt : string) :
  (ItemProp (fragment cs1) "meta" propName <> [] ->
   ItemPropContentOr (fragment (cs1 ++ cs2)) propName dflt
   = ItemPropContentOr (fragment cs1) propName dflt)
  /\ (ItemProp (fragment cs1) "meta" propName = [] ->
      ItemPropContentOr (fragment (cs1 ++ cs2)) propName dflt
      = ItemPropContentOr (fragment cs2) propName dflt).
Proof.
  unfold ItemPropContentOr, ItemPropAttrOr.
  rewrite ItemProp_fragment_app. split.
  - intros H. destruct (ItemProp (fragment cs1) "meta" propName);
      [congruence | reflexivity].
  - intros ->. reflexivity.
Qed.

Lemma ItemPropContentOr_first_match_witness :
  ItemPropContentOr
    (fragment ([ElementNode "meta" [("itemprop", "prepTime")] []]
               ++ [meta "prepTime" "PT5M"])) "prepTime" "PT50S"
  = "PT50S"
  /\ ItemPropContentOr
       (fragment ([span "prepTime" "PT9M"] ++ [meta "prepTime" "PT5M"]))
       "prepTime" "PT50S"
     = "PT5M".
Proof.
  split.
  - destruct (ItemPropContentOr_first_match
                [ElementNode "meta" [("itemprop", "prepTime")] []]
                [meta "prepTime" "PT5M"] "prepTime" "PT50S") as [H _].
    rewrite H; [reflexivity | discriminate].
  - destruct (ItemPropContentOr_first_match
                [span "prepTime" "PT9M"]
                [meta "prepTime" "PT5M"] "prepTime" "PT50S") as [_ H].
    rewrite H; reflexivity.
Defined.

Lemma MatchAll_attr_no_element (key val : string) (kids : list Node) :
  Forall (fun k => is_element k = false) kids ->
  flat_map (MatchAll (match_attr_eq key val)) kids = [].
Proof.
  induction 1 as [|k kids Hk _ IH]; [reflexivity|].
  cbn [flat_map]. rewrite IH.
  destruct k as [d|d|t a cs]; [reflexivity | reflexivity | discriminate Hk].
Qed.

Lemma filter_no_element (kids : list Node) :
  Forall (fun k => is_element k = false) kids ->
  filter is_element kids = [].
Proof.
  induction 1 as [|k kids Hk _ IH]; [reflexivity|].
  cbn [filter]. now rewrite Hk.
Qed.

(** X7: text and comments that stand directly in the element that
    carries the property, outside any child element, are not read by
    [ItemPropChildrenText]: such an element gives the empty list. *)
Theorem ItemPropChildrenText_skips_direct_text (tag propName : string)
    (attr : list (string * string)) (kids : list Node) :
  Forall (fun k => is_element k = false) kids ->
  ItemPropChildrenText
    (fragment [ElementNode tag (("itemprop", propName) :: attr) kids])
    propName
  = Some [].
Proof.
  intros Hkids. rewrite ItemPropChildrenText_spec.
  unfold ItemProp, Find, fragment, itemprop_selector.
  cbn [root children_of flat_map is_element MatchAll String.eqb].
  rewrite MatchAll_attr_no_element by exact Hkids.
  unfold match_attr_eq at 1. cbn [existsb fst snd].
  rewrite !String.eqb_refl. cbn [andb orb app].
  unfold Children. cbn [flat_map children_of].
  rewrite filter_no_element by exact Hkids. reflexivity.
Qed.

Lemma ItemPropChildrenText_skips_direct_text_witness :
  ItemPropChildrenText
    (fragment [ElementNode "div" [("itemprop", "recipeIngredients")]
                 [TextNode "1 cup broth"; CommentNode "more"]])
    "recipeIngredients"
  = Some [].
Proof.
  apply (ItemPropChildrenText_skips_direct_text "div" "recipeIngredients" []).
  repeat constructor.
Defined.

(** X9: every ingredient, instruction and notes line of an extracted
    recipe is not empty, holds no fraction glyph and is well-formed
    UTF-8. *)
Theorem recipe_lines_are_clean (s : RecipeNode) (x : string) :
  In x (elems (IngredientLines (ExtractRecipe s))
        ++ elems (InstructionLines (ExtractRecipe s))
        ++ elems (NotesLines (ExtractRecipe s)))%list ->
  x <> ""
  /\ (forall r, In r (runes x) -> map_lookup fractions r = None)
  /\ string_of_runes (runes x) = x.
Proof.
  cbn [ExtractRecipe IngredientLines InstructionLines NotesLines].
  rewrite !ItemPropChildrenText_spec. cbn [elems].
  rewrite !in_app_iff. unfold lines_in_order.
  intros H.
  assert (Hx : exists n,
            In x (kept (ConvertFractions (Strings.TrimSpace (node_text n))))).
  { destruct H as [H | [H | H]];
      apply in_flat_map in H as (n & _ & H); now exists n. }
  destruct Hx as (n & Hx). apply kept_not_empty in Hx as [Hne ->].
  split; [exact Hne|]. split.
  - intros r. apply ConvertFractions_no_glyph.
  - apply ConvertFractions_well_formed.
Qed.

Lemma recipe_lines_are_clean_witness :
  "1/2 cup rice" <> ""
  /\ string_of_runes (runes "1/2 cup rice") = "1/2 cup rice".
Proof.
  destruct (recipe_lines_are_clean
              (fragment [ElementNode "div" [("itemprop", "recipeIngredients")]
                           [par " ½ cup rice "]])
              "1/2 cup rice") as (H1 & _ & H3).
  - vm_compute. tauto.
  - split; [exact H1 | exact H3].
Defined.



End ListExtractors.

(* ===================================================================== *)
(** * The rating *)
(* ===================================================================== *)

Section Ratings.

Lemma Rating_ExtractRecipeMetadata (s : RecipeNode) :
  Rating (ExtractRecipeMetadata s)
  = match Strconv.Atoi (ItemPropContentOr s "recipeRating" "0") with
    | Ok rating => rating
    | Err _ => 0
    end.
Proof.
  unfold ExtractRecipeMetadata.
  destruct (Strconv.Atoi _);
    destruct (ParseISODuration (Strings.TrimSpace _));
    destruct (ParseISODuration (ItemPropContentOr _ _ _)); reflexivity.
Qed.

(** X12: the rating is the integer [Atoi] reads in the content of the
    first [recipeRating]; it is 0 when there is none and when [Atoi]
    fails. The content is not trimmed, and a sign is accepted. *)
Theorem Rating_defaults (s : RecipeNode) :
  (ItemProp s "meta" "recipeRating" = [] ->
   Rating (ExtractRecipeMetadata s) = 0)
  /\ (forall n,
        Strconv.Atoi (ItemPropContentOr s "recipeRating" "0") = Ok n ->
        Rating (ExtractRecipeMetadata s) = n)
  /\ (forall e,
        Strconv.Atoi (ItemPropContentOr s "recipeRating" "0") = Err e ->
        Rating (ExtractRecipeMetadata s) = 0).
Proof.
  rewrite Rating_ExtractRecipeMetadata. split; [|split].
  - intros H. rewrite (ItemPropContentOr_absent _ _ _ H). reflexivity.
  - intros n ->. reflexivity.
  - intros e ->. reflexivity.
Qed.

Lemma Rating_defaults_witness :
  Rating (ExtractRecipeMetadata (fragment [])) = 0
  /\ Rating (ExtractRecipeMetadata (fragment [meta "recipeRating" "-3"]))
     = -3
  /\ Rating (ExtractRecipeMetadata (fragment [meta "recipeRating" " 5"]))
     = 0
  /\ Rating (ExtractRecipeMetadata (fragment [meta "recipeRating" "4.5"]))
     = 0.
Proof.
  destruct (Rating_defaults (fragment [])) as (H0 & _ & _).
  destruct (Rating_defaults (fragment [meta "recipeRating" "-3"]))
    as (_ & H1 & _).
  destruct (Rating_defaults (fragment [meta "recipeRating" " 5"]))
    as (_ & _ & H2).
  destruct (Rating_defaults (fragment [meta "recipeRating" "4.5"]))
    as (_ & _ & H3).
  split; [|split; [|split]].
  - apply H0. reflexivity.
  - apply H1. vm_compute. reflexivity.
  - apply H2 with (e := NumError "Atoi" " 5" false). vm_compute. reflexivity.
  - apply H3 with (e := NumError "Atoi" "4.5" false). vm_compute. reflexivity.
Defined.

(** ** Writing an integer and reading it back *)

Lemma digit_byte (d : Z) :
  0 <= d < 10 ->
  Strconv.is_digit (byte_val (byte_of (d + 0x30))) = true
  /\ byte_val (byte_of (d + 0x30)) - 0x30 = d.
Proof.
  intros H. rewrite byte_val_of by lia. unfold Strconv.is_digit.
  split; [|lia].
  apply andb_true_iff. split; apply Z.leb_le; lia.
Qed.

Lemma parse_put_digits (fuel : nat) :
  forall (v : Z) (acc : string),
    0 <= v < 2 ^ Z.of_nat fuel ->
    exists k, 0 <= k /\ forall n0,
      Strconv.parse_digits (Strconv.put_digits fuel v acc) n0
      = Strconv.parse_digits acc (n0 * 10 ^ k + v).
Proof.
  induction fuel as [|fuel IH]; intros v acc Hv.
  - exists 0. split; [lia|]. intros n0. cbn [Strconv.put_digits].
    f_equal. cbn in Hv. lia.
  - cbn [Strconv.put_digits]. destruct (Z.leb_spec v 0).
    + exists 0. split; [lia|]. intros n0. f_equal. lia.
    + assert (Hd : 0 <= v / 10 < 2 ^ Z.of_nat fuel).
      { rewrite Nat2Z.inj_succ, Z.pow_succ_r in Hv by lia.
        split; [apply Z.div_pos; lia|].
        apply Z.div_lt_upper_bound; lia. }
      destruct (IH (v / 10) (String (byte_of (v mod 10 + 0x30)) acc) Hd)
        as (k & Hk & E).
      exists (k + 1). split; [lia|]. intros n0. rewrite E.
      cbn [Strconv.parse_digits].
      destruct (digit_byte (v mod 10)) as [-> ->];
        [apply Z.mod_pos_bound; lia|].
      f_equal. rewrite Z.pow_add_r by lia.
      pose proof (Z.div_mod v 10 ltac:(lia)). lia.
Qed.

Lemma put_digits_head (fuel : nat) :
  forall (v : Z) (c : ascii) (acc : string),
    Strconv.is_digit (byte_val c) = true ->
    exists c' rest,
      Strconv.put_digits fuel v (String c acc) = String c' rest
      /\ Strconv.is_digit (byte_val c') = true.
Proof.
  induction fuel as [|fuel IH]; intros v c acc Hc; cbn [Strconv.put_digits].
  - now exists c, acc.
  - destruct (v <=? 0); [now exists c, acc|].
    apply IH. apply digit_byte. apply Z.mod_pos_bound. lia.
Qed.

(** The digits of a number that is not negative: they start with a
    digit and read back as the number. *)
Lemma digits_of_spec (v : Z) :
  0 <= v ->
  (exists c rest,
      Strconv.digits_of v "" = String c rest
      /\ Strconv.is_digit (byte_val c) = true)
  /\ Strconv.parse_digits (Strconv.digits_of v "") 0 = Some v.
Proof.
  intros Hv. unfold Strconv.digits_of.
  destruct (Z.leb_spec v 0).
  - assert (v = 0) by lia. subst v. split; [|reflexivity].
    exists "0"%char, "". split; reflexivity.
  - split.
    + cbn [Strconv.put_digits]. destruct (Z.leb_spec v 0); [lia|].
      apply put_digits_head, digit_byte, Z.mod_pos_bound. lia.
    + destruct (parse_put_digits (S (Z.to_nat (Z.log2 v))) v "")
        as (k & _ & E).
      { rewrite Nat2Z.inj_succ, Z2Nat.id by apply Z.log2_nonneg.
        split; [lia|]. apply Z.log2_spec. lia. }
      rewrite E. cbn [Strconv.parse_digits]. f_equal; lia.
Qed.

Lemma strip_sign_digit (c : ascii) (t : string) :
  Strconv.is_digit (byte_val c) = true ->
  Strconv.strip_sign (String c t) = (false, String c t).
Proof.
  unfold Strconv.is_digit, Strconv.strip_sign. intros H.
  apply andb_true_iff in H as [H1 H2]. apply Z.leb_le in H1, H2.
  destruct (Z.eqb_spec (byte_val c) 43); [lia|].
  destruct (Z.eqb_spec (byte_val c) 45); [lia|]. reflexivity.
Qed.




End Ratings.

(* ===================================================================== *)
(** * What the parentheses of the duration expression hold *)
(* ===================================================================== *)

Section Captures.

Lemma plus_loop_caps {R} (c : class) (ts : list token) (p : nat)
    (k : nat -> list token -> option R) (res : R) :
  plus_loop c ts p k = Some res ->
  exists w ts',
    w <> [] /\ ts = (w ++ ts')%list
    /\ Forall (fun t => class_matches c (tok_rune t) = true) w
    /\ k (p + total_len w)%nat ts' = Some res.
Proof.
  revert p. induction ts as [|t ts IH]; intros p; cbn [plus_loop].
  - discriminate.
  - destruct (class_matches c (tok_rune t)) eqn:M; [|discriminate].
    destruct (plus_loop c ts (p + tok_len t) k) as [r|] eqn:L.
    + intros H. injection H as <-.
      destruct (IH _ L) as (w & ts' & Hw & -> & Hall & Hk).
      exists (t :: w), ts'. split; [discriminate|]. split; [reflexivity|].
      split; [constructor; assumption|].
      cbn [total_len fold_right]. fold (total_len w).
      now rewrite Nat.add_assoc.
    + intros Hk. exists [t], ts. split; [discriminate|].
      split; [reflexivity|]. split; [constructor; [assumption|constructor]|].
      cbn [total_len fold_right]. now rewrite Nat.add_0_r.
Qed.

(** The matcher only does what the expression allows, registers
    included. *)
Lemma run_caps {R} (re : regex) :
  forall (st : mstate) (k : mstate -> option R) (res : R),
    run re st k = Some res ->
    exists st', reach_caps re st st' /\ k st' = Some res.
Proof.
  induction re as [| |c|c|a IHa b IHb|a IHa|i a IHa];
    intros st k res; cbn [run reach_caps].
  - destruct (pos st =? 0)%nat eqn:E; [|discriminate].
    apply Nat.eqb_eq in E. intros H. exists st. auto.
  - destruct (rest st) eqn:E; [|discriminate].
    intros H. exists st. auto.
  - destruct (rest st) as [|t ts] eqn:E; [discriminate|].
    destruct (class_matches c (tok_rune t)) eqn:M; [|discriminate].
    intros H. eexists. split; [|exact H]. exists t, ts. auto.
  - intros H. apply plus_loop_caps in H.
    destruct H as (w & ts' & Hw & E & Hall & Hk).
    eexists. split; [|exact Hk]. exists w, ts'. auto.
  - intros H. apply IHa in H. destruct H as (sm & Ha & H).
    apply IHb in H. destruct H as (st' & Hb & H).
    exists st'. split; [|exact H]. eauto.
  - destruct (run a st k) as [r|] eqn:E.
    + intros H. injection H as <-. apply IHa in E.
      destruct E as (st' & Ha & H). exists st'. auto.
    + intros H. exists st. auto.
  - intros H. apply IHa in H. destruct H as (st' & Ha & H).
    eexists. split; [|exact H]. exists st'. auto.
Qed.

Lemma reach_caps_consumes (re : regex) :
  forall st st',
    reach_caps re st st' ->
    exists w, rest st = (w ++ rest st')%list
              /\ pos st' = (pos st + total_len w)%nat.
Proof.
  induction re as [| |c|c|a IHa b IHb|a IHa|i a IHa];
    intros st st'; cbn [reach_caps].
  - intros (_ & ->). exists []. cbn. auto.
  - intros (_ & ->). exists []. cbn. auto.
  - intros (t & ts & E & _ & ->). exists [t]. cbn. rewrite E. auto.
  - intros (w & ts & _ & E & _ & ->). exists w. cbn. auto.
  - intros (sm & Ha & Hb).
    apply IHa in Ha as (w1 & E1 & P1). apply IHb in Hb as (w2 & E2 & P2).
    exists (w1 ++ w2)%list. rewrite E1, E2, P2, P1, <- app_assoc.
    split; [reflexivity|].
    unfold total_len. rewrite fold_right_app.
    fold (total_len w2).
    clear. induction w1 as [|t w1 IH]; cbn; lia.
  - intros [H | ->]; [now apply IHa | exists []; cbn; auto].
  - intros (sm & Ha & ->). cbn [pos rest]. now apply IHa.
Qed.

Lemma total_len_bytes (w : list token) :
  total_len w = String.length (concat_strings (map tok_bytes w)).
Proof.
  induction w as [|t w IH]; [reflexivity|].
  cbn [total_len fold_right map concat_strings].
  fold (total_len w) (concat_strings (map tok_bytes w)).
  rewrite length_append, <- IH. reflexivity.
Qed.

Lemma drop_drop (n m : nat) (s : string) :
  drop (n + m) s = drop m (drop n s).
Proof.
  revert s. induction n as [|n IH]; intros s; [reflexivity|].
  destruct s as [|c s]; cbn [Nat.add drop].
  - destruct m; reflexivity.
  - apply IH.
Qed.

(** What was consumed between two states is the bytes of the string
    between the two offsets. *)
Lemma aligned_consumes (s : string) (st st' : mstate) (w : list token) :
  aligned s st ->
  rest st = (w ++ rest st')%list ->
  pos st' = (pos st + total_len w)%nat ->
  aligned s st'
  /\ substr s (pos st) (pos st') = concat_strings (map tok_bytes w)
  /\ Forall token_ok w.
Proof.
  intros [Hd Hok] E P. rewrite E in Hd, Hok.
  rewrite map_app, concat_strings_app in Hd.
  apply Forall_app in Hok as [Hw Hr].
  split; [split; [|exact Hr]|split; [|exact Hw]].
  - rewrite P, drop_drop, Hd, total_len_bytes. apply drop_app.
  - unfold substr. rewrite P, Hd.
    replace (pos st + total_len w - pos st)%nat with (total_len w) by lia.
    rewrite total_len_bytes. apply take_app.
Qed.

Lemma reach_caps_aligned (re : regex) (s : string) (st st' : mstate) :
  reach_caps re st st' -> aligned s st -> aligned s st'.
Proof.
  intros H Ha. apply reach_caps_consumes in H as (w & E & P).
  now destruct (aligned_consumes s st st' w Ha E P).
Qed.

(** The bytes of digit runes are digits. *)
Lemma digit_tokens_bytes (w : list token) :
  Forall token_ok w ->
  Forall (fun t => class_matches ClassDigit (tok_rune t) = true) w ->
  all_digits (concat_strings (map tok_bytes w)) = true
  /\ (w <> [] -> digit_led (concat_strings (map tok_bytes w))).
Proof.
  intros Hok Hd.
  assert (Hone : forall t, token_ok t ->
            class_matches ClassDigit (tok_rune t) = true ->
            exists c, tok_bytes t = String c ""
                      /\ Strconv.is_digit (byte_val c) = true).
  { intros t [_ Hasc] M. cbn [class_matches] in M.
    pose proof M as M'.
    apply andb_true_iff in M' as [M1 M2]. apply Z.leb_le in M1, M2.
    exists (byte_of (tok_rune t)). split; [apply Hasc; lia|].
    rewrite byte_val_of by lia. exact M. }
  split.
  - induction Hok as [|t w Ht _ IH]; [reflexivity|].
    apply Forall_cons_iff in Hd as [M Hd].
    destruct (Hone t Ht M) as (c & E & Hc).
    cbn [map concat_strings fold_right].
    fold (concat_strings (map tok_bytes w)).
    rewrite E. cbn [String.append all_digits]. rewrite Hc. now apply IH.
  - intros Hne. destruct w as [|t w]; [congruence|].
    apply Forall_cons_iff in Hok as [Ht _].
    apply Forall_cons_iff in Hd as [M _].
    destruct (Hone t Ht M) as (c & E & Hc).
    cbn [map concat_strings fold_right]. rewrite E.
    eexists c, _. split; [reflexivity | exact Hc].
Qed.

Lemma digit_led_app (a b : string) : digit_led a -> digit_led (a ++ b).
Proof.
  intros (c & t & -> & H). exists c, (t ++ b)%string. now split.
Qed.

(** An optional group of digits closed by a letter: it leaves the
    registers as they are, or adds one that holds digits. *)
Lemma digits_group (s : string) (i : nat) (x : rune) (st st' : mstate) :
  i <> 6%nat ->
  reach_caps (Quest (Cat (Capture i (Plus1 ClassDigit)) (One (ClassLit x))))
             st st' ->
  aligned s st -> caps_ok s (caps st) -> caps_ok s (caps st').
Proof.
  intros Hi H Ha Hc. cbn [reach_caps] in H.
  destruct H as [(sm & (sb & (w & ts & Hw & E & Hall & ->) & ->) & H) | ->];
    [|exact Hc].
  destruct H as (t & ts' & _ & _ & ->). cbn [caps pos rest].
  intros j lo hi [Hin | Hin]; [|now apply Hc].
  injection Hin as <- <- <-.
  destruct (aligned_consumes s st
              {| pos := (pos st + total_len w)%nat; rest := ts;
                 caps := caps st |} w Ha E eq_refl) as (_ & Hs & Hok).
  cbn [pos] in Hs. rewrite Hs.
  destruct (digit_tokens_bytes w Hok Hall) as [Hd Hl].
  split; [now apply Hl | intros _; exact Hd].
Qed.

(** The seconds group: digits first. *)
Lemma seconds_group (s : string) (tail : regex) (x : rune)
    (st st' : mstate) :
  (forall a b, reach_caps tail a b -> caps b = caps a) ->
  reach_caps
    (Quest (Cat (Capture 6 (Cat (Plus1 ClassDigit) tail))
                (One (ClassLit x))))
    st st' ->
  aligned s st -> caps_ok s (caps st) -> caps_ok s (caps st').
Proof.
  intros Htail H Ha Hc. cbn [reach_caps] in H.
  destruct H as [(sm & (sb & (s1 & (w & ts & Hw & E & Hall & ->) & Ht)
                        & ->) & H) | ->];
    [|exact Hc].
  destruct H as (t & ts' & _ & _ & ->). cbn [caps pos rest].
  pose proof (Htail _ _ Ht) as Hcaps. cbn [caps] in Hcaps.
  apply reach_caps_consumes in Ht as (w2 & E2 & P2). cbn [pos rest] in E2, P2.
  intros j lo hi [Hin | Hin]; [|rewrite Hcaps in Hin; now apply Hc].
  injection Hin as <- <- <-.
  destruct (aligned_consumes s st sb (w ++ w2)%list Ha) as (_ & Hs & Hok).
  { rewrite E, E2. now rewrite app_assoc. }
  { rewrite P2. unfold total_len. rewrite fold_right_app.
    fold (total_len w2). clear. induction w as [|t0 w IH]; cbn; lia. }
  rewrite Hs, map_app, concat_strings_app.
  apply Forall_app in Hok as [Hok _].
  destruct (digit_tokens_bytes w Hok Hall) as [_ Hl].
  split; [apply digit_led_app; now apply Hl | congruence].
Qed.

Lemma letter_step (s : string) (x : rune) (st st' : mstate) :
  reach_caps (One (ClassLit x)) st st' -> caps st' = caps st.
Proof. cbn [reach_caps]. now intros (t & ts & _ & _ & ->). Qed.

(** Every register a match of the duration expression leaves holds
    what its parenthesis can hold. *)
Lemma isoDurationRe_caps (s : string) (st st' : mstate) :
  reach_caps isoDurationRe st st' ->
  aligned s st -> caps st = [] -> caps_ok s (caps st').
Proof.
  unfold isoDurationRe. intros H Ha H0.
  destruct H as (s0 & (_ & ->) & H).
  destruct H as (s1 & HP & H).
  destruct H as (s2 & HY & H).
  destruct H as (s3 & HM & H).
  destruct H as (s4 & HD & H).
  destruct H as (s5 & HT & H).
  destruct H as (s6 & HH & H).
  destruct H as (s7 & HM2 & H).
  destruct H as (s8 & HS & (_ & ->)).
  assert (C1 : caps_ok s (caps s1)).
  { rewrite (letter_step s _ _ _ HP), H0. intros i lo hi []. }
  pose proof (reach_caps_aligned _ s _ _ HP Ha) as A1.
  pose proof (digits_group s 1 _ _ _ ltac:(discriminate) HY A1 C1) as C2.
  pose proof (reach_caps_aligned _ s _ _ HY A1) as A2.
  pose proof (digits_group s 2 _ _ _ ltac:(discriminate) HM A2 C2) as C3.
  pose proof (reach_caps_aligned _ s _ _ HM A2) as A3.
  pose proof (digits_group s 3 _ _ _ ltac:(discriminate) HD A3 C3) as C4.
  pose proof (reach_caps_aligned _ s _ _ HD A3) as A4.
  assert (C5 : caps_ok s (caps s5))
    by (rewrite (letter_step s _ _ _ HT); exact C4).
  pose proof (reach_caps_aligned _ s _ _ HT A4) as A5.
  pose proof (digits_group s 4 _ _ _ ltac:(discriminate) HH A5 C5) as C6.
  pose proof (reach_caps_aligned _ s _ _ HH A5) as A6.
  pose proof (digits_group s 5 _ _ _ ltac:(discriminate) HM2 A6 C6) as C7.
  pose proof (reach_caps_aligned _ s _ _ HM2 A6) as A7.
  refine (seconds_group s _ _ _ _ _ HS A7 C7).
  intros a b. cbn [reach_caps].
  intros [(sm & (t & ts & _ & _ & ->) & (w & ts' & _ & _ & _ & ->)) | ->];
    reflexivity.
Qed.

Lemma reach_caps_reach (re : regex) :
  forall st st',
    reach_caps re st st' -> reach re (pos st) (rest st) (pos st') (rest st').
Proof.
  induction re as [| |c|c|a IHa b IHb|a IHa|i a IHa];
    intros st st'; cbn [reach_caps reach].
  - intros (H & ->). auto.
  - intros (H & ->). auto.
  - intros (t & ts & E & M & ->). exists t. cbn. auto.
  - intros (w & ts & Hw & E & Hall & ->). exists w. cbn. auto.
  - intros (sm & Ha & Hb). exists (pos sm), (rest sm). auto.
  - intros [H | ->]; auto.
  - intros (sm & Ha & ->). cbn. auto.
Qed.

(** A match of an expression that begins with [^] is the one the
    matcher finds from the first byte. *)
Lemma search_anchored_run (re : regex) (ts : list token) start st :
  (forall q us q' us', reach re q us q' us' -> q = 0%nat) ->
  Forall token_ok ts ->
  search re 0 ts = Some (start, st) ->
  run re {| pos := 0; rest := ts; caps := [] |} Some = Some st.
Proof.
  intros Hre Hok. destruct ts as [|t ts]; cbn [search].
  - destruct (run re _ Some) as [st0|] eqn:E; [|discriminate].
    intros H. now injection H as _ <-.
  - destruct (run re _ Some) as [st0|] eqn:E.
    + intros H. now injection H as _ <-.
    + rewrite search_later; [discriminate | exact Hre |].
      apply Forall_inv in Hok as [Hlen _]. lia.
Qed.

Lemma range_aligned (s : string) :
  aligned s {| pos := 0; rest := range s; caps := [] |}.
Proof.
  split; cbn [pos rest drop].
  - symmetry. apply range_bytes.
  - apply range_from_ok.
Qed.

Lemma cap_lookup_In (cs : list (nat * (nat * nat))) (i : nat) se :
  cap_lookup cs i = Some se -> In (i, se) cs.
Proof.
  induction cs as [|[j se'] cs IH]; [discriminate|].
  cbn [cap_lookup]. destruct (Nat.eqb_spec j i).
  - intros H. injection H as ->. subst j. now left.
  - intros H. right. now apply IH.
Qed.

(** The groups of a match, as [FindStringSubmatch] returns them: each
    is empty or holds what its parenthesis can hold. *)
Lemma FindStringSubmatch_iso_groups (s : string) (matches : list string)
    (i : nat) :
  FindStringSubmatch isoDurationRe s = Some matches ->
  (1 <= i <= 6)%nat ->
  index matches i = "" \/ group_ok i (index matches i).
Proof.
  unfold FindStringSubmatch.
  destruct (search isoDurationRe 0 (range s)) as [[start st]|] eqn:E;
    [|discriminate].
  intros H Hi. injection H as <-.
  apply search_anchored_run in E.
  2:{ intros q us q' us' R. now apply isoDurationRe_shape in R. }
  2:{ apply range_from_ok. }
  apply run_caps in E as (st' & R & Hst). injection Hst as <-.
  pose proof (isoDurationRe_caps s _ _ R (range_aligned s) eq_refl) as Hc.
  unfold index.
  change (NumSubexp isoDurationRe) with 6%nat. cbn [seq map].
  destruct i as [|[|[|[|[|[|[|i]]]]]]]; try lia; cbn [nth].
  all: match goal with
       | |- context [cap_lookup ?cs ?n] =>
           destruct (cap_lookup cs n) as [[lo hi]|] eqn:L; [|now left]
       end.
  all: right; apply Hc; eapply cap_lookup_In; exact L.
Qed.

End Captures.

(* ===================================================================== *)
(** * The sign and the range of a duration *)
(* ===================================================================== *)

Section DurationRange.

Lemma binary_round_aux_sign (prec emax : Z) (m e : Z) (l : location) :
  not_negative (binary_round_aux prec emax false m e l) = true.
Proof.
  unfold binary_round_aux.
  destruct (shr_fexp prec emax m e l) as [mrs' e'].
  destruct (shr_fexp prec emax _ e' loc_Exact) as [mrs'' e''].
  destruct (shr_m mrs''); [reflexivity | | reflexivity].
  destruct (e'' <=? emax - prec); reflexivity.
Qed.

Lemma binary_round_sign (prec emax : Z) (m : positive) (e : Z) :
  not_negative (binary_round prec emax false m e) = true.
Proof.
  unfold binary_round. destruct (shl_align m e _) as [mz ez].
  apply binary_round_aux_sign.
Qed.

Lemma binary_normalize_sign (prec emax : Z) (m e : Z) :
  0 <= m -> not_negative (binary_normalize prec emax m e false) = true.
Proof.
  intros Hm. destruct m as [|p|p]; [reflexivity | | lia].
  apply binary_round_sign.
Qed.

Lemma fmul_not_negative (x y : spec_float) :
  not_negative x = true -> not_negative y = true ->
  not_negative (Time.fmul x y) = true.
Proof.
  unfold Time.fmul.
  destruct x as [[|]|[|]| |[|] mx ex]; destruct y as [[|]|[|]| |[|] my ey];
    cbn; try discriminate; try reflexivity.
  intros _ _. apply binary_round_aux_sign.
Qed.

Lemma fadd_not_negative (x y : spec_float) :
  not_negative x = true -> not_negative y = true ->
  not_negative (Time.fadd x y) = true.
Proof.
  unfold Time.fadd.
  destruct x as [[|]|[|]| |[|] mx ex]; destruct y as [[|]|[|]| |[|] my ey];
    cbn [not_negative negb SFadd]; try discriminate; try reflexivity.
  intros _ _. cbn [cond_Zopp]. apply binary_normalize_sign. lia.
Qed.

Lemma to_float64_sign (f : spec_float) :
  not_negative f = true -> not_negative (Strconv.to_float64 f) = true.
Proof.
  destruct f as [s|s| |[|] m e]; cbn; try easy.
  intros _. apply binary_round_sign.
Qed.

Lemma to_float32_sign (f : spec_float) :
  not_negative f = true -> not_negative (Strconv.to_float32 f) = true.
Proof.
  destruct f as [s|s| |[|] m e]; cbn; try easy.
  intros _. apply binary_round_sign.
Qed.

Lemma decimal_to_float_sign (prec emax m e10 : Z) :
  not_negative (Strconv.decimal_to_float prec emax false m e10) = true.
Proof.
  unfold Strconv.decimal_to_float. destruct m as [|p|p]; try reflexivity.
  destruct (0 <=? e10); [apply binary_round_sign|].
  unfold Strconv.round_ratio.
  destruct (SFdiv_core_binary _ _ _ _ _ _) as [[q e] l].
  apply binary_round_aux_sign.
Qed.

(** ** Reading a number that starts with a digit *)

Lemma read_digits_mant (hex : bool) (s : string) :
  forall d d' s',
    0 <= Strconv.mant d ->
    Strconv.read_digits hex s d = (d', s') -> 0 <= Strconv.mant d'.
Proof.
  induction s as [|c s IH]; intros d d' s' Hd; cbn [Strconv.read_digits].
  - intros H. now injection H as <- _.
  - destruct (byte_val c =? 95); [apply IH; exact Hd|].
    destruct (byte_val c =? 46).
    { destruct (Strconv.sawdot d).
      - intros H. now injection H as <- _.
      - apply IH. exact Hd. }
    destruct (Strconv.is_digit (byte_val c)) eqn:Dg.
    { destruct ((byte_val c =? 48) && (Strconv.nd d =? 0));
        apply IH; cbn [Strconv.mant]; [exact Hd|].
      unfold Strconv.is_digit in Dg. apply andb_true_iff in Dg as [D1 _].
      apply Z.leb_le in D1. destruct hex; lia. }
    destruct (hex && Strconv.is_hex_letter (byte_val c)) eqn:Hx.
    { apply IH. cbn [Strconv.mant].
      apply andb_true_iff in Hx as [_ Hx]. unfold Strconv.is_hex_letter in Hx.
      apply andb_true_iff in Hx as [H1 _]. apply Z.leb_le in H1. lia. }
    intros H. now injection H as <- _.
Qed.

Lemma readFloat_sign (c : ascii) (t : string) (p : Strconv.parsed) :
  Strconv.is_digit (byte_val c) = true ->
  Strconv.readFloat (String c t) = Some p ->
  Strconv.p_neg p = false /\ 0 <= Strconv.p_mant p.
Proof.
  intros Hc. unfold Strconv.readFloat.
  rewrite (strip_sign_digit c t Hc).
  destruct (Strconv.read_digits _ _ _) as [d s3] eqn:RD.
  apply read_digits_mant in RD; [|cbn; lia].
  cbv zeta.
  repeat match goal with
         | |- Some _ = Some _ -> _ =>
             let H := fresh in intros H; injection H as <-; cbn; auto
         | |- None = Some _ -> _ => discriminate
         | |- context [if ?b then _ else _] => destruct b
         | |- context [match ?x with _ => _ end] => destruct x
         end.
Qed.

Lemma special_digit (c : ascii) (t : string) :
  Strconv.is_digit (byte_val c) = true ->
  Strconv.special (String c t) = None.
Proof.
  intros Hc. unfold Strconv.special. cbn [Strconv.lower_string].
  assert (Hl : Strconv.lower_AZ c = c).
  { unfold Strconv.lower_AZ, Strconv.is_digit in *.
    apply andb_true_iff in Hc as [H1 H2]. apply Z.leb_le in H1, H2.
    destruct (Z.leb_spec 65 (byte_val c)); [lia | reflexivity]. }
  rewrite Hl. rewrite (strip_sign_digit c _ Hc).
  assert (Hne : forall x : ascii,
            Strconv.is_digit (byte_val x) = false -> Ascii.eqb c x = false).
  { intros x Hx. destruct (Ascii.eqb_spec c x); [|reflexivity].
    subst x. congruence. }
  cbn [String.eqb]. rewrite !Hne by reflexivity. reflexivity.
Qed.

Lemma ParseFloat32_not_negative (s : string) (f : spec_float) :
  digit_led s ->
  Strconv.ParseFloat32 s = Ok f -> not_negative f = true.
Proof.
  intros (c & t & -> & Hc). unfold Strconv.ParseFloat32.
  rewrite (special_digit c t Hc).
  destruct (Strconv.readFloat (String c t)) as [p|] eqn:RF; [|discriminate].
  destruct (readFloat_sign c t p Hc RF) as [Hneg Hm].
  destruct (Strconv.p_rest p); [|discriminate].
  rewrite Hneg.
  destruct (Strconv.is_infinite _); [discriminate|].
  intros H. injection H as <-. apply to_float64_sign.
  destruct (Strconv.p_hex p).
  - now apply binary_normalize_sign.
  - apply decimal_to_float_sign.
Qed.

(** ** Writing a float that is not negative *)

Lemma digits_of_head (v : Z) (acc : string) :
  exists c rest,
    Strconv.digits_of v acc = String c rest
    /\ Strconv.is_digit (byte_val c) = true.
Proof.
  unfold Strconv.digits_of. destruct (Z.leb_spec v 0).
  - exists "0"%char, acc. split; reflexivity.
  - cbn [Strconv.put_digits]. destruct (Z.leb_spec v 0); [lia|].
    apply put_digits_head, digit_byte, Z.mod_pos_bound. lia.
Qed.

Lemma FormatFloat32_f_head (f : spec_float) :
  not_negative f = true ->
  exists c rest,
    Strconv.FormatFloat32_f f = String c rest /\ byte_val c <> 0x2D.
Proof.
  intros Hf. apply to_float32_sign in Hf. unfold Strconv.FormatFloat32_f.
  destruct (Strconv.to_float32 f) as [[|]|[|]| |[|] m e];
    try discriminate Hf.
  - exists "0"%char, "". split; [reflexivity | discriminate].
  - exists "+"%char, "Inf". split; [reflexivity | discriminate].
  - exists "N"%char, "aN". split; [reflexivity | discriminate].
  - destruct (Strconv.shortest32 m e) as [R j]. cbn [String.append].
    unfold Strconv.fmtF.
    destruct (Strconv.put_frac _ _ _ _) as [[frac print] int_part].
    destruct (digits_of_head int_part
                (if print then String "." frac else frac))
      as (c & rest & -> & Hc).
    exists c, rest. split; [reflexivity|].
    unfold Strconv.is_digit in Hc. apply andb_true_iff in Hc as [H1 _].
    apply Z.leb_le in H1. lia.
Qed.

(** ** A duration written without a minus sign *)

Lemma parse_terms_range (fuel : nat) (orig : string) :
  forall (s : string) (d d' : Z),
    0 <= d ->
    Time.parse_terms fuel orig s d = Ok d' -> 0 <= d'.
Proof.
  induction fuel as [|fuel IH]; intros s d d' Hd; cbn [Time.parse_terms].
  - intros H. injection H as <-. exact Hd.
  - destruct s as [|c0 s0]; [intros H; injection H as <-; exact Hd|].
    destruct (negb _); [discriminate|].
    destruct (Time.leadingInt _ 0) as [[v s1]|]; [|discriminate].
    destruct (match s1 with
              | EmptyString => _
              | String c1 t1 => _
              end) as [[[f scale] s2] post].
    destruct (_ && _); [discriminate|].
    destruct (Time.split_unit s2) as [u s3].
    destruct u as [|cu u']; [discriminate|].
    destruct (Time.unitMap _) as [unit|]; [|discriminate].
    destruct (_ <? v); [discriminate|].
    destruct (2 ^ 63 <? _); [discriminate|].
    destruct (2 ^ 63 <? _); [discriminate|].
    apply IH. apply Z.mod_pos_bound. lia.
Qed.

Lemma ParseDuration_not_negative (c : ascii) (rest : string) (d : Z) :
  byte_val c <> 0x2D ->
  Time.ParseDuration (String c rest) = Ok d -> 0 <= d < 2 ^ 63.
Proof.
  intros Hc. unfold Time.ParseDuration.
  assert (Hs : fst (Strconv.strip_sign (String c rest)) = false).
  { unfold Strconv.strip_sign.
    destruct (byte_val c =? 43); [reflexivity|].
    destruct (Z.eqb_spec (byte_val c) 45); [contradiction | reflexivity]. }
  destruct (Strconv.strip_sign (String c rest)) as [neg s].
  cbn [fst] in Hs. subst neg.
  destruct (s =? "0")%string; [intros H; injection H as <-; lia|].
  destruct s as [|c1 s1]; [discriminate|].
  destruct (Time.parse_terms _ _ _ 0) as [d0|e] eqn:PT; [|discriminate].
  apply parse_terms_range in PT; [|lia].
  destruct (Z.ltb_spec (2 ^ 63 - 1) d0); [discriminate|].
  intros E. injection E as <-. lia.
Qed.

Lemma is_digit_range (b : Z) :
  Strconv.is_digit b = true <-> 48 <= b <= 57.
Proof.
  unfold Strconv.is_digit. rewrite andb_true_iff, !Z.leb_le. reflexivity.
Qed.

Lemma read_digits_all (s : string) :
  forall d,
    all_digits s = true ->
    exists d',
      Strconv.read_digits false s d = (d', "")
      /\ Strconv.underscores d' = Strconv.underscores d
      /\ Strconv.sawdot d' = Strconv.sawdot d
      /\ (s <> "" -> Strconv.sawdigits d' = true)
      /\ (s = "" -> d' = d).
Proof.
  induction s as [|c s IH]; intros d Hs.
  - exists d. cbn. repeat split; congruence.
  - cbn [all_digits] in Hs. apply andb_true_iff in Hs as [Hc Hs].
    pose proof Hc as Hr. apply is_digit_range in Hr.
    cbn [Strconv.read_digits].
    destruct (Z.eqb_spec (byte_val c) 95); [lia|].
    destruct (Z.eqb_spec (byte_val c) 46); [lia|].
    rewrite Hc.
    assert (Hk : forall dn,
              Strconv.underscores dn = Strconv.underscores d ->
              Strconv.sawdot dn = Strconv.sawdot d ->
              Strconv.sawdigits dn = true ->
              exists d',
                Strconv.read_digits false s dn = (d', "")
                /\ Strconv.underscores d' = Strconv.underscores d
                /\ Strconv.sawdot d' = Strconv.sawdot d
                /\ (String c s <> "" -> Strconv.sawdigits d' = true)
                /\ (String c s = "" -> d' = d)).
    { intros dn Hu Hdot Hsd.
      destruct (IH dn Hs) as (d' & E & Hu' & Hdot' & Hsd' & Hid).
      exists d'. split; [exact E|]. split; [congruence|].
      split; [congruence|]. split; [|discriminate].
      intros _. destruct s as [|c' s'].
      - rewrite (Hid eq_refl). exact Hsd.
      - apply Hsd'. discriminate. }
    destruct ((byte_val c =? 48) && (Strconv.nd d =? 0));
      apply Hk; reflexivity.
Qed.

(** On digits [ParseFloat] finds a number; it can only be too large. *)
Lemma ParseFloat32_digits (s : string) :
  all_digits s = true -> s <> "" ->
  (exists f, Strconv.ParseFloat32 s = Ok f)
  \/ Strconv.ParseFloat32 s = Err (NumError "ParseFloat" s true).
Proof.
  intros Hs Hne. destruct s as [|c t]; [congruence|].
  pose proof Hs as Hs'. cbn [all_digits] in Hs'.
  apply andb_true_iff in Hs' as [Hc Ht].
  unfold Strconv.ParseFloat32. rewrite (special_digit c t Hc).
  unfold Strconv.readFloat. rewrite (strip_sign_digit c t Hc).
  assert (Hhex : ((2 <? String.length (String c t))%nat
                  && (at_ (String c t) 0 =? 48)
                  && (Strconv.lower (at_ (String c t) 1) =? 120)) = false).
  { destruct t as [|c1 t1]; [reflexivity|].
    cbn [all_digits] in Ht. apply andb_true_iff in Ht as [Hc1 _].
    apply is_digit_range in Hc1.
    assert (Strconv.lower (at_ (String c (String c1 t1)) 1) <> 120).
    { change (at_ (String c (String c1 t1)) 1) with (byte_val c1).
      unfold Strconv.lower.
      assert (Hb : Z.lor (byte_val c1) 32 = byte_val c1).
      { assert (Hx : byte_val c1 = 48 \/ byte_val c1 = 49
                     \/ byte_val c1 = 50 \/ byte_val c1 = 51
                     \/ byte_val c1 = 52 \/ byte_val c1 = 53
                     \/ byte_val c1 = 54 \/ byte_val c1 = 55
                     \/ byte_val c1 = 56 \/ byte_val c1 = 57) by lia.
        destruct Hx as [->|[->|[->|[->|[->|[->|[->|[->|[->| ->]]]]]]]]];
          reflexivity. }
      rewrite Hb. lia. }
    destruct (Z.eqb_spec (Strconv.lower (at_ (String c (String c1 t1)) 1))
                120); [contradiction|].
    now rewrite andb_false_r. }
  cbv zeta. rewrite Hhex.
  destruct (read_digits_all (String c t)
              {| Strconv.mant := 0; Strconv.nd := 0; Strconv.dp := 0;
                 Strconv.sawdot := false; Strconv.sawdigits := false;
                 Strconv.underscores := false |} Hs)
    as (d' & -> & Hu & Hdot & Hsd & _).
  rewrite (Hsd Hne). cbn [negb]. rewrite Hu. cbn [Strconv.underscores andb].
  cbn [Strconv.p_rest Strconv.p_hex].
  destruct (Strconv.is_infinite _); [right | left; eexists]; reflexivity.
Qed.

(** What the four optional additions of [ParseISODuration] keep: a sum
    that is not negative. *)
Lemma add_group_not_negative (g : string) (seconds res : spec_float)
    (scale : spec_float -> spec_float) :
  not_negative seconds = true ->
  (g = "" \/ digit_led g) ->
  (forall f, not_negative f = true -> not_negative (scale f) = true) ->
  (if negb (g =? "")%string then
     bind (Strconv.ParseFloat32 g) (fun f => Ok (seconds +! scale f))
   else Ok seconds) = Ok res ->
  not_negative res = true.
Proof.
  intros Hs Hg Hscale.
  destruct (String.eqb_spec g ""); cbn [negb].
  - intros H. now injection H as <-.
  - destruct Hg as [Hg | Hg]; [contradiction|].
    destruct (Strconv.ParseFloat32 g) as [f|e] eqn:P; [|discriminate].
    cbn [bind]. intros H. injection H as <-.
    apply fadd_not_negative; [exact Hs|].
    apply Hscale. eapply ParseFloat32_not_negative; eassumption.
Qed.

Lemma group_led (s : string) (matches : list string) (i : nat) :
  FindStringSubmatch isoDurationRe s = Some matches ->
  (1 <= i <= 6)%nat ->
  index matches i = "" \/ digit_led (index matches i).
Proof.
  intros H Hi.
  destruct (FindStringSubmatch_iso_groups s matches i H Hi) as [E | [L _]];
    [now left | now right].
Qed.

Lemma fconst_not_negative (z : Z) :
  0 <= z -> not_negative (fconst z) = true.
Proof. apply binary_normalize_sign. Qed.

Lemma ParseISODuration_range (s : string) (d : Time.Duration) :
  ParseISODuration s = Ok d -> 0 <= d < 2 ^ 63.
Proof.
  unfold ParseISODuration.
  destruct (FindStringSubmatch isoDurationRe s) as [matches|] eqn:M;
    [|discriminate].
  pose proof (group_led s matches 3 M ltac:(lia)) as G3.
  pose proof (group_led s matches 4 M ltac:(lia)) as G4.
  pose proof (group_led s matches 5 M ltac:(lia)) as G5.
  pose proof (group_led s matches 6 M ltac:(lia)) as G6.
  cbv zeta.
  destruct (if negb (index matches 3 =? "")%string then _ else _)
    as [s3|e3] eqn:E3; [|discriminate].
  cbn [bind].
  destruct (if negb (index matches 4 =? "")%string then _ else _)
    as [s4|e4] eqn:E4; [|discriminate].
  cbn [bind].
  destruct (if negb (index matches 5 =? "")%string then _ else _)
    as [s5|e5] eqn:E5; [|discriminate].
  cbn [bind].
  destruct (if negb (index matches 6 =? "")%string then _ else _)
    as [s6|e6] eqn:E6; [|discriminate].
  cbn [bind].
  assert (N3 : not_negative s3 = true).
  { apply (add_group_not_negative _ (S754_zero false) _
             (fun f => f *! fconst 24 *! fconst 60 *! fconst 60)
             eq_refl G3); [|exact E3].
    intros f Hf. repeat apply fmul_not_negative;
      try exact Hf; apply fconst_not_negative; lia. }
  assert (N4 : not_negative s4 = true).
  { apply (add_group_not_negative _ _ _
             (fun f => f *! fconst 60 *! fconst 60) N3 G4); [|exact E4].
    intros f Hf. repeat apply fmul_not_negative;
      try exact Hf; apply fconst_not_negative; lia. }
  assert (N5 : not_negative s5 = true).
  { apply (add_group_not_negative _ _ _
             (fun f => f *! fconst 60) N4 G5); [|exact E5].
    intros f Hf. repeat apply fmul_not_negative;
      try exact Hf; apply fconst_not_negative; lia. }
  assert (N6 : not_negative s6 = true).
  { apply (add_group_not_negative _ _ _ (fun f => f) N5 G6);
      [|exact E6].
    intros f Hf. exact Hf. }
  destruct (FormatFloat32_f_head s6 N6) as (c & rest & -> & Hc).
  cbn [String.append]. now apply ParseDuration_not_negative.
Qed.

Lemma bytes_app (a b : string) : bytes (a ++ b) = (bytes a ++ bytes b)%list.
Proof. induction a as [|c a IH]; cbn; [reflexivity | now rewrite IH]. Qed.

Lemma isoDurationRe_has_T (p : nat) (ts : list token) p' ts' :
  reach isoDurationRe p ts p' ts' ->
  exists a t b, ts = (a ++ t :: b)%list /\ tok_rune t = 0x54.
Proof.
  unfold isoDurationRe.
  intros (p0 & t0 & (Hp & -> & ->) & H).
  destruct H as (p1 & t1 & (tP & -> & MP & _) & H).
  destruct H as (p2 & t2 & HY & H).
  destruct H as (p3 & t3 & HM & H).
  destruct H as (p4 & t4 & HD & H).
  destruct H as (p5 & t5 & (tT & -> & MT & _) & _).
  apply Z.eqb_eq in MT.
  apply reach_suffix in HY as (wY & ->).
  apply reach_suffix in HM as (wM & ->).
  apply reach_suffix in HD as (wD & ->).
  exists (tP :: wY ++ wM ++ wD)%list, tT, t5. split; [|exact MT].
  cbn [app]. now rewrite <- !app_assoc.
Qed.

Lemma FindStringSubmatch_iso_T (s : string) (matches : list string) :
  FindStringSubmatch isoDurationRe s = Some matches -> In 0x54 (bytes s).
Proof.
  unfold FindStringSubmatch.
  destruct (search isoDurationRe 0 (range s)) as [[start st]|] eqn:E;
    [|discriminate].
  intros _.
  pose proof (range_from_ok s 0) as Hok. fold (range s) in Hok.
  apply search_anchored in E as (p' & ts' & R); [| |exact Hok].
  2:{ intros q us q' us' R. now apply isoDurationRe_shape in R. }
  apply isoDurationRe_has_T in R as (a & t & b & Hr & HT).
  pose proof (range_bytes s) as Hb. rewrite Hr in Hb, Hok.
  apply Forall_app in Hok as [_ Hok]. apply Forall_inv in Hok as [_ Hasc].
  rewrite HT in Hasc. specialize (Hasc ltac:(lia)).
  rewrite map_app, concat_strings_app in Hb.
  cbn [map concat_strings fold_right] in Hb. rewrite Hasc in Hb.
  rewrite <- Hb, bytes_app. apply in_or_app. right.
  cbn [String.append bytes]. left. reflexivity.
Qed.

(** X14: whatever [ParseISODuration] does not reject as ill-formed
    starts with the byte P, holds the byte T and ends with one of T, H,
    M, S. So a duration of days only, like P1D, is rejected. *)
Theorem ParseISODuration_needs_P_and_T (s : string) :
  ParseISODuration s <> Err format_error ->
  (exists rest, s = String "P"%char rest)
  /\ In 0x54 (bytes s)
  /\ (exists pre c, s = (pre ++ String c "")%string /\ closing_byte c).
Proof.
  intros H.
  destruct (FindStringSubmatch isoDurationRe s) as [m|] eqn:E.
  - destruct (FindStringSubmatch_iso_bytes s m E) as [HP Hend].
    split; [exact HP|]. split; [|exact Hend].
    eapply FindStringSubmatch_iso_T; exact E.
  - exfalso. apply H. unfold ParseISODuration. now rewrite E.
Qed.

Lemma ParseISODuration_needs_P_and_T_witness :
  In 0x54 (bytes "PT5M").
Proof.
  apply (ParseISODuration_needs_P_and_T "PT5M").
  vm_compute. discriminate.
Defined.

(** X15: the groups of a match. Years, months, days, hours and minutes
    are made of digits, and on such a group [ParseFloat] can only fail
    with a range error (never a syntax error); the seconds start with a
    digit. *)
Theorem duration_groups_are_digits (s : string) (matches : list string) :
  FindStringSubmatch isoDurationRe s = Some matches ->
  (forall i, (1 <= i <= 5)%nat -> all_digits (index matches i) = true)
  /\ (index matches 6 = "" \/ digit_led (index matches 6))
  /\ (forall i e,
        (1 <= i <= 5)%nat -> index matches i <> "" ->
        Strconv.ParseFloat32 (index matches i) = Err e ->
        e = NumError "ParseFloat" (index matches i) true).
Proof.
  intros H.
  assert (Hd : forall i, (1 <= i <= 5)%nat ->
                         all_digits (index matches i) = true).
  { intros i Hi.
    destruct (FindStringSubmatch_iso_groups s matches i H ltac:(lia))
      as [-> | [_ Hg]]; [reflexivity | apply Hg; lia]. }
  split; [exact Hd|]. split; [apply (group_led s matches 6 H); lia|].
  intros i e Hi Hne He.
  destruct (ParseFloat32_digits (index matches i) (Hd i Hi) Hne)
    as [(f & Hf) | Hf]; congruence.
Qed.

Lemma duration_groups_are_digits_witness :
  all_digits "12" = true /\ digit_led "1x5".
Proof.
  destruct (duration_groups_are_digits "P3DT12H" ["P3DT12H"; ""; ""; "3"; "12"; ""; ""])
    as (H1 & _ & _); [vm_compute; reflexivity|].
  destruct (duration_groups_are_digits "PT1x5S" ["PT1x5S"; ""; ""; ""; ""; ""; "1x5"])
    as (_ & H2 & _); [vm_compute; reflexivity|].
  split.
  - apply (H1 4%nat). lia.
  - destruct H2 as [H2 | H2]; [discriminate H2 | exact H2].
Defined.

(** X16: [ParseISODuration] never returns a negative duration, and what
    it returns fits an [int64]. *)
Theorem ParseISODuration_never_negative (s : string) (d : Time.Duration) :
  ParseISODuration s = Ok d -> 0 <= d < 2 ^ 63.
Proof. apply ParseISODuration_range. Qed.

Lemma ParseISODuration_never_negative_witness :
  0 <= 5400 * Time.Second < 2 ^ 63.
Proof.
  apply (ParseISODuration_never_negative "PT1H30M").
  vm_compute. reflexivity.
Defined.



(** X18: a fragment without [prepTime] and [cookTime] renders with the
    line [Prep Time: 50s] and no cook time line. *)
Theorem default_prep_time_is_rendered (s : RecipeNode) :
  ItemProp s "meta" "prepTime" = [] ->
  ItemProp s "meta" "cookTime" = [] ->
  let r := ExtractRecipe s in
  FormatAsRecipeMD r
  = ("# " ++ Title r ++ nl
     ++ nl ++ rating_line r ++ collections_line r ++ course_line r
     ++ nl ++ source_line r
     ++ nl ++ "Prep Time: 50s" ++ nl
     ++ after_times r)%string.
Proof.
  intros Hp Hc r. rewrite FormatAsRecipeMD_blocks. subst r.
  assert (P : PrepTime (ExtractRecipeMetadata s) = 50 * Time.Second).
  { rewrite PrepTime_ExtractRecipeMetadata.
    rewrite (ItemPropContentOr_absent _ _ _ Hp). vm_compute. reflexivity. }
  assert (C : CookTime (ExtractRecipeMetadata s) = 0).
  { rewrite CookTime_ExtractRecipeMetadata.
    rewrite (ItemPropContentOr_absent _ _ _ Hc). vm_compute. reflexivity. }
  unfold cook_time_line, prep_time_line. cbn [ExtractRecipe Metadata].
  rewrite P, C. reflexivity.
Qed.

Lemma default_prep_time_is_rendered_witness :
  FormatAsRecipeMD (ExtractRecipe (fragment [span "name" "Soup"]))
  = ("# Soup" ++ nl ++ nl ++ nl ++ nl ++ "Prep Time: 50s" ++ nl
     ++ nl ++ nl ++ nl ++ "---" ++ nl ++ nl ++ nl ++ "---" ++ nl ++ nl
     ++ "### Instructions" ++ nl ++ nl ++ nl)%string.
Proof.
  rewrite (default_prep_time_is_rendered (fragment [span "name" "Soup"])
             eq_refl eq_refl).
  vm_compute. reflexivity.
Defined.

End DurationRange.

(* ===================================================================== *)
(** * Properties the extractor does not read *)
(* ===================================================================== *)

Section OtherProps.

Lemma meta_no_match (p c e q : string) :
  p <> q -> itemprop_selector e q (meta p c) = false.
Proof.
  intros Hne.
  assert (H : match_attr_eq "itemprop" q (meta p c) = false).
  { unfold match_attr_eq, meta. cbn [existsb fst snd].
    change ("content" =? "itemprop")%string with false.
    change ("itemprop" =? "itemprop")%string with true.
    cbn [andb orb]. rewrite orb_false_r. now apply String.eqb_neq. }
  unfold itemprop_selector. destruct (e =? "")%string; [exact H|].
  unfold match_and. rewrite H. apply andb_false_r.
Qed.

Lemma ItemProp_skip_meta (p c e q : string) (cs : list Node) :
  p <> q ->
  ItemProp (fragment (meta p c :: cs)) e q = ItemProp (fragment cs) e q.
Proof.
  intros Hne. unfold ItemProp, Find, fragment.
  cbn [root children_of flat_map].
  change (is_element (meta p c)) with true. cbv iota.
  change (MatchAll (itemprop_selector e q) (meta p c))
    with ((if itemprop_selector e q (meta p c) then [meta p c] else [])
          ++ [])%list.
  now rewrite (meta_no_match p c e q Hne).
Qed.

Lemma photos_skip_meta (p c : string) (cs : list Node) :
  Find (root (fragment (meta p c :: cs))) photo_selector
  = Find (root (fragment cs)) photo_selector.
Proof. reflexivity. Qed.

(** X19: a [meta] whose property is none of those [ExtractRecipe] looks
    for changes nothing to the recipe. So it is with the nutrition
    properties: [ExtractRecipeNutrition] reads them, but [ExtractRecipe]
    does not call it and leaves [Nutrition] at its zero value. *)
Theorem ExtractRecipe_ignores_other_props :
  (forall (p c : string) (cs : list Node),
      ~ In p read_props ->
      ExtractRecipe (fragment (meta p c :: cs))
      = ExtractRecipe (fragment cs))
  /\ (forall s : RecipeNode,
        Nutrition (ExtractRecipe s) = zero_RecipeNutrition)
  /\ (forall (c : string) (cs : list Node),
        Calories (ExtractRecipeNutrition
                    (fragment (meta "recipeNutCalories" c :: cs)))
        = c).
Proof.
  split; [|split].
  - intros p c cs Hp.
    assert (Hq : forall q, In q read_props -> p <> q)
      by (intros q Hq ->; contradiction).
    unfold ExtractRecipe, ExtractRecipeMetadata, ExtractRecipePhotos,
      ItemPropChildrenText, ExtractRecipeCourses, ItemPropContentList,
      ItemPropElemText, ItemPropContentOr, ItemPropAttrOr.
    fold photo_selector. rewrite photos_skip_meta.
    rewrite !ItemProp_skip_meta by (apply Hq; cbn; tauto).
    reflexivity.
  - intros s. reflexivity.
  - intros c cs. cbn [ExtractRecipeNutrition Calories].
    apply ItemPropContentOr_first_meta.
Qed.

Lemma ExtractRecipe_ignores_other_props_witness :
  ExtractRecipe (fragment [meta "recipeNutCalories" "250"; span "name" "Soup"])
  = ExtractRecipe (fragment [span "name" "Soup"]).
Proof.
  destruct ExtractRecipe_ignores_other_props as (H & _ & _).
  apply H. cbn. intros Hin.
  repeat (destruct Hin as [Hin | Hin]; [discriminate Hin|]). exact Hin.
Defined.

End OtherProps.

(* ===================================================================== *)
(** * The layout of the rendered text *)
(* ===================================================================== *)

Section Layout.

(** X20: the text [FormatAsRecipeMD] builds for any recipe: the title
    line, then the blocks in a fixed order, each behind its blank line
    whether it holds a line or not, the two rules around the ingredient
    bullets, the instructions joined by line feeds, the notes when there
    are some, and a final line feed. *)
Theorem FormatAsRecipeMD_layout (r : Recipe) :
  FormatAsRecipeMD r
  = ("# " ++ Title r ++ nl
     ++ nl ++ rating_line r ++ collections_line r ++ course_line r
     ++ nl ++ source_line r
     ++ nl ++ cook_time_line r ++ prep_time_line r
     ++ nl ++ category_line r
     ++ nl ++ yield_line r
     ++ nl ++ "---" ++ nl ++ nl
     ++ ingredient_lines r
     ++ nl ++ "---" ++ nl ++ nl
     ++ "### Instructions" ++ nl ++ nl
     ++ Strings.Join (elems (InstructionLines r)) nl
     ++ notes_block r
     ++ nl)%string.
Proof. apply FormatAsRecipeMD_blocks. Qed.

End Layout.

(* ===================================================================== *)
(** * The files the program writes *)
(* ===================================================================== *)

Section FilesFacts.

Context {World Reader : Type}.
Variable os_WriteFile : string -> string -> Z -> World -> World * option error.
Variable NewDocumentFromReader : Reader -> result Node.

Lemma WriteRecipeMD_journaled (n : Node) (w : World)
    (journal : list write_call) :
  fst (WriteRecipeMD (journaled os_WriteFile)
         (ExtractRecipe {| root := n |}) (w, journal))
  = (fst (WriteRecipeMD os_WriteFile (ExtractRecipe {| root := n |}) w),
     (journal ++ [recipe_file n])%list).
Proof.
  unfold WriteRecipeMD, journaled. cbn [fst snd].
  destruct (os_WriteFile _ _ _ w) as [w1 e]. reflexivity.
Qed.

Lemma scrape_journal (nodes : list Node) (w : World)
    (journal : list write_call) :
  exists w',
    Each nodes
      (fun wj s =>
         match s with
         | n :: _ =>
             fst (WriteRecipeMD (journaled os_WriteFile)
                    (ExtractRecipe {| root := n |}) wj)
         | [] => wj
         end)
      (w, journal)
    = (w', (journal ++ map recipe_file nodes)%list).
Proof.
  unfold Each. revert w journal.
  induction nodes as [|n nodes IH]; intros w journal; cbn [fold_left map].
  - exists w. now rewrite app_nil_r.
  - rewrite WriteRecipeMD_journaled.
    destruct (IH (fst (WriteRecipeMD os_WriteFile
                         (ExtractRecipe {| root := n |}) w))
                 (journal ++ [recipe_file n])%list) as (w' & E).
    exists w'. rewrite E. now rewrite <- app_assoc.
Qed.

(** X22: whatever the file system answers, [ScrapeRecipeKeeperExportHtml]
    calls [os.WriteFile] once for each [div.recipe-details] of the
    document, in the order of the document, with the file of that
    recipe; a failed call stops nothing. When the document cannot be
    read, it stops before any call. *)
Theorem Scrape_writes_each_recipe (reader : Reader) (w : World) :
  (forall doc,
      NewDocumentFromReader reader = Ok doc ->
      exists w',
        ScrapeRecipeKeeperExportHtml (journaled os_WriteFile)
          NewDocumentFromReader reader (w, [])
        = inl (w', map recipe_file (Find doc recipe_details)))
  /\ (forall err,
        NewDocumentFromReader reader = Err err ->
        ScrapeRecipeKeeperExportHtml (journaled os_WriteFile)
          NewDocumentFromReader reader (w, [])
        = inr err).
Proof.
  unfold ScrapeRecipeKeeperExportHtml. split.
  - intros doc ->. fold recipe_details.
    destruct (scrape_journal (Find doc recipe_details) w []) as (w' & E).
    exists w'. cbv zeta. now rewrite E.
  - intros err ->. reflexivity.
Qed.

End FilesFacts.

Lemma Scrape_writes_each_recipe_witness :
  match ScrapeRecipeKeeperExportHtml (journaled failing_WriteFile)
          (fun doc : Node => Ok doc) two_recipes (tt, []) with
  | inl (_, journal) =>
      map w_name journal = ["./recipes/a1.md"; "./recipes/b2.md"]
  | inr _ => False
  end.
Proof.
  destruct (Scrape_writes_each_recipe failing_WriteFile
              (fun doc : Node => Ok doc) two_recipes tt) as [H _].
  destruct (H two_recipes eq_refl) as (w' & E).
  rewrite E. vm_compute. reflexivity.
Defined.


Lemma append_inj_l (a b c : string) :
  (a ++ b)%string = (a ++ c)%string -> b = c.
Proof.
  induction a as [|x a IH]; cbn; [trivial|].
  intros H. injection H as H. now apply IH.
Qed.

Lemma append_inj_r (a b c : string) :
  (a ++ c)%string = (b ++ c)%string -> a = b.
Proof.
  intros H. apply (f_equal rev) in H. rewrite !rev_app in H.
  apply append_inj_l in H. apply (f_equal rev) in H.
  now rewrite !rev_involutive in H.
Qed.

Lemma UUID_ExtractRecipeMetadata (s : RecipeNode) :
  UUID (ExtractRecipeMetadata s) = ItemPropContentOr s "recipeId" "".
Proof.
  unfold ExtractRecipeMetadata.
  destruct (Strconv.Atoi _);
    destruct (ParseISODuration (Strings.TrimSpace _));
    destruct (ParseISODuration (ItemPropContentOr _ _ _)); reflexivity.
Qed.

Lemma WriteRecipeMD_name {World : Type}
    (os_WriteFile : string -> string -> Z -> World -> World * option error)
    (r : Recipe) (w : World) :
  snd (fst (WriteRecipeMD (journaled os_WriteFile) r (w, [])))
  = [{| w_name := "./recipes/" ++ UUID (Metadata r) ++ ".md";
        w_data := FormatAsRecipeMD r;
        w_perm := 420 |}].
Proof.
  unfold WriteRecipeMD, journaled. cbn [fst snd].
  destruct (os_WriteFile _ _ _ w) as [w1 e]. reflexivity.
Qed.

(** X21: [WriteRecipeMD] makes one call of [os.WriteFile], for the file
    [./recipes/<UUID>.md] with the rendered text and the mode 0644,
    whatever the file system answers: two recipes go to the same file
    exactly when they have the same UUID, and a recipe without
    [recipeId] goes to [./recipes/.md]. *)
Theorem WriteRecipeMD_file_by_UUID {World : Type}
    (os_WriteFile : string -> string -> Z -> World -> World * option error)
    (w : World) :
  (forall r : Recipe,
      snd (fst (WriteRecipeMD (journaled os_WriteFile) r (w, [])))
      = [{| w_name := "./recipes/" ++ UUID (Metadata r) ++ ".md";
            w_data := FormatAsRecipeMD r;
            w_perm := 420 |}])
  /\ (forall r1 r2 : Recipe,
        map w_name
          (snd (fst (WriteRecipeMD (journaled os_WriteFile) r1 (w, []))))
        = map w_name
            (snd (fst (WriteRecipeMD (journaled os_WriteFile) r2 (w, []))))
        <-> UUID (Metadata r1) = UUID (Metadata r2))
  /\ (forall s : RecipeNode,
        ItemProp s "meta" "recipeId" = [] ->
        map w_name
          (snd (fst (WriteRecipeMD (journaled os_WriteFile)
                       (ExtractRecipe s) (w, []))))
        = ["./recipes/.md"]).
Proof.
  split; [|split].
  - intros r. apply WriteRecipeMD_name.
  - intros r1 r2. rewrite !WriteRecipeMD_name. cbn [map w_name]. split.
    + intros H. injection H as H. now apply append_inj_r in H.
    + now intros ->.
  - intros s H. rewrite WriteRecipeMD_name. cbn [map w_name].
    cbn [ExtractRecipe Metadata].
    rewrite UUID_ExtractRecipeMetadata, (ItemPropContentOr_absent _ _ _ H).
    reflexivity.
Qed.

Lemma WriteRecipeMD_file_by_UUID_witness :
  map w_name
    (snd (fst (WriteRecipeMD (journaled failing_WriteFile)
                 (ExtractRecipe (fragment [span "name" "Soup"])) (tt, []))))
  = ["./recipes/.md"].
Proof.
  destruct (WriteRecipeMD_file_by_UUID failing_WriteFile tt) as (_ & _ & H).
  apply H. reflexivity.
Defined.

(* ===================================================================== *)
(** * The match of a duration in seconds *)
(* ===================================================================== *)

Section SecondsMatch.

Lemma range_ascii (s : string) :
  ascii_only s = true -> range s = ascii_tokens s.
Proof.
  induction s as [|c s IH]; intros H; [reflexivity|].
  cbn [ascii_only] in H. apply andb_true_iff in H as [Hc Hs].
  apply Z.ltb_lt in Hc. unfold range. cbn [range_from].
  rewrite (decode_one_ascii c s Hc). cbn [take Nat.sub ascii_tokens].
  fold (range s). now rewrite IH.
Qed.

Lemma ascii_tokens_app (a b : string) :
  ascii_tokens (a ++ b) = (ascii_tokens a ++ ascii_tokens b)%list.
Proof. induction a as [|c a IH]; cbn; [reflexivity | now rewrite IH]. Qed.

Lemma total_len_ascii (s : string) :
  total_len (ascii_tokens s) = String.length s.
Proof. induction s as [|c s IH]; cbn; [reflexivity | now rewrite <- IH]. Qed.

Lemma all_digits_ascii (s : string) :
  all_digits s = true -> ascii_only s = true.
Proof.
  induction s as [|c s IH]; intros H; [reflexivity|].
  cbn [all_digits] in H. apply andb_true_iff in H as [Hc Hs].
  apply is_digit_range in Hc. cbn [ascii_only]. rewrite (IH Hs), andb_true_r.
  apply Z.ltb_lt. unfold RuneSelf. lia.
Qed.

Lemma digit_tokens (s : string) :
  all_digits s = true ->
  Forall (fun t => class_matches ClassDigit (tok_rune t) = true)
         (ascii_tokens s).
Proof.
  induction s as [|c s IH]; intros H; [constructor|].
  cbn [all_digits] in H. apply andb_true_iff in H as [Hc Hs].
  constructor; [exact Hc | now apply IH].
Qed.

(** ** The greedy loop on a run of matching runes *)

Lemma plus_loop_stops {R} (c : class) (ts : list token) (p : nat)
    (k : nat -> list token -> option R) :
  stops c ts -> plus_loop c ts p k = None.
Proof.
  destruct ts as [|t ts]; [reflexivity|]. cbn. now intros ->.
Qed.

Lemma plus_loop_full {R} (c : class) (w : list token) :
  forall (ts : list token) (p : nat) (k : nat -> list token -> option R)
         (r : R),
    Forall (fun t => class_matches c (tok_rune t) = true) w ->
    w <> [] -> stops c ts ->
    k (p + total_len w)%nat ts = Some r ->
    plus_loop c (w ++ ts) p k = Some r.
Proof.
  induction w as [|t w IH]; intros ts p k r Hw Hne Hs Hk; [congruence|].
  apply Forall_cons_iff in Hw as [Ht Hw].
  cbn [app plus_loop]. rewrite Ht.
  cbn [total_len fold_right] in Hk. fold (total_len w) in Hk.
  rewrite Nat.add_assoc in Hk.
  destruct w as [|t' w'].
  - cbn [app]. rewrite plus_loop_stops by exact Hs.
    cbn [total_len fold_right] in Hk. now rewrite Nat.add_0_r in Hk.
  - rewrite (IH ts _ k r Hw ltac:(discriminate) Hs Hk). reflexivity.
Qed.

Lemma plus_loop_none {R} (c : class) (w : list token) :
  forall (ts : list token) (p : nat) (k : nat -> list token -> option R),
    Forall (fun t => class_matches c (tok_rune t) = true) w ->
    stops c ts ->
    (forall w1 w2 q, w = (w1 ++ w2)%list -> w1 <> [] ->
                     k q (w2 ++ ts)%list = None) ->
    plus_loop c (w ++ ts) p k = None.
Proof.
  induction w as [|t w IH]; intros ts p k Hw Hs Hk.
  - now apply plus_loop_stops.
  - apply Forall_cons_iff in Hw as [Ht Hw].
    cbn [app plus_loop]. rewrite Ht.
    rewrite IH; [| exact Hw | exact Hs |].
    + apply (Hk [t] w). reflexivity. discriminate.
    + intros w1 w2 q E Hne. apply (Hk (t :: w1) w2 q).
      * now rewrite E.
      * discriminate.
Qed.

(** ** The optional groups of the duration expression *)

(** A group whose digits do not start here is passed over. *)
Lemma group_skipped {R} (i : nat) (x : rune) (b : regex) (st : mstate)
    (k : mstate -> option R) :
  stops ClassDigit (rest st) ->
  run (Cat (Quest (Cat (Capture i (Plus1 ClassDigit)) (One (ClassLit x)))) b)
      st k
  = run b st k.
Proof.
  intros Hs. cbn [run]. now rewrite plus_loop_stops by exact Hs.
Qed.

(** A group whose letter is not there is passed over, digits or not. *)
Lemma group_without_letter {R} (i : nat) (x : rune) (b : regex)
    (st : mstate) (k : mstate -> option R) (w ts : list token) :
  rest st = (w ++ ts)%list ->
  Forall (fun t => class_matches ClassDigit (tok_rune t) = true) w ->
  stops ClassDigit ts ->
  Forall (fun t => tok_rune t <> x) (w ++ ts) ->
  run (Cat (Quest (Cat (Capture i (Plus1 ClassDigit)) (One (ClassLit x)))) b)
      st k
  = run b st k.
Proof.
  intros E Hw Hs Hx. cbn [run]. rewrite E.
  rewrite plus_loop_none; [reflexivity | exact Hw | exact Hs |].
  intros w1 w2 q -> Hne. cbn [rest].
  rewrite <- app_assoc in Hx. apply Forall_app in Hx as [_ Hx].
  destruct (w2 ++ ts)%list as [|t l]; [reflexivity|].
  apply Forall_inv in Hx. cbn [class_matches].
  destruct (Z.eqb_spec (tok_rune t) x); [contradiction | reflexivity].
Qed.

Lemma run_begin {R} (b : regex) (st : mstate) (k : mstate -> option R) :
  pos st = 0%nat -> run (Cat BeginText b) st k = run b st k.
Proof. intros H. cbn [run]. now rewrite H. Qed.

Lemma run_letter {R} (x : rune) (b : regex) (st : mstate)
    (k : mstate -> option R) (t : token) (ts : list token) :
  rest st = t :: ts -> tok_rune t = x ->
  run (Cat (One (ClassLit x)) b) st k
  = run b {| pos := (pos st + tok_len t)%nat; rest := ts; caps := caps st |} k.
Proof.
  intros E Hx. cbn [run]. rewrite E. cbn [class_matches].
  now rewrite Hx, Z.eqb_refl.
Qed.

(** The seconds group takes the digits before an S that ends the
    text. *)
Lemma seconds_group_taken {R} (b : regex) (st : mstate)
    (k : mstate -> option R) (w : list token) (r : R) :
  rest st = (w ++ [ascii_token "S"])%list ->
  Forall (fun t => class_matches ClassDigit (tok_rune t) = true) w ->
  w <> [] ->
  run b {| pos := (pos st + total_len w + 1)%nat; rest := [];
           caps := (6%nat, (pos st, (pos st + total_len w)%nat)) :: caps st |}
      k = Some r ->
  run (Cat (Quest
              (Cat (Capture 6
                      (Cat (Plus1 ClassDigit)
                           (Quest (Cat (One ClassAnyNotNL)
                                       (Plus1 ClassDigit)))))
                   (One (ClassLit 0x53))))
           b) st k
  = Some r.
Proof.
  intros E Hw Hne Hk. cbn [run]. rewrite E.
  rewrite (plus_loop_full ClassDigit w [ascii_token "S"] (pos st) _ r);
    [reflexivity | exact Hw | exact Hne | reflexivity |].
  cbn. exact Hk.
Qed.

(** The match of [PT], digits and [S]: the digits are the seconds. *)
Lemma run_iso_seconds (ds : string) :
  all_digits ds = true -> ds <> "" ->
  run isoDurationRe
      {| pos := 0; rest := ascii_tokens ("PT" ++ ds ++ "S"); caps := [] |}
      Some
  = Some {| pos := (2 + String.length ds + 1)%nat; rest := [];
            caps := [(6%nat, (2%nat, (2 + String.length ds)%nat))] |}.
Proof.
  intros Hd Hne.
  pose proof (digit_tokens ds Hd) as Hw.
  assert (Hrest : ascii_tokens ("PT" ++ ds ++ "S")
                  = ascii_token "P" :: ascii_token "T"
                    :: (ascii_tokens ds ++ [ascii_token "S"])%list).
  { cbn [String.append ascii_tokens]. now rewrite ascii_tokens_app. }
  rewrite Hrest. unfold isoDurationRe.
  rewrite run_begin by reflexivity.
  erewrite run_letter by reflexivity. cbn [pos caps tok_len ascii_token
    tok_bytes String.length Nat.add].
  rewrite !group_skipped by reflexivity.
  erewrite run_letter by reflexivity. cbn [pos caps tok_len ascii_token
    tok_bytes String.length Nat.add].
  assert (Hno : forall x : rune,
            x <> 0x53 -> ~ (48 <= x <= 57) ->
            Forall (fun t => tok_rune t <> x)
                   (ascii_tokens ds ++ [ascii_token "S"])).
  { intros x Hx Hnd. apply Forall_app. split.
    - eapply Forall_impl; [|exact Hw]. cbn. intros t Ht E.
      apply is_digit_range in Ht. lia.
    - constructor; [|constructor]. cbn. intros E. apply Hx. now rewrite <- E. }
  rewrite (group_without_letter 4 0x48)
    with (w := ascii_tokens ds) (ts := [ascii_token "S"]);
    [| reflexivity | exact Hw | reflexivity | apply Hno; lia].
  rewrite (group_without_letter 5 0x4D)
    with (w := ascii_tokens ds) (ts := [ascii_token "S"]);
    [| reflexivity | exact Hw | reflexivity | apply Hno; lia].
  apply (seconds_group_taken _ _ _ (ascii_tokens ds)); [reflexivity | exact Hw | |].
  - destruct ds; [congruence | discriminate].
  - cbn [run rest pos caps]. rewrite total_len_ascii. reflexivity.
Qed.

Lemma search_here (re : regex) (p : nat) (ts : list token) (st : mstate) :
  run re {| pos := p; rest := ts; caps := [] |} Some = Some st ->
  search re p ts = Some (p, st).
Proof. intros H. destruct ts; cbn [search]; now rewrite H. Qed.

Lemma FindStringSubmatch_seconds (ds : string) :
  all_digits ds = true -> ds <> "" ->
  FindStringSubmatch isoDurationRe ("PT" ++ ds ++ "S")
  = Some ["PT" ++ ds ++ "S"; ""; ""; ""; ""; ""; ds].
Proof.
  intros Hd Hne. unfold FindStringSubmatch.
  assert (Ha : ascii_only ("PT" ++ ds ++ "S") = true).
  { cbn [String.append ascii_only]. cbn.
    induction ds as [|c ds IH]; [reflexivity|].
    pose proof (all_digits_ascii _ Hd) as H. cbn [ascii_only] in H.
    apply andb_true_iff in H as [Hc Hs]. cbn [String.append ascii_only].
    rewrite Hc. cbn [andb]. clear IH Hne Hd Hc.
    induction ds as [|c' ds IH]; [reflexivity|].
    cbn [ascii_only] in Hs. apply andb_true_iff in Hs as [Hc Hs].
    cbn [String.append ascii_only]. rewrite Hc. now apply IH. }
  rewrite (range_ascii _ Ha).
  rewrite (search_here _ _ _ _ (run_iso_seconds ds Hd Hne)).
  change (NumSubexp isoDurationRe) with 6%nat.
  cbn [seq map cap_lookup Nat.eqb pos caps]. f_equal. f_equal.
  - unfold substr. cbn [drop]. rewrite Nat.sub_0_r.
    replace (2 + String.length ds + 1)%nat
      with (String.length ("PT" ++ ds ++ "S") + 0)%nat.
    + rewrite <- (append_nil_r ("PT" ++ ds ++ "S")) at 2.
      rewrite Nat.add_0_r. apply take_app.
    + cbn [String.append String.length]. rewrite length_append.
      cbn [String.length]. lia.
  - do 5 f_equal. unfold substr. cbn [String.append drop].
    replace (2 + String.length ds - 2)%nat with (String.length ds) by lia.
    now rewrite take_app.
Qed.

(** ** The number [ParseFloat] reads in digits *)

Lemma parse_digits_all (s : string) :
  forall n v, Strconv.parse_digits s n = Some v -> all_digits s = true.
Proof.
  induction s as [|c s IH]; intros n v; [reflexivity|].
  cbn [Strconv.parse_digits all_digits].
  destruct (Strconv.is_digit (byte_val c)); [|discriminate].
  apply IH.
Qed.

Lemma read_digits_value (s : string) :
  forall d,
    all_digits s = true ->
    0 <= Strconv.nd d ->
    (Strconv.nd d = 0 -> Strconv.mant d = 0) ->
    Strconv.parse_digits s (Strconv.mant d)
    = Some (Strconv.mant (fst (Strconv.read_digits false s d))).
Proof.
  induction s as [|c s IH]; intros d Hs Hn Hd; [reflexivity|].
  cbn [all_digits] in Hs. apply andb_true_iff in Hs as [Hc Hs].
  pose proof Hc as Hr. apply is_digit_range in Hr.
  cbn [Strconv.read_digits Strconv.parse_digits].
  destruct (Z.eqb_spec (byte_val c) 95); [lia|].
  destruct (Z.eqb_spec (byte_val c) 46); [lia|].
  rewrite Hc.
  destruct (Z.eqb_spec (byte_val c) 48); cbn [andb].
  - destruct (Z.eqb_spec (Strconv.nd d) 0).
    + rewrite <- IH; [|exact Hs|exact Hn|cbn; auto].
      cbn [Strconv.mant]. rewrite (Hd e0), e. reflexivity.
    + rewrite <- IH; [reflexivity | exact Hs | |];
        cbn [Strconv.nd Strconv.mant]; intros; lia.
  - rewrite <- IH; [reflexivity | exact Hs | |];
      cbn [Strconv.nd Strconv.mant]; intros; lia.
Qed.

(** On digits that spell [n], [ParseFloat] gives the [float32] nearest
    to [n], unless it is too large. *)
Lemma ParseFloat32_digits_value (s : string) (n : Z) :
  s <> "" -> Strconv.parse_digits s 0 = Some n ->
  Strconv.ParseFloat32 s
  = (let f := Strconv.decimal_to_float Strconv.prec32 Strconv.emax32
                false n 0 in
     if Strconv.is_infinite f then Err (NumError "ParseFloat" s true)
     else Ok (Strconv.to_float64 f)).
Proof.
  intros Hne Hp. pose proof (parse_digits_all s 0 n Hp) as Hs.
  destruct s as [|c t]; [congruence|].
  pose proof Hs as Hs'. cbn [all_digits] in Hs'.
  apply andb_true_iff in Hs' as [Hc Ht].
  unfold Strconv.ParseFloat32. rewrite (special_digit c t Hc).
  unfold Strconv.readFloat. rewrite (strip_sign_digit c t Hc).
  assert (Hhex : ((2 <? String.length (String c t))%nat
                  && (at_ (String c t) 0 =? 48)
                  && (Strconv.lower (at_ (String c t) 1) =? 120)) = false).
  { destruct t as [|c1 t1]; [reflexivity|].
    cbn [all_digits] in Ht. apply andb_true_iff in Ht as [Hc1 _].
    apply is_digit_range in Hc1.
    assert (Strconv.lower (at_ (String c (String c1 t1)) 1) <> 120).
    { change (at_ (String c (String c1 t1)) 1) with (byte_val c1).
      unfold Strconv.lower.
      assert (Hb : Z.lor (byte_val c1) 32 = byte_val c1).
      { assert (Hx : byte_val c1 = 48 \/ byte_val c1 = 49
                     \/ byte_val c1 = 50 \/ byte_val c1 = 51
                     \/ byte_val c1 = 52 \/ byte_val c1 = 53
                     \/ byte_val c1 = 54 \/ byte_val c1 = 55
                     \/ byte_val c1 = 56 \/ byte_val c1 = 57) by lia.
        destruct Hx as [->|[->|[->|[->|[->|[->|[->|[->|[->| ->]]]]]]]]];
          reflexivity. }
      rewrite Hb. lia. }
    destruct (Z.eqb_spec (Strconv.lower (at_ (String c (String c1 t1)) 1))
                120); [contradiction|].
    now rewrite andb_false_r. }
  cbv zeta. rewrite Hhex.
  pose (d0 := {| Strconv.mant := 0; Strconv.nd := 0; Strconv.dp := 0;
                 Strconv.sawdot := false; Strconv.sawdigits := false;
                 Strconv.underscores := false |}).
  pose proof (read_digits_value (String c t) d0 Hs ltac:(cbn; lia)
                ltac:(reflexivity)) as Hv.
  destruct (read_digits_all (String c t) d0 Hs)
    as (d' & E & Hu & Hdot & Hsd & _).
  rewrite E in Hv. cbn [fst] in Hv.
  change (Strconv.mant d0) with 0 in Hv. rewrite Hp in Hv.
  injection Hv as Hv.
  fold d0. rewrite E.
  rewrite (Hsd Hne). cbn [negb]. rewrite Hu, Hdot.
  cbn [Strconv.underscores Strconv.sawdot d0 andb].
  cbn [Strconv.p_rest Strconv.p_hex Strconv.p_neg Strconv.p_mant
       Strconv.p_exp].
  rewrite <- Hv.
  replace (if n =? 0 then 0 else Strconv.nd d' - Strconv.nd d') with 0
    by (destruct (n =? 0); lia).
  reflexivity.
Qed.

End SecondsMatch.

(* ===================================================================== *)
(** * Whole numbers through the floats *)
(* ===================================================================== *)

Section WholeNumbers.

(** ** Numbers that a float holds exactly *)

Lemma digits2_iter_xO (p k : positive) :
  digits2_pos (Pos.iter xO p k) = (digits2_pos p + k)%positive.
Proof.
  induction k as [|k IH] using Pos.peano_ind.
  - cbn. now rewrite Pos.add_1_r.
  - rewrite Pos.iter_succ. cbn [digits2_pos]. rewrite IH.
    now rewrite Pos.add_succ_r.
Qed.

Lemma iter_xO_val (p k : positive) :
  Zpos (Pos.iter xO p k) = Zpos p * 2 ^ Zpos k.
Proof.
  induction k as [|k IH] using Pos.peano_ind.
  - cbn. lia.
  - rewrite Pos.iter_succ, Pos2Z.inj_xO, IH, Pos2Z.inj_succ.
    rewrite Z.pow_succ_r by lia. lia.
Qed.

Lemma digits2_lower (p : positive) :
  2 ^ (Zpos (digits2_pos p) - 1) <= Zpos p.
Proof.
  induction p as [p IH|p IH|]; cbn [digits2_pos].
  - rewrite Pos2Z.inj_succ.
    replace (Z.succ (Zpos (digits2_pos p)) - 1)
      with (Z.succ (Zpos (digits2_pos p) - 1)) by lia.
    rewrite Z.pow_succ_r by lia. lia.
  - rewrite Pos2Z.inj_succ.
    replace (Z.succ (Zpos (digits2_pos p)) - 1)
      with (Z.succ (Zpos (digits2_pos p) - 1)) by lia.
    rewrite Z.pow_succ_r by lia. lia.
  - cbn. lia.
Qed.

Lemma digits2_le (p : positive) (n : Z) :
  0 <= n -> Zpos p < 2 ^ n -> Zpos (digits2_pos p) <= n.
Proof.
  intros Hn Hp. pose proof (digits2_lower p) as Hl.
  destruct (Z.le_gt_cases (Zpos (digits2_pos p)) n) as [H | H]; [exact H|].
  exfalso.
  assert (2 ^ n <= 2 ^ (Zpos (digits2_pos p) - 1))
    by (apply Z.pow_le_mono_r; lia).
  lia.
Qed.

(** A mantissa of full width at an exponent in range is left as it
    is. *)
Lemma binary_round_aux_canonical (prec emax : Z) (mz : positive) (ez : Z) :
  Zpos (digits2_pos mz) = prec ->
  emin prec emax <= ez -> ez <= emax - prec ->
  binary_round_aux prec emax false (Zpos mz) ez loc_Exact
  = S754_finite false mz ez.
Proof.
  intros Hd Hlo Hhi. unfold binary_round_aux, shr_fexp, fexp.
  cbn [Zdigits2 shr_record_of_loc]. rewrite Hd.
  replace (Z.max (prec + ez - prec) (emin prec emax) - ez) with 0 by lia.
  cbn [shr shr_m loc_of_shr_record round_nearest_even Zdigits2].
  rewrite Hd.
  replace (Z.max (prec + ez - prec) (emin prec emax) - ez) with 0 by lia.
  cbn [shr shr_m]. destruct (Z.leb_spec ez (emax - prec)); [reflexivity|lia].
Qed.

Lemma widen_digits (prec : Z) (mx : positive) :
  Zpos (digits2_pos mx) <= prec ->
  Zpos (digits2_pos (widen prec mx)) = prec.
Proof.
  intros H. unfold widen.
  destruct (prec - Zpos (digits2_pos mx)) as [|k|k] eqn:E; try lia.
  rewrite digits2_iter_xO. lia.
Qed.

Lemma widen_val (prec : Z) (mx : positive) :
  Zpos (digits2_pos mx) <= prec ->
  Zpos (widen prec mx) = Zpos mx * 2 ^ (prec - Zpos (digits2_pos mx)).
Proof.
  intros H. unfold widen.
  destruct (prec - Zpos (digits2_pos mx)) as [|k|k] eqn:E; try lia.
  apply iter_xO_val.
Qed.

(** A number of at most [prec] bits is held exactly, once widened. *)
Lemma binary_round_exact (prec emax : Z) (mx : positive) (ex : Z) :
  Zpos (digits2_pos mx) <= prec ->
  emin prec emax <= ex - (prec - Zpos (digits2_pos mx)) ->
  ex - (prec - Zpos (digits2_pos mx)) <= emax - prec ->
  binary_round prec emax false mx ex
  = S754_finite false (widen prec mx)
      (ex - (prec - Zpos (digits2_pos mx))).
Proof.
  intros Hd Hlo Hhi. unfold binary_round, fexp.
  replace (Z.max (Zpos (digits2_pos mx) + ex - prec) (emin prec emax))
    with (ex - (prec - Zpos (digits2_pos mx))) by lia.
  unfold shl_align, widen.
  replace (ex - (prec - Zpos (digits2_pos mx)) - ex)
    with (- (prec - Zpos (digits2_pos mx))) by lia.
  pose proof (widen_digits prec mx Hd) as Hw. unfold widen in Hw.
  destruct (prec - Zpos (digits2_pos mx)) as [|k|k] eqn:E; try lia;
    cbn [Z.opp].
  - rewrite Z.sub_0_r.
    apply binary_round_aux_canonical; [exact Hw | lia | lia].
  - apply binary_round_aux_canonical; [exact Hw | lia | lia].
Qed.

(** The [float64] of a [float32] read back as a [float32]. *)
Lemma to_float32_to_float64 (m : positive) (e : Z) :
  Zpos (digits2_pos m) = 24 -> -149 <= e <= 104 ->
  Strconv.to_float32 (Strconv.to_float64 (S754_finite false m e))
  = S754_finite false m e.
Proof.
  intros Hd He. unfold Strconv.to_float64.
  rewrite binary_round_exact;
    unfold Strconv.prec64, Strconv.emax64, emin; rewrite ?Hd; try lia.
  unfold widen. rewrite Hd. change (53 - 24) with 29. cbv iota.
  unfold Strconv.to_float32, binary_round, Strconv.prec32, Strconv.emax32.
  assert (Hd53 : Zpos (digits2_pos (Pos.iter xO m 29)) = 53)
    by (rewrite digits2_iter_xO, Pos2Z.inj_add, Hd; reflexivity).
  rewrite Hd53. unfold fexp, emin.
  replace (Z.max (53 + (e - 29) - 24) (3 - 128 - 24)) with e by lia.
  unfold shl_align. replace (e - (e - 29)) with 29 by lia. cbv iota.
  unfold binary_round_aux, shr_fexp, fexp, emin.
  cbn [Zdigits2 shr_record_of_loc]. rewrite Hd53.
  replace (Z.max (53 + (e - 29) - 24) (3 - 128 - 24) - (e - 29)) with 29
    by lia.
  cbn [shr]. cbn [Pos.iter iter_pos shr_1 orb].
  cbn [shr_m loc_of_shr_record round_nearest_even Zdigits2]. rewrite Hd.
  replace (e - 29 + 29) with e by lia.
  replace (Z.max (24 + e - 24) (3 - 128 - 24) - e) with 0 by lia.
  cbn [shr shr_m]. destruct (Z.leb_spec e (128 - 24)); [reflexivity | lia].
Qed.

(** The [float32] of a whole number below [2^24], and what becomes of it
    on the way through [float64]. *)
Lemma float32_of_whole (p : positive) :
  Zpos p < 2 ^ 24 ->
  exists m e,
    Strconv.decimal_to_float Strconv.prec32 Strconv.emax32 false (Zpos p) 0
    = S754_finite false m e
    /\ Zpos (digits2_pos m) = 24
    /\ -23 <= e <= 0
    /\ Zpos m = Zpos p * 2 ^ (- e).
Proof.
  intros Hp. pose proof (digits2_le p 24 ltac:(lia) Hp) as Hd.
  assert (1 <= Zpos (digits2_pos p)) by lia.
  exists (widen 24 p), (0 - (24 - Zpos (digits2_pos p))).
  split; [|split; [|split]].
  - unfold Strconv.decimal_to_float. cbn [Z.leb Z.compare].
    change (Z.to_pos (10 ^ 0)) with 1%positive. rewrite Pos.mul_1_r.
    apply binary_round_exact; unfold Strconv.prec32, Strconv.emax32, emin;
      lia.
  - now apply widen_digits.
  - lia.
  - rewrite widen_val by exact Hd. f_equal. f_equal. lia.
Qed.

(** ** The shortest digits of a whole number *)

(** When the float is the whole number [p] and the numbers around it
    that round to it are less than one away, the shortest digits are
    those of [p]: cutting at a higher position leaves the bounds. *)
Lemma shortest_loop_exact (fuel : nat) :
  forall (q L X U : Z) (inclusive : bool) (j p : Z),
    0 <= j -> X = p * 10 ^ j ->
    X - 10 ^ j < L -> L < X -> X < U -> U < X + 10 ^ j ->
    Strconv.shortest_loop fuel q L X U inclusive = X.
Proof.
  induction fuel as [|fuel IH]; intros q L X U inclusive j p Hj HX HL1 HL2
    HU1 HU2; cbn [Strconv.shortest_loop]; [reflexivity|].
  destruct (Z.ltb_spec q 0) as [Hq | Hq]; [reflexivity|]. cbv zeta.
  assert (Hpw : 0 < 10 ^ q) by (apply Z.pow_pos_nonneg; lia).
  assert (Hpj : 0 < 10 ^ j) by (apply Z.pow_pos_nonneg; lia).
  pose proof (Z.div_mod X (10 ^ q) ltac:(lia)) as Hdm.
  pose proof (Z.mod_pos_bound X (10 ^ q) Hpw) as Hmb.
  destruct (Z.eq_dec (X mod 10 ^ q) 0) as [E0 | E0].
  - replace (X / 10 ^ q * 10 ^ q) with X by lia.
    rewrite E0. replace (L <? X) with true by (symmetry; now apply Z.ltb_lt).
    cbn [orb andb Z.mul].
    replace (0 <? 10 ^ q) with true by (symmetry; now apply Z.ltb_lt).
    destruct (_ || _); reflexivity.
  - assert (Hqj : j < q).
    { destruct (Z.lt_ge_cases j q) as [H | H]; [exact H|]. exfalso.
      apply E0. rewrite HX.
      replace j with ((j - q) + q) by lia.
      rewrite Z.pow_add_r, Z.mul_assoc by lia.
      apply Z.mod_mul. lia. }
    assert (Hrem : exists r, 0 < r < 10 ^ (q - j)
                             /\ X mod 10 ^ q = r * 10 ^ j
                             /\ 10 ^ q = 10 ^ (q - j) * 10 ^ j).
    { assert (Hs : 10 ^ q = 10 ^ (q - j) * 10 ^ j).
      { rewrite <- Z.pow_add_r by lia. f_equal. lia. }
      assert (Hpd : 0 < 10 ^ (q - j)) by (apply Z.pow_pos_nonneg; lia).
      exists (p mod 10 ^ (q - j)).
      assert (Hm : X mod 10 ^ q = p mod 10 ^ (q - j) * 10 ^ j).
      { rewrite HX, Hs. apply Z.mul_mod_distr_r; lia. }
      pose proof (Z.mod_pos_bound p (10 ^ (q - j)) Hpd) as Hb.
      split; [|split; [exact Hm | exact Hs]].
      split; [|lia].
      destruct (Z.eq_dec (p mod 10 ^ (q - j)) 0) as [Z0 | Z0]; [|lia].
      exfalso. apply E0. rewrite Hm, Z0. reflexivity. }
    destruct Hrem as (r & Hr & Hrm & Hs).
    assert (Hd : X / 10 ^ q * 10 ^ q = X - r * 10 ^ j) by lia.
    rewrite Hd.
    assert (H1 : 10 ^ j <= r * 10 ^ j) by nia.
    assert (H2 : 10 ^ j <= 10 ^ q - r * 10 ^ j).
    { rewrite Hs.
      replace (10 ^ (q - j) * 10 ^ j - r * 10 ^ j)
        with ((10 ^ (q - j) - r) * 10 ^ j) by ring.
      nia. }
    destruct (Z.ltb_spec L (X - r * 10 ^ j)); [lia|].
    destruct (Z.eqb_spec L (X - r * 10 ^ j)); [lia|].
    destruct (Z.ltb_spec (X - r * 10 ^ j + 10 ^ q) U); [lia|].
    destruct (Z.eqb_spec (X - r * 10 ^ j + 10 ^ q) U); [lia|].
    rewrite !andb_false_r. cbn [orb andb].
    now apply (IH _ _ _ _ _ j p).
Qed.

Lemma put_frac_zeros (n : nat) (p : Z) (acc : string) :
  Strconv.put_frac n (p * 10 ^ Z.of_nat n) false acc = (acc, false, p).
Proof.
  revert acc. induction n as [|n IH]; intros acc.
  - cbn [Strconv.put_frac]. f_equal. cbn. lia.
  - cbn [Strconv.put_frac].
    rewrite Nat2Z.inj_succ, Z.pow_succ_r by lia.
    replace (p * (10 * 10 ^ Z.of_nat n)) with (p * 10 ^ Z.of_nat n * 10)
      by ring.
    rewrite Z.mod_mul, Z.div_mul by lia. cbn [Z.eqb negb orb].
    apply IH.
Qed.

(** [FormatFloat] writes a whole number held by a [float32] of full
    width as its digits. *)
Lemma FormatFloat32_f_whole (f : spec_float) (m : positive) (e p : Z) :
  Strconv.to_float32 f = S754_finite false m e ->
  -23 <= e <= 0 -> 0 < p -> Zpos m = p * 2 ^ (- e) ->
  Strconv.FormatFloat32_f f = Strconv.digits_of p "".
Proof.
  intros Hf He Hp Hm. unfold Strconv.FormatFloat32_f. rewrite Hf.
  unfold Strconv.shortest32.
  replace (Z.max 0 (2 - e)) with (2 - e) by lia.
  set (j := 2 - e).
  replace (e + j - 0) with 2 by lia.
  replace (e + j - 1) with 1 by lia.
  replace (e + j - 2) with 0 by lia.
  assert (HA : 0 < 5 ^ j) by (apply Z.pow_pos_nonneg; lia).
  assert (HB : 1 <= 2 ^ (- e)).
  { apply (Z.pow_le_mono_r 2 0 (- e)); lia. }
  assert (H10 : 10 ^ j = 4 * 2 ^ (- e) * 5 ^ j).
  { change 10 with (2 * 5). rewrite Z.pow_mul_l. f_equal.
    unfold j. replace (2 - e) with (2 + - e) by lia.
    rewrite Z.pow_add_r by lia. reflexivity. }
  change (2 ^ 2) with 4. change (2 ^ 1) with 2. change (2 ^ 0) with 1.
  rewrite shortest_loop_exact with (j := j) (p := p).
  - cbn [String.append]. unfold Strconv.fmtF.
    replace (Zpos m * 4 * 5 ^ j) with (p * 10 ^ Z.of_nat (Z.to_nat j)).
    + rewrite put_frac_zeros. reflexivity.
    + rewrite Z2Nat.id by (unfold j; lia). rewrite H10, Hm. ring.
  - unfold j. lia.
  - rewrite H10, Hm. ring.
  - destruct (_ && _); nia.
  - destruct (_ && _); nia.
  - nia.
  - nia.
Qed.

(** ** A whole number of seconds read by [ParseDuration] *)

Lemma leadingInt_put_digits (fuel : nat) :
  forall (v : Z) (acc : string) (x0 : Z),
    0 <= v < 2 ^ Z.of_nat fuel -> 0 <= x0 ->
    exists k, 0 <= k /\
      (x0 * 10 ^ k + v <= 2 ^ 63 / 10 ->
       Time.leadingInt (Strconv.put_digits fuel v acc) x0
       = Time.leadingInt acc (x0 * 10 ^ k + v)).
Proof.
  induction fuel as [|fuel IH]; intros v acc x0 Hv Hx.
  - exists 0. split; [lia|]. intros _. cbn [Strconv.put_digits].
    f_equal. cbn in Hv. lia.
  - cbn [Strconv.put_digits]. destruct (Z.leb_spec v 0).
    + exists 0. split; [lia|]. intros _. f_equal. lia.
    + assert (Hd : 0 <= v / 10 < 2 ^ Z.of_nat fuel).
      { rewrite Nat2Z.inj_succ, Z.pow_succ_r in Hv by lia.
        split; [apply Z.div_pos; lia|].
        apply Z.div_lt_upper_bound; lia. }
      destruct (IH (v / 10) (String (byte_of (v mod 10 + 0x30)) acc) x0
                  Hd Hx) as (k & Hk & E).
      exists (k + 1). split; [lia|]. intros Hb.
      pose proof (Z.div_mod v 10 ltac:(lia)) as Hdm.
      pose proof (Z.mod_pos_bound v 10 ltac:(lia)) as Hmb.
      assert (Hpk : 0 < 10 ^ k) by (apply Z.pow_pos_nonneg; lia).
      assert (Hfin : x0 * 10 ^ (k + 1) + v
                     = (x0 * 10 ^ k + v / 10) * 10 + v mod 10).
      { rewrite Z.pow_add_r by lia. change (10 ^ 1) with 10. lia. }
      assert (Hx0k : 0 <= x0 * 10 ^ k) by nia.
      change (2 ^ 63 / 10) with 922337203685477580 in *.
      rewrite E by lia.
      cbn [Time.leadingInt].
      destruct (digit_byte (v mod 10) Hmb) as [-> ->].
      change (2 ^ 63 / 10) with 922337203685477580.
      change (2 ^ 63) with 9223372036854775808.
      destruct (Z.ltb_spec 922337203685477580 (x0 * 10 ^ k + v / 10));
        [lia|].
      destruct (Z.ltb_spec 9223372036854775808
                  ((x0 * 10 ^ k + v / 10) * 10 + v mod 10)); [lia|].
      now rewrite Hfin.
Qed.

Lemma leadingInt_digits_of (n : Z) (acc : string) :
  0 <= n <= 2 ^ 63 / 10 ->
  Time.leadingInt (Strconv.digits_of n acc) 0 = Time.leadingInt acc n.
Proof.
  intros Hn. unfold Strconv.digits_of. destruct (Z.leb_spec n 0).
  - assert (n = 0) by lia. subst n. reflexivity.
  - destruct (leadingInt_put_digits (S (Z.to_nat (Z.log2 n))) n acc 0)
      as (k & _ & E); [|lia|].
    + rewrite Nat2Z.inj_succ, Z2Nat.id by apply Z.log2_nonneg.
      split; [lia|]. apply Z.log2_spec. lia.
    + rewrite E by lia. f_equal.
Qed.

Lemma digits_of_acc (v : Z) (acc : string) :
  Strconv.digits_of v acc = (Strconv.digits_of v "" ++ acc)%string.
Proof.
  unfold Strconv.digits_of. destruct (v <=? 0); [reflexivity|].
  generalize (S (Z.to_nat (Z.log2 v))) as fuel. intros fuel.
  assert (H : forall a b, Strconv.put_digits fuel v (a ++ b)
                          = (Strconv.put_digits fuel v a ++ b)%string).
  { revert v. induction fuel as [|fuel IH]; intros w a b;
      cbn [Strconv.put_digits]; [reflexivity|].
    destruct (w <=? 0); [reflexivity|].
    change (String (byte_of (w mod 10 + 48)) (a ++ b))
      with (String (byte_of (w mod 10 + 48)) a ++ b)%string.
    apply IH. }
  apply (H "" acc).
Qed.

(** [ParseDuration] reads [n] followed by [s] as [n] seconds. *)
Lemma ParseDuration_whole_seconds (n : Z) :
  0 <= n <= 2 ^ 63 / Time.Second ->
  Time.ParseDuration (Strconv.digits_of n "" ++ "s") = Ok (n * Time.Second).
Proof.
  change (2 ^ 63 / Time.Second) with 9223372036. intros Hn.
  destruct (digits_of_head n "") as (c & rest & E & Hc).
  unfold Time.ParseDuration. rewrite E. cbn [String.append].
  rewrite (strip_sign_digit c _ Hc).
  assert (Hne : (String c (rest ++ "s") =? "0")%string = false).
  { cbn [String.eqb]. destruct rest; cbn [String.append String.eqb];
      apply andb_false_r. }
  rewrite Hne. cbn [String.length Time.parse_terms].
  rewrite Hc, orb_true_r. cbn [negb].
  change (String c (rest ++ "s")) with (String c rest ++ "s")%string.
  rewrite <- E, <- digits_of_acc.
  rewrite leadingInt_digits_of
    by (change (2 ^ 63 / 10) with 922337203685477580; lia).
  change (Time.leadingInt "s" n) with (Some (n, "s")).
  cbv beta iota zeta.
  change (byte_val "s" =? 46) with false. cbv beta iota zeta.
  replace (S (String.length (rest ++ "s")) =? String.length "s")%nat
    with false.
  2:{ symmetry. apply Nat.eqb_neq. rewrite length_append. cbn. lia. }
  cbn [negb andb].
  change (Time.split_unit "s") with ("s", ""). cbv beta iota.
  change (Time.unitMap "s") with (Some 1000000000). cbv beta iota.
  change (0 <? 0) with false. cbv iota.
  change (2 ^ 63 / 1000000000) with 9223372036.
  change (2 ^ 63) with 9223372036854775808.
  change (2 ^ 64) with 18446744073709551616.
  change Time.Second with 1000000000.
  destruct (Z.ltb_spec 9223372036 n); [lia|].
  destruct (Z.ltb_spec 9223372036854775808 (n * 1000000000)); [lia|].
  rewrite Z.add_0_l, Z.mod_small by lia.
  destruct (Z.ltb_spec 9223372036854775808 (n * 1000000000)); [lia|].
  assert (Hend : forall fuel orig, Time.parse_terms fuel orig ""
                                     (n * 1000000000)
                                   = Ok (n * 1000000000))
    by (intros [|fuel] orig; reflexivity).
  rewrite Hend.
  destruct (Z.ltb_spec (9223372036854775808 - 1) (n * 1000000000));
    [lia | reflexivity].
Qed.

Lemma seconds_digits_exact (ds : string) (n : Z) :
  ds <> "" -> Strconv.parse_digits ds 0 = Some n -> 0 <= n < 2 ^ 24 ->
  ParseISODuration ("PT" ++ ds ++ "S") = Ok (n * Time.Second).
Proof.
  intros Hne Hp Hn. pose proof (parse_digits_all ds 0 n Hp) as Hd.
  unfold ParseISODuration.
  rewrite (FindStringSubmatch_seconds ds Hd Hne).
  unfold index. cbn [nth String.eqb negb bind].
  destruct (String.eqb_spec ds ""); [contradiction|]. cbn [negb].
  rewrite (ParseFloat32_digits_value ds n Hne Hp). cbv zeta.
  destruct n as [|p|p]; [| |lia].
  - cbn [Strconv.decimal_to_float Strconv.is_infinite Strconv.to_float64
         bind].
    change (S754_zero false +! S754_zero false) with (S754_zero false).
    change (Strconv.FormatFloat32_f (S754_zero false))
      with (Strconv.digits_of 0 "").
    apply (ParseDuration_whole_seconds 0). split; [lia|]. discriminate.
  - destruct (float32_of_whole p ltac:(lia)) as (m & e & -> & Hm & He & Hv).
    cbn [Strconv.is_infinite bind].
    assert (H64 : exists m' e',
              Strconv.to_float64 (S754_finite false m e)
              = S754_finite false m' e').
    { eexists _, _. unfold Strconv.to_float64.
      apply binary_round_exact;
        unfold Strconv.prec64, Strconv.emax64, emin; rewrite ?Hm; lia. }
    destruct H64 as (m' & e' & H64).
    assert (Hadd : S754_zero false
                   +! Strconv.to_float64 (S754_finite false m e)
                   = Strconv.to_float64 (S754_finite false m e))
      by (rewrite H64; reflexivity).
    rewrite Hadd.
    rewrite (FormatFloat32_f_whole _ m e (Zpos p));
      [| apply to_float32_to_float64; [exact Hm | lia] | exact He | lia
       | exact Hv].
    apply ParseDuration_whole_seconds.
    change (2 ^ 63 / Time.Second) with 9223372036.
    change (2 ^ 24) with 16777216 in Hn. lia.
Qed.

(** X23: a duration of a whole number of seconds below [2^24] is read
    exactly: [PT], the digits of [n] and [S] give [n] seconds, however
    many zeros come first. Above [2^24] the [float32] on the way rounds
    the number: 16777217 seconds are read as 16777216. *)
Theorem whole_seconds_are_exact :
  (forall n : Z,
      0 <= n < 2 ^ 24 ->
      ParseISODuration ("PT" ++ Strconv.Itoa n ++ "S") = Ok (n * Time.Second))
  /\ (forall (ds : string) (n : Z),
        ds <> "" -> Strconv.parse_digits ds 0 = Some n -> 0 <= n < 2 ^ 24 ->
        ParseISODuration ("PT" ++ ds ++ "S") = Ok (n * Time.Second))
  /\ ParseISODuration "PT16777217S" = Ok (16777216 * Time.Second).
Proof.
  split; [|split; [exact seconds_digits_exact | vm_compute; reflexivity]].
  intros n Hn. unfold Strconv.Itoa.
  destruct (Z.ltb_spec n 0); [lia|].
  destruct (digits_of_spec n ltac:(lia)) as ((c & rest & E & _) & P).
  apply seconds_digits_exact; [rewrite E; discriminate | exact P | exact Hn].
Qed.

Lemma whole_seconds_are_exact_witness :
  ParseISODuration ("PT" ++ Strconv.Itoa 90 ++ "S") = Ok (90 * Time.Second)
  /\ ParseISODuration ("PT" ++ "007" ++ "S") = Ok (7 * Time.Second).
Proof.
  destruct whole_seconds_are_exact as (H1 & H2 & _).
  split.
  - apply H1. pow2. lia.
  - apply H2; [discriminate | reflexivity | pow2; lia].
Defined.

End WholeNumbers.

(* ===================================================================== *)
(** * The match of a duration, component by component *)
(* ===================================================================== *)

Section DurationComponents.

Lemma state_letter {R} (c : ascii) (b : regex) (pre suf : string)
    (cs : list (nat * (nat * nat))) (k : mstate -> option R) :
  run (Cat (One (ClassLit (byte_val c))) b) (state_at pre (String c suf) cs) k
  = run b (state_at (pre ++ String c "") suf cs) k.
Proof.
  unfold state_at. cbn [ascii_tokens].
  erewrite run_letter by reflexivity. cbn [pos rest caps].
  rewrite length_append. reflexivity.
Qed.

Lemma state_begin {R} (b : regex) (suf : string) (k : mstate -> option R) :
  run (Cat BeginText b) (state_at "" suf []) k = run b (state_at "" suf []) k.
Proof. now apply run_begin. Qed.

(** A group is passed over when, after the digits it could take, the
    letter is not there. *)
Lemma group_passed {R} (i : nat) (x : rune) (b : regex) (st : mstate)
    (k : mstate -> option R) :
  ~ (48 <= x <= 57) ->
  digits_then x (rest st) ->
  run (Cat (Quest (Cat (Capture i (Plus1 ClassDigit)) (One (ClassLit x)))) b)
      st k
  = run b st k.
Proof.
  intros Hx (w & ts & E & Hw & Hs & Hsx). cbn [run]. rewrite E.
  rewrite plus_loop_none; [reflexivity | exact Hw | exact Hs |].
  intros w1 w2 q -> Hne. cbn [rest].
  apply Forall_app in Hw as [_ Hw2].
  destruct w2 as [|t w2]; cbn [app].
  - destruct ts as [|t ts]; [reflexivity|]. unfold stops in Hsx.
    cbn [class_matches] in *. now rewrite Hsx.
  - apply Forall_inv in Hw2. cbn [class_matches] in *.
    apply is_digit_range in Hw2.
    destruct (Z.eqb_spec (tok_rune t) x); [lia | reflexivity].
Qed.

(** A group is taken when its digits and its letter are there and the
    rest of the expression matches what follows. *)
Lemma group_taken {R} (i : nat) (x : rune) (b : regex) (st : mstate)
    (k : mstate -> option R) (w : list token) (t : token)
    (ts : list token) (r : R) :
  rest st = (w ++ t :: ts)%list ->
  Forall (fun t => class_matches ClassDigit (tok_rune t) = true) w ->
  w <> [] -> tok_rune t = x -> ~ (48 <= x <= 57) ->
  run b {| pos := (pos st + total_len w + tok_len t)%nat; rest := ts;
           caps := (i, (pos st, (pos st + total_len w)%nat)) :: caps st |}
      k = Some r ->
  run (Cat (Quest (Cat (Capture i (Plus1 ClassDigit)) (One (ClassLit x)))) b)
      st k
  = Some r.
Proof.
  intros E Hw Hne Ht Hx Hk. cbn [run]. rewrite E.
  rewrite (plus_loop_full ClassDigit w (t :: ts) (pos st) _ r);
    [reflexivity | exact Hw | exact Hne | |].
  - cbn. destruct (Z.leb_spec 48 (tok_rune t));
      destruct (Z.leb_spec (tok_rune t) 57); cbn; try reflexivity. lia.
  - cbn [rest pos caps class_matches]. rewrite Ht, Z.eqb_refl. exact Hk.
Qed.

(** One step for a component that is there or not. *)
Lemma group_step {R} (i : nat) (c : ascii) (g : option string)
    (b : regex) (pre suf : string) (cs : list (nat * (nat * nat)))
    (k : mstate -> option R) (r : R) :
  group_valid g -> unit_letter c ->
  (g = None -> digits_then (byte_val c) (ascii_tokens suf)) ->
  run b (state_at (pre ++ group_text g c) suf
           (group_cap i g (String.length pre) ++ cs)) k = Some r ->
  run (Cat (Quest (Cat (Capture i (Plus1 ClassDigit))
                       (One (ClassLit (byte_val c))))) b)
      (state_at pre (group_text g c ++ suf) cs) k
  = Some r.
Proof.
  intros Hg [Hc1 Hc2] Hnone Hk.
  assert (Hx : ~ (48 <= byte_val c <= 57)).
  { intros H. apply is_digit_range in H. congruence. }
  destruct g as [ds|]; cbn [group_text group_cap app] in *.
  - destruct Hg as [Hd Hne].
    apply (group_taken i _ b _ k (ascii_tokens ds) (ascii_token c)
             (ascii_tokens suf)).
    + unfold state_at. cbn [rest].
      rewrite append_assoc, ascii_tokens_app. reflexivity.
    + now apply digit_tokens.
    + destruct ds; [congruence | discriminate].
    + reflexivity.
    + exact Hx.
    + unfold state_at in *. cbn [pos caps]. rewrite total_len_ascii.
      rewrite !length_append in Hk. cbn [String.length] in Hk.
      cbn [tok_len ascii_token tok_bytes String.length].
      rewrite <- Nat.add_assoc. exact Hk.
  - rewrite append_nil_r in Hk. rewrite group_passed; [exact Hk | exact Hx |].
    now apply Hnone.
Qed.

Lemma literal_step {R} (c : ascii) (b : regex) (pre suf : string)
    (cs : list (nat * (nat * nat))) (k : mstate -> option R) (r : R) :
  run b (state_at (pre ++ String c "") suf cs) k = Some r ->
  run (Cat (One (ClassLit (byte_val c))) b) (state_at pre (String c suf) cs) k
  = Some r.
Proof. intros H. now rewrite state_letter. Qed.

(** The step of the seconds group, at the end of the text. *)
Lemma seconds_step {R} (g : option string) (b : regex) (pre : string)
    (cs : list (nat * (nat * nat))) (k : mstate -> option R) (r : R) :
  group_valid g ->
  run b (state_at (pre ++ group_text g "S") ""
           (group_cap 6 g (String.length pre) ++ cs)) k = Some r ->
  run (Cat (Quest
              (Cat (Capture 6
                      (Cat (Plus1 ClassDigit)
                           (Quest (Cat (One ClassAnyNotNL)
                                       (Plus1 ClassDigit)))))
                   (One (ClassLit 0x53))))
           b) (state_at pre (group_text g "S") cs) k
  = Some r.
Proof.
  intros Hg Hk. destruct g as [ds|]; cbn [group_text group_cap app] in *.
  - destruct Hg as [Hd Hne].
    apply (seconds_group_taken b _ k (ascii_tokens ds)).
    + unfold state_at. cbn [rest]. now rewrite ascii_tokens_app.
    + now apply digit_tokens.
    + destruct ds; [congruence | discriminate].
    + unfold state_at in *. cbn [pos caps ascii_tokens] in *.
      rewrite total_len_ascii.
      rewrite !length_append in Hk. cbn [String.length] in Hk.
      rewrite Nat.add_assoc in Hk. exact Hk.
  - rewrite append_nil_r in Hk. exact Hk.
Qed.

Lemma digits_then_nil (x : rune) : digits_then x [].
Proof. exists [], []. repeat split. constructor. Qed.

Lemma digits_then_letter (x : rune) (c : ascii) (suf : string) :
  unit_letter c -> byte_val c <> x ->
  digits_then x (ascii_tokens (String c suf)).
Proof.
  intros [_ Hc] Hx. exists [], (ascii_tokens (String c suf)).
  repeat split; [constructor | exact Hc |].
  cbn. now apply Z.eqb_neq.
Qed.

Lemma digits_then_group (x : rune) (g : option string) (c : ascii)
    (suf : string) :
  group_valid g -> unit_letter c -> byte_val c <> x ->
  digits_then x (ascii_tokens suf) ->
  digits_then x (ascii_tokens (group_text g c ++ suf)).
Proof.
  intros Hg [_ Hc] Hx Hs. destruct g as [ds|]; cbn [group_text].
  - destruct Hg as [Hd _]. exists (ascii_tokens ds), (ascii_tokens (String c suf)).
    repeat split.
    + rewrite append_assoc. now rewrite ascii_tokens_app.
    + now apply digit_tokens.
    + exact Hc.
    + cbn. now apply Z.eqb_neq.
  - exact Hs.
Qed.

Lemma digits_then_last (x : rune) (g : option string) (c : ascii) :
  group_valid g -> unit_letter c -> byte_val c <> x ->
  digits_then x (ascii_tokens (group_text g c)).
Proof.
  intros Hg Hc Hx. rewrite <- (append_nil_r (group_text g c)).
  apply digits_then_group; auto using digits_then_nil.
Qed.

Lemma unit_letter_byte (c : ascii) :
  (byte_val c <? 0x80) && negb (Strconv.is_digit (byte_val c)) = true ->
  unit_letter c.
Proof.
  intros H. apply andb_true_iff in H as [H1 H2]. split.
  - now apply Z.ltb_lt.
  - now apply negb_true_iff.
Qed.

(** The match of a duration with the given components: every component
    is taken by its own group. *)
Lemma run_iso_text (y mo d h mi s : option string) :
  group_valid y -> group_valid mo -> group_valid d ->
  group_valid h -> group_valid mi -> group_valid s ->
  let p1 := "P" in
  let p2 := (p1 ++ group_text y "Y")%string in
  let p3 := (p2 ++ group_text mo "M")%string in
  let p4 := (p3 ++ group_text d "D")%string in
  let p5 := (p4 ++ "T")%string in
  let p6 := (p5 ++ group_text h "H")%string in
  let p7 := (p6 ++ group_text mi "M")%string in
  let p8 := (p7 ++ group_text s "S")%string in
  run isoDurationRe (state_at "" (iso_text y mo d h mi s) []) Some
  = Some (state_at p8 ""
            (group_cap 6 s (String.length p7)
             ++ group_cap 5 mi (String.length p6)
             ++ group_cap 4 h (String.length p5)
             ++ group_cap 3 d (String.length p3)
             ++ group_cap 2 mo (String.length p2)
             ++ group_cap 1 y (String.length p1) ++ [])%list).
Proof.
  intros Hy Hmo Hd Hh Hmi Hs. cbv zeta.
  assert (CY : unit_letter "Y") by now apply unit_letter_byte.
  assert (CM : unit_letter "M") by now apply unit_letter_byte.
  assert (CD : unit_letter "D") by now apply unit_letter_byte.
  assert (CH : unit_letter "H") by now apply unit_letter_byte.
  assert (CS : unit_letter "S") by now apply unit_letter_byte.
  assert (CT : unit_letter "T") by now apply unit_letter_byte.
  unfold isoDurationRe, iso_text.
  rewrite state_begin.
  apply (literal_step "P").
  apply (group_step 1 "Y" y); [exact Hy | exact CY | |].
  { intros _. apply digits_then_group; [exact Hmo | exact CM | discriminate |].
    apply digits_then_group; [exact Hd | exact CD | discriminate |].
    apply digits_then_letter; [exact CT | discriminate]. }
  apply (group_step 2 "M" mo); [exact Hmo | exact CM | |].
  { intros _. apply digits_then_group; [exact Hd | exact CD | discriminate |].
    apply digits_then_letter; [exact CT | discriminate]. }
  apply (group_step 3 "D" d); [exact Hd | exact CD | |].
  { intros _. apply digits_then_letter; [exact CT | discriminate]. }
  apply (literal_step "T").
  apply (group_step 4 "H" h); [exact Hh | exact CH | |].
  { intros _. apply digits_then_group; [exact Hmi | exact CM | discriminate |].
    apply digits_then_last; [exact Hs | exact CS | discriminate]. }
  apply (group_step 5 "M" mi); [exact Hmi | exact CM | |].
  { intros _. apply digits_then_last; [exact Hs | exact CS | discriminate]. }
  apply seconds_step; [exact Hs|].
  reflexivity.
Qed.

Lemma ascii_only_app (a b : string) :
  ascii_only (a ++ b) = ascii_only a && ascii_only b.
Proof.
  induction a as [|c a IH]; cbn [String.append ascii_only]; [reflexivity|].
  now rewrite IH, andb_assoc.
Qed.

Lemma group_text_ascii (g : option string) (c : ascii) :
  group_valid g -> unit_letter c -> ascii_only (group_text g c) = true.
Proof.
  intros Hg [Hc _]. destruct g as [ds|]; [|reflexivity].
  destruct Hg as [Hd _]. cbn [group_text].
  rewrite ascii_only_app, (all_digits_ascii _ Hd). cbn.
  rewrite andb_true_r. now apply Z.ltb_lt.
Qed.

Lemma substr_mid (pre ds post : string) :
  substr (pre ++ ds ++ post) (String.length pre)
         (String.length pre + String.length ds) = ds.
Proof.
  unfold substr. rewrite drop_app.
  replace (String.length pre + String.length ds - String.length pre)%nat
    with (String.length ds) by lia.
  apply take_app.
Qed.

Lemma substr_whole (s : string) : substr s 0 (String.length s) = s.
Proof.
  unfold substr. cbn [drop]. rewrite Nat.sub_0_r.
  rewrite <- (append_nil_r s) at 2. apply take_app.
Qed.

(** The text a group's register holds is the component's digits. *)
Lemma group_cap_here (i : nat) (g : option string) (c : ascii)
    (pre post : string) (l : list (nat * (nat * nat))) (s : string) :
  s = (pre ++ group_text g c ++ post)%string ->
  cap_lookup l i = None ->
  match cap_lookup (group_cap i g (String.length pre) ++ l) i with
  | Some (lo, hi) => substr s lo hi
  | None => ""
  end = group_digits g.
Proof.
  intros -> Hl. destruct g as [ds|]; cbn [group_cap group_text group_digits app].
  - cbn [cap_lookup]. rewrite Nat.eqb_refl. rewrite append_assoc.
    apply substr_mid.
  - now rewrite Hl.
Qed.

Lemma group_cap_other (i j : nat) (g : option string) (lo : nat)
    (l : list (nat * (nat * nat))) :
  (j =? i)%nat = false ->
  cap_lookup (group_cap j g lo ++ l) i = cap_lookup l i.
Proof.
  intros H. destruct g; cbn [group_cap app cap_lookup]; [|reflexivity].
  now rewrite H.
Qed.

(** What [FindStringSubmatch] returns on a duration with the given
    components: the text and the digits of each. *)
Lemma FindStringSubmatch_iso_text (y mo d h mi s : option string) :
  group_valid y -> group_valid mo -> group_valid d ->
  group_valid h -> group_valid mi -> group_valid s ->
  FindStringSubmatch isoDurationRe (iso_text y mo d h mi s)
  = Some [iso_text y mo d h mi s; group_digits y; group_digits mo;
          group_digits d; group_digits h; group_digits mi; group_digits s].
Proof.
  intros Hy Hmo Hd Hh Hmi Hs. unfold FindStringSubmatch.
  assert (Ha : ascii_only (iso_text y mo d h mi s) = true).
  { unfold iso_text. rewrite !ascii_only_app.
    rewrite !group_text_ascii; try assumption;
      try (now apply unit_letter_byte). reflexivity. }
  rewrite (range_ascii _ Ha).
  rewrite (search_here _ 0%nat _ _
             (run_iso_text y mo d h mi s Hy Hmo Hd Hh Hmi Hs)).
  change (NumSubexp isoDurationRe) with 6%nat.
  cbn [seq map]. unfold state_at at 1 2. cbn [pos caps].
  assert (Hlen : ((((((("P" ++ group_text y "Y") ++ group_text mo "M")
                       ++ group_text d "D") ++ "T") ++ group_text h "H")
                    ++ group_text mi "M") ++ group_text s "S")%string
                 = iso_text y mo d h mi s).
  { unfold iso_text. now rewrite !append_assoc. }
  rewrite Hlen, substr_whole. f_equal. unfold state_at. cbn [caps].
  repeat f_equal.
  - rewrite !group_cap_other by reflexivity.
    eapply (group_cap_here 1 y "Y" "P"); [|reflexivity].
    unfold iso_text. reflexivity.
  - rewrite !group_cap_other by reflexivity.
    eapply (group_cap_here 2 mo "M"); [|now rewrite group_cap_other].
    unfold iso_text. now rewrite !append_assoc.
  - rewrite !group_cap_other by reflexivity.
    eapply (group_cap_here 3 d "D");
      [|now rewrite !group_cap_other by reflexivity].
    unfold iso_text. now rewrite !append_assoc.
  - rewrite !group_cap_other by reflexivity.
    eapply (group_cap_here 4 h "H");
      [|now rewrite !group_cap_other by reflexivity].
    unfold iso_text. now rewrite !append_assoc.
  - rewrite !group_cap_other by reflexivity.
    eapply (group_cap_here 5 mi "M");
      [|now rewrite !group_cap_other by reflexivity].
    unfold iso_text. now rewrite !append_assoc.
  - rewrite <- (append_nil_r (group_text s "S")) in Hlen.
    apply (group_cap_here 6 s "S" _ "");
      [|now rewrite !group_cap_other by reflexivity].
    unfold iso_text. rewrite !append_assoc. now rewrite append_nil_r.
Qed.

End DurationComponents.

(* ===================================================================== *)
(** * Exact arithmetic on whole numbers *)
(* ===================================================================== *)

Section WholeArithmetic.

Lemma digits2_upper (p : positive) : Zpos p < 2 ^ Zpos (digits2_pos p).
Proof.
  induction p as [p IH|p IH|]; cbn [digits2_pos];
    rewrite ?Pos2Z.inj_succ, ?Z.pow_succ_r by lia; lia.
Qed.

Lemma digits2_mono (p q : positive) :
  Zpos p <= Zpos q -> Zpos (digits2_pos p) <= Zpos (digits2_pos q).
Proof.
  intros H. pose proof (digits2_lower p) as Hl.
  pose proof (digits2_upper q) as Hu.
  destruct (Z.le_gt_cases (Zpos (digits2_pos p)) (Zpos (digits2_pos q)))
    as [E | E]; [exact E|]. exfalso.
  assert (2 ^ Zpos (digits2_pos q) <= 2 ^ (Zpos (digits2_pos p) - 1))
    by (apply Z.pow_le_mono_r; lia).
  lia.
Qed.

(** The digits of a number shifted to the left. *)
Lemma shifted (m n : positive) (k : Z) :
  0 <= k -> Zpos m = Zpos n * 2 ^ k ->
  Zpos (digits2_pos m) = Zpos (digits2_pos n) + k
  /\ m = match k with Zpos j => Pos.iter xO n j | _ => n end.
Proof.
  intros Hk E. destruct k as [|j|j]; [| |lia].
  - rewrite Z.pow_0_r, Z.mul_1_r in E. injection E as ->. split; [lia | reflexivity].
  - rewrite <- iter_xO_val in E. injection E as ->.
    rewrite digits2_iter_xO. split; [lia | reflexivity].
Qed.

Lemma iter_pos_iter {A} (f : A -> A) (n : positive) :
  forall x, iter_pos f n x = Pos.iter f x n.
Proof.
  induction n as [n IH|n IH|]; intros x; cbn [iter_pos Pos.iter].
  - rewrite !IH. now rewrite <- !Pos.iter_swap.
  - now rewrite !IH.
  - reflexivity.
Qed.

(** Shifting out zeros loses nothing. *)
Lemma shr_zeros (q k : positive) :
  iter_pos shr_1 k {| shr_m := Zpos (Pos.iter xO q k); shr_r := false;
                      shr_s := false |}
  = {| shr_m := Zpos q; shr_r := false; shr_s := false |}.
Proof.
  rewrite iter_pos_iter. revert q.
  induction k as [|k IH] using Pos.peano_ind; intros q.
  - reflexivity.
  - rewrite (Pos.iter_succ_r k _ shr_1), (Pos.iter_succ k _ xO).
    cbn [shr_1 orb]. apply IH.
Qed.

(** A mantissa that is one of full width followed by zeros is rounded
    to it. *)
Lemma binary_round_aux_shift (prec emax : Z) (q sh : positive) (ez : Z) :
  Zpos (digits2_pos q) = prec ->
  emin prec emax <= ez + Zpos sh -> ez + Zpos sh <= emax - prec ->
  binary_round_aux prec emax false (Zpos (Pos.iter xO q sh)) ez loc_Exact
  = S754_finite false q (ez + Zpos sh).
Proof.
  intros Hd Hlo Hhi. unfold binary_round_aux, shr_fexp, fexp.
  cbn [Zdigits2 shr_record_of_loc]. rewrite digits2_iter_xO, Pos2Z.inj_add, Hd.
  replace (Z.max (prec + Zpos sh + ez - prec) (emin prec emax) - ez)
    with (Zpos sh) by lia.
  cbn [shr]. rewrite shr_zeros.
  cbn [shr_m loc_of_shr_record round_nearest_even Zdigits2 shr_r shr_s].
  rewrite Hd.
  replace (Z.max (prec + (ez + Zpos sh) - prec) (emin prec emax)
           - (ez + Zpos sh)) with 0 by lia.
  cbn [shr shr_m].
  destruct (Z.leb_spec (ez + Zpos sh) (emax - prec)); [reflexivity | lia].
Qed.

(** A wide enough mantissa that stands for the whole number [n] is
    rounded to [n]. *)
Lemma binary_round_aux_whole (prec emax : Z) (mx : positive) (ex : Z)
    (n : positive) :
  ex <= 0 -> Zpos mx = Zpos n * 2 ^ (- ex) ->
  Zpos (digits2_pos n) <= prec ->
  prec <= Zpos (digits2_pos n) - ex ->
  emin prec emax <= Zpos (digits2_pos n) - prec -> 0 <= emax - prec ->
  binary_round_aux prec emax false (Zpos mx) ex loc_Exact = whole prec n.
Proof.
  intros Hex Hm Hn Hw Hlo Hhi. unfold whole.
  pose proof (widen_digits prec n Hn) as Hwd.
  pose proof (widen_val prec n Hn) as Hwv.
  destruct (Z.eq_dec (- ex) (prec - Zpos (digits2_pos n))) as [E | E].
  - assert (mx = widen prec n).
    { apply Pos2Z.inj. rewrite Hm, Hwv, E. reflexivity. }
    subst mx. replace ex with (Zpos (digits2_pos n) - prec) by lia.
    apply binary_round_aux_canonical; [exact Hwd | lia | lia].
  - assert (Hs : 0 < - ex - (prec - Zpos (digits2_pos n))) by lia.
    destruct (- ex - (prec - Zpos (digits2_pos n))) as [|sh|sh] eqn:Esh;
      try lia.
    assert (mx = Pos.iter xO (widen prec n) sh).
    { apply Pos2Z.inj. rewrite iter_xO_val, Hm, Hwv.
      rewrite <- Z.mul_assoc, <- Z.pow_add_r by lia. f_equal. f_equal. lia. }
    subst mx. rewrite binary_round_aux_shift; [| exact Hwd | lia | lia].
    f_equal. lia.
Qed.

(** A mantissa that stands for the whole number [n] is rounded to
    [n]. *)
Lemma binary_round_whole (prec emax : Z) (mx : positive) (ex : Z)
    (n : positive) :
  ex <= 0 -> Zpos mx = Zpos n * 2 ^ (- ex) ->
  Zpos (digits2_pos n) <= prec ->
  emin prec emax <= Zpos (digits2_pos n) - prec -> 0 <= emax - prec ->
  binary_round prec emax false mx ex = whole prec n.
Proof.
  intros Hex Hm Hn Hlo Hhi.
  destruct (shifted mx n (- ex) ltac:(lia) Hm) as [Hd _].
  unfold binary_round, fexp. rewrite Hd.
  replace (Z.max (Zpos (digits2_pos n) + - ex + ex - prec) (emin prec emax))
    with (Zpos (digits2_pos n) - prec) by lia.
  unfold shl_align.
  destruct (Zpos (digits2_pos n) - prec - ex) as [|k|k] eqn:E.
  - apply binary_round_aux_whole; try assumption; lia.
  - apply binary_round_aux_whole; try assumption; lia.
  - change (shift_pos k mx) with (Pos.iter xO mx k).
    apply binary_round_aux_whole; try assumption; try lia.
    rewrite iter_xO_val, Hm, <- Z.mul_assoc, <- Z.pow_add_r by lia.
    f_equal. f_equal. lia.
Qed.

(** ** Whole numbers in [float32] and [float64] *)

Lemma float64_of_Z_whole (n : positive) :
  Zpos n < 2 ^ 53 -> Time.float64_of_Z (Zpos n) = whole 53 n.
Proof.
  intros H. pose proof (digits2_le n 53 ltac:(lia) H).
  unfold Time.float64_of_Z, binary_normalize.
  apply binary_round_whole;
    unfold Strconv.prec64, Strconv.emax64, emin; try lia.
Qed.

Lemma decimal_to_float32_whole (n : positive) :
  Zpos n < 2 ^ 24 ->
  Strconv.decimal_to_float Strconv.prec32 Strconv.emax32 false (Zpos n) 0
  = whole 24 n.
Proof.
  intros H. pose proof (digits2_le n 24 ltac:(lia) H).
  unfold Strconv.decimal_to_float. cbn [Z.leb Z.compare].
  change (Z.to_pos (10 ^ 0)) with 1%positive. rewrite Pos.mul_1_r.
  apply binary_round_whole;
    unfold Strconv.prec32, Strconv.emax32, emin; try lia.
Qed.

Lemma to_float64_whole (n : positive) :
  Zpos n < 2 ^ 24 -> Strconv.to_float64 (whole 24 n) = whole 53 n.
Proof.
  intros H. pose proof (digits2_le n 24 ltac:(lia) H). unfold whole at 1.
  cbn [Strconv.to_float64].
  apply binary_round_whole;
    unfold Strconv.prec64, Strconv.emax64, emin; try lia.
  rewrite widen_val by lia. f_equal. f_equal. lia.
Qed.

Lemma to_float32_whole (n : positive) :
  Zpos n < 2 ^ 24 -> Strconv.to_float32 (whole 53 n) = whole 24 n.
Proof.
  intros H. pose proof (digits2_le n 24 ltac:(lia) H). unfold whole at 1.
  cbn [Strconv.to_float32].
  apply binary_round_whole;
    unfold Strconv.prec32, Strconv.emax32, emin; try lia.
  rewrite widen_val by lia. f_equal. f_equal. lia.
Qed.

(** The product of two whole numbers is exact when it has at most 53
    bits. *)
Lemma fmul_whole (a b : positive) :
  Zpos a * Zpos b < 2 ^ 53 ->
  whole 53 a *! whole 53 b = whole 53 (a * b).
Proof.
  intros H.
  assert (Ha : Zpos a < 2 ^ 53) by nia.
  assert (Hb : Zpos b < 2 ^ 53) by nia.
  pose proof (digits2_le a 53 ltac:(lia) Ha) as Hda.
  pose proof (digits2_le b 53 ltac:(lia) Hb) as Hdb.
  pose proof (digits2_le (a * b) 53 ltac:(lia) H) as Hdab.
  pose proof (digits2_mono a (a * b) ltac:(nia)) as Hma.
  unfold whole at 1 2. unfold Time.fmul, SFmul. cbn [xorb].
  apply binary_round_aux_whole;
    unfold Strconv.prec64, Strconv.emax64, emin; try lia.
  rewrite Pos2Z.inj_mul, !widen_val by lia.
  replace (- (Zpos (digits2_pos a) - 53 + (Zpos (digits2_pos b) - 53)))
    with ((53 - Zpos (digits2_pos a)) + (53 - Zpos (digits2_pos b))) by lia.
  rewrite Z.pow_add_r by lia. rewrite Pos2Z.inj_mul. ring.
Qed.

Lemma shl_align_val (m : positive) (e ez : Z) :
  ez <= e -> Zpos (fst (shl_align m e ez)) = Zpos m * 2 ^ (e - ez).
Proof.
  intros H. unfold shl_align. destruct (ez - e) as [|k|k] eqn:E; try lia.
  - replace (e - ez) with 0 by lia. cbn [fst]. lia.
  - cbn [fst]. change (shift_pos k m) with (Pos.iter xO m k).
    rewrite iter_xO_val. f_equal. f_equal. lia.
Qed.

(** The sum of two whole numbers is exact when it has at most 53
    bits. *)
Lemma fadd_whole (a b : positive) :
  Zpos a + Zpos b < 2 ^ 53 ->
  whole 53 a +! whole 53 b = whole 53 (a + b).
Proof.
  intros H.
  pose proof (digits2_le a 53 ltac:(lia) ltac:(lia)) as Hda.
  pose proof (digits2_le b 53 ltac:(lia) ltac:(lia)) as Hdb.
  pose proof (digits2_le (a + b) 53 ltac:(lia) H) as Hdab.
  unfold whole at 1 2. unfold Time.fadd, SFadd. cbn [cond_Zopp].
  set (ez := Z.min (Zpos (digits2_pos a) - 53) (Zpos (digits2_pos b) - 53)).
  cbn [Z.add binary_normalize].
  apply binary_round_whole;
    unfold Strconv.prec64, Strconv.emax64, emin; try lia.
  rewrite Pos2Z.inj_add, !shl_align_val, !widen_val by lia.
  rewrite <- !Z.mul_assoc, <- !Z.pow_add_r by lia.
  rewrite Pos2Z.inj_add.
  replace (53 - Zpos (digits2_pos a) + (Zpos (digits2_pos a) - 53 - ez))
    with (- ez) by lia.
  replace (53 - Zpos (digits2_pos b) + (Zpos (digits2_pos b) - 53 - ez))
    with (- ez) by lia.
  ring.
Qed.

Lemma float64_of_Z_exact (z : Z) :
  0 <= z < 2 ^ 53 ->
  Time.float64_of_Z z
  = match z with Zpos n => whole 53 n | _ => S754_zero false end.
Proof.
  intros H. destruct z as [|n|n]; [reflexivity | | lia].
  apply float64_of_Z_whole. lia.
Qed.

Lemma fmul_exact (a b : Z) :
  0 <= a < 2 ^ 53 -> 0 <= b < 2 ^ 53 -> a * b < 2 ^ 53 ->
  Time.float64_of_Z a *! Time.float64_of_Z b = Time.float64_of_Z (a * b).
Proof.
  intros Ha Hb H.
  rewrite (float64_of_Z_exact a Ha), (float64_of_Z_exact b Hb).
  rewrite (float64_of_Z_exact (a * b)) by nia.
  destruct a as [|a|a]; [| |lia]; destruct b as [|b|b]; try lia;
    try reflexivity.
  cbn [Z.mul]. now apply fmul_whole.
Qed.

Lemma fadd_exact (a b : Z) :
  0 <= a -> 0 <= b -> a + b < 2 ^ 53 ->
  Time.float64_of_Z a +! Time.float64_of_Z b = Time.float64_of_Z (a + b).
Proof.
  intros Ha Hb H.
  rewrite (float64_of_Z_exact a), (float64_of_Z_exact b) by lia.
  rewrite (float64_of_Z_exact (a + b)) by lia.
  destruct a as [|a|a]; [| |lia]; destruct b as [|b|b]; try lia;
    try reflexivity.
  cbn [Z.add]. now apply fadd_whole.
Qed.

Lemma parse_digits_le (s : string) :
  forall n v, Strconv.parse_digits s n = Some v -> 0 <= n -> n <= v.
Proof.
  induction s as [|c s IH]; intros n v H Hn; cbn [Strconv.parse_digits] in H.
  - injection H as <-. lia.
  - destruct (Strconv.is_digit (byte_val c)) eqn:E; [|discriminate].
    apply is_digit_range in E. apply IH in H; lia.
Qed.

(** On digits that spell a number below [2^24], [ParseFloat] gives the
    number. *)
Lemma ParseFloat32_whole (ds : string) (n : Z) :
  ds <> "" -> Strconv.parse_digits ds 0 = Some n -> n < 2 ^ 24 ->
  Strconv.ParseFloat32 ds = Ok (Time.float64_of_Z n).
Proof.
  intros Hne Hp Hn. pose proof (parse_digits_le ds 0 n Hp ltac:(lia)) as H0.
  rewrite (ParseFloat32_digits_value ds n Hne Hp). cbv zeta.
  rewrite float64_of_Z_exact by lia.
  destruct n as [|p|p]; [reflexivity | | lia].
  rewrite decimal_to_float32_whole by exact Hn.
  cbn [whole Strconv.is_infinite]. fold (whole 24 p).
  now rewrite to_float64_whole.
Qed.

(** [FormatFloat] writes a whole number below [2^24] as its digits. *)
Lemma FormatFloat32_f_exact (n : Z) :
  0 <= n < 2 ^ 24 ->
  Strconv.FormatFloat32_f (Time.float64_of_Z n) = Strconv.digits_of n "".
Proof.
  intros Hn. rewrite float64_of_Z_exact by lia.
  destruct n as [|p|p]; [reflexivity | | lia].
  pose proof (digits2_le p 24 ltac:(lia) ltac:(lia)) as Hd.
  apply (FormatFloat32_f_whole _ (widen 24 p) (Zpos (digits2_pos p) - 24)).
  - apply to_float32_whole. lia.
  - lia.
  - lia.
  - rewrite widen_val by exact Hd. f_equal. f_equal. lia.
Qed.

(** What a component adds to the seconds: its number times the seconds
    of its unit. *)
Lemma component_exact (g : option string) (n acc scale : Z)
    (scaled : spec_float -> spec_float) :
  group_valid g -> group_number g = Some n ->
  0 <= acc -> 0 < scale -> acc + n * scale < 2 ^ 24 ->
  (forall v, 0 <= v -> v * scale < 2 ^ 24 ->
             scaled (Time.float64_of_Z v) = Time.float64_of_Z (v * scale)) ->
  (if negb (group_digits g =? "")%string then
     f <- Strconv.ParseFloat32 (group_digits g) ;;
     Ok (Time.float64_of_Z acc +! scaled f)
   else Ok (Time.float64_of_Z acc))
  = Ok (Time.float64_of_Z (acc + n * scale)).
Proof.
  intros Hg Hn Hacc Hsc Hb Hscaled.
  destruct g as [ds|]; cbn [group_digits group_number] in *.
  - destruct Hg as [_ Hne].
    pose proof (parse_digits_le ds 0 n Hn ltac:(lia)) as H0.
    destruct (String.eqb_spec ds ""); [contradiction|]. cbn [negb].
    rewrite (ParseFloat32_whole ds n Hne Hn) by nia. cbn [bind].
    rewrite Hscaled by nia. rewrite fadd_exact by nia. reflexivity.
  - injection Hn as <-. cbn [String.eqb negb]. do 2 f_equal. lia.
Qed.

Lemma component_first (g : option string) (n scale : Z)
    (scaled : spec_float -> spec_float) :
  group_valid g -> group_number g = Some n ->
  0 < scale -> n * scale < 2 ^ 24 ->
  (forall v, 0 <= v -> v * scale < 2 ^ 24 ->
             scaled (Time.float64_of_Z v) = Time.float64_of_Z (v * scale)) ->
  (if negb (group_digits g =? "")%string then
     f <- Strconv.ParseFloat32 (group_digits g) ;;
     Ok (S754_zero false +! scaled f)
   else Ok (S754_zero false))
  = Ok (Time.float64_of_Z (n * scale)).
Proof.
  intros Hg Hn Hsc Hb Hscaled.
  apply (component_exact g n 0 scale scaled); auto; lia.
Qed.

Lemma group_number_nonneg (g : option string) (n : Z) :
  group_number g = Some n -> 0 <= n.
Proof.
  destruct g as [ds|]; cbn [group_number]; intros H.
  - now apply (parse_digits_le ds 0 n H).
  - injection H as <-. lia.
Qed.

(** X24: a duration written with whole numbers is read exactly. For a
    text made of [P], the components that are there (digits and [Y],
    [M], [D]), [T], and the components that are there after it (digits
    and [H], [M], [S]), [ParseISODuration] gives the days, hours,
    minutes and seconds added up, as long as the sum is below [2^24]
    seconds; the years and the months count for nothing. *)
Theorem ParseISODuration_whole_components
    (y mo d h mi s : option string) (D H M S : Z) :
  group_valid y -> group_valid mo -> group_valid d ->
  group_valid h -> group_valid mi -> group_valid s ->
  group_number d = Some D -> group_number h = Some H ->
  group_number mi = Some M -> group_number s = Some S ->
  D * 86400 + H * 3600 + M * 60 + S < 2 ^ 24 ->
  ParseISODuration (iso_text y mo d h mi s)
  = Ok ((D * 86400 + H * 3600 + M * 60 + S) * Time.Second).
Proof.
  intros Hy Hmo Hd Hh Hmi Hs ND NH NM NS Hb.
  pose proof (group_number_nonneg _ _ ND) as D0.
  pose proof (group_number_nonneg _ _ NH) as H0.
  pose proof (group_number_nonneg _ _ NM) as M0.
  pose proof (group_number_nonneg _ _ NS) as S0.
  change (2 ^ 24) with 16777216 in Hb.
  unfold ParseISODuration.
  rewrite (FindStringSubmatch_iso_text y mo d h mi s Hy Hmo Hd Hh Hmi Hs).
  unfold index. cbn [nth]. cbv zeta.
  rewrite (component_first d D 86400
             (fun f => f *! fconst 24 *! fconst 60 *! fconst 60));
    [| exact Hd | exact ND | lia | change (2 ^ 24) with 16777216; lia |].
  2:{ intros v Hv0 Hv. change (2 ^ 24) with 16777216 in Hv.
      unfold fconst. rewrite !fmul_exact;
        change (2 ^ 53) with 9007199254740992; try lia.
      f_equal. lia. }
  cbn [bind].
  rewrite (component_exact h H (D * 86400) 3600
             (fun f => f *! fconst 60 *! fconst 60));
    [| exact Hh | exact NH | lia | lia | change (2 ^ 24) with 16777216; lia |].
  2:{ intros v Hv0 Hv. change (2 ^ 24) with 16777216 in Hv.
      unfold fconst. rewrite !fmul_exact;
        change (2 ^ 53) with 9007199254740992; try lia.
      f_equal. lia. }
  cbn [bind].
  rewrite (component_exact mi M (D * 86400 + H * 3600) 60
             (fun f => f *! fconst 60));
    [| exact Hmi | exact NM | lia | lia | change (2 ^ 24) with 16777216; lia |].
  2:{ intros v Hv0 Hv. change (2 ^ 24) with 16777216 in Hv.
      unfold fconst. rewrite !fmul_exact;
        change (2 ^ 53) with 9007199254740992; try lia.
      reflexivity. }
  cbn [bind].
  rewrite (component_exact s S (D * 86400 + H * 3600 + M * 60) 1
             (fun f => f));
    [| exact Hs | exact NS | lia | lia | change (2 ^ 24) with 16777216; lia |].
  2:{ intros v Hv0 Hv. f_equal. lia. }
  cbn [bind]. rewrite Z.mul_1_r.
  rewrite FormatFloat32_f_exact by (change (2 ^ 24) with 16777216; lia).
  apply ParseDuration_whole_seconds.
  change (2 ^ 63 / Time.Second) with 9223372036. lia.
Qed.

Lemma ParseISODuration_whole_components_witness :
  ParseISODuration
    (iso_text (Some "1") (Some "2") (Some "3") (Some "04") None (Some "6"))
  = Ok ((3 * 86400 + 4 * 3600 + 0 * 60 + 6) * Time.Second).
Proof.
  apply (ParseISODuration_whole_components
           (Some "1") (Some "2") (Some "3") (Some "04") None (Some "6")
           3 4 0 6);
    cbn [group_valid group_number];
    try (split; [reflexivity | discriminate]);
    try exact I; reflexivity.
Defined.

End WholeArithmetic.

(* ===================================================================== *)
(** * The times as they are rendered *)
(* ===================================================================== *)

Section RenderedTimes.

Lemma Itoa_digits_of (v : Z) (acc : string) :
  0 <= v -> Strconv.digits_of v acc = (Strconv.Itoa v ++ acc)%string.
Proof.
  intros H. unfold Strconv.Itoa. destruct (Z.ltb_spec v 0); [lia|].
  apply digits_of_acc.
Qed.

(** [Duration.String] on a whole number of seconds. *)
Lemma String_whole_seconds (t : Z) :
  0 < t -> Time.String_ (t * Time.Second) = clock t.
Proof.
  intros Ht. unfold Time.String_, clock. cbv zeta.
  change Time.Second with 1000000000.
  destruct (Z.ltb_spec (t * 1000000000) 0); [lia|].
  destruct (Z.ltb_spec (t * 1000000000) 1000000000); [lia|].
  unfold Time.fmtFrac.
  change 1000000000 with (10 ^ Z.of_nat 9). rewrite put_frac_zeros.
  unfold Time.fmtInt.
  pose proof (Z.mod_pos_bound t 60 ltac:(lia)) as Hm.
  pose proof (Z.div_mod t 60 ltac:(lia)) as Hdm.
  assert (Hq : 0 <= t / 60) by (apply Z.div_pos; lia).
  pose proof (Z.mod_pos_bound (t / 60) 60 ltac:(lia)) as Hm2.
  pose proof (Z.div_mod (t / 60) 60 ltac:(lia)) as Hdm2.
  assert (Hq2 : 0 <= t / 60 / 60) by (apply Z.div_pos; lia).
  destruct (Z.ltb_spec 0 (t / 60)).
  - destruct (Z.ltb_spec t 60); [lia|].
    destruct (Z.ltb_spec 0 (t / 60 / 60)).
    + destruct (Z.ltb_spec t 3600); [lia|].
      rewrite !Itoa_digits_of by lia.
      rewrite Z.div_div by lia. reflexivity.
    + destruct (Z.ltb_spec t 3600); [|lia].
      rewrite !Itoa_digits_of by lia.
      replace (t / 60 mod 60) with (t / 60) by lia. reflexivity.
  - destruct (Z.ltb_spec t 60); [|lia].
    rewrite Itoa_digits_of by lia.
    replace (t mod 60) with t by lia. reflexivity.
Qed.

(** A text that is a duration has nothing to trim. *)
Lemma TrimSpace_parsed (text : string) (v : Time.Duration) :
  ParseISODuration text = Ok v -> Strings.TrimSpace text = text.
Proof.
  intros Hd.
  assert (Hm : exists m, FindStringSubmatch isoDurationRe text = Some m).
  { unfold ParseISODuration in Hd.
    destruct (FindStringSubmatch isoDurationRe text) as [m|];
      [now exists m | discriminate]. }
  destruct Hm as (m & Hm).
  apply FindStringSubmatch_iso_bytes in Hm
    as ((body & HP) & (pre & c & Hlast & Hc)).
  pose proof (TrimSpace_padded [] [] text pre body "P"%char c) as H.
  cbn [string_of_runes String.append] in H. rewrite append_nil_r in H.
  apply H; [constructor | constructor | exact HP | exact Hlast | |].
  - split; vm_compute; reflexivity.
  - now apply closing_byte_plain.
Qed.

(** X25: a time that is a whole number of seconds is rendered in hours,
    minutes and seconds. When the [cookTime] content, or the [prepTime]
    content, is a text that [ParseISODuration] reads as [t] seconds,
    [t] above 0, the recipe's line is [Cook Time: ], or [Prep Time: ],
    followed by the hours with [h], the minutes with [m] and the
    seconds with [s], the hours and the minutes left out while there
    are none; the two lines stand in the rendered text after the
    source. *)
Theorem times_are_rendered (s : RecipeNode) (text : string) (t : Z) :
  ParseISODuration text = Ok (t * Time.Second) -> 0 < t ->
  let r := ExtractRecipe s in
  (ItemPropContentOr s "cookTime" "PT0S" = text ->
   cook_time_line r = ("Cook Time: " ++ clock t ++ nl)%string)
  /\ (ItemPropContentOr s "prepTime" "PT50S" = text ->
      prep_time_line r = ("Prep Time: " ++ clock t ++ nl)%string)
  /\ FormatAsRecipeMD r
     = ("# " ++ Title r ++ nl
        ++ nl ++ rating_line r ++ collections_line r ++ course_line r
        ++ nl ++ source_line r
        ++ nl ++ cook_time_line r ++ prep_time_line r
        ++ after_times r)%string.
Proof.
  intros Hp Ht r. split; [|split].
  - intros H. unfold cook_time_line. subst r. cbn [ExtractRecipe Metadata].
    rewrite CookTime_ExtractRecipeMetadata, H, Hp.
    destruct (Z.ltb_spec 0 (t * Time.Second)).
    + now rewrite String_whole_seconds.
    + change Time.Second with 1000000000 in *. lia.
  - intros H. unfold prep_time_line. subst r. cbn [ExtractRecipe Metadata].
    rewrite PrepTime_ExtractRecipeMetadata, H, (TrimSpace_parsed _ _ Hp), Hp.
    destruct (Z.ltb_spec 0 (t * Time.Second)).
    + now rewrite String_whole_seconds.
    + change Time.Second with 1000000000 in *. lia.
  - apply FormatAsRecipeMD_blocks.
Qed.

Lemma times_are_rendered_witness :
  cook_time_line
    (ExtractRecipe (fragment [meta "cookTime" "PT1H30M";
                              meta "prepTime" "PT45S"]))
  = ("Cook Time: 1h30m0s" ++ nl)%string.
Proof.
  destruct (times_are_rendered
              (fragment [meta "cookTime" "PT1H30M"; meta "prepTime" "PT45S"])
              "PT1H30M" 5400 eq_refl eq_refl) as (H & _ & _).
  apply H. reflexivity.
Defined.

End RenderedTimes.
